(** * UUIDv7 generator: a shallow embedding of [src/uuid7.c] and its variants

    The development follows the C sources function by function.

    - Unsigned C integers are [Z] with the reduction modulo [2^w] written
      where the C expression is truncated to [w] bits.
    - The two process-wide atomics ([g_v7_state], [g_uuid_rng_ptr]) and
      everything outside the module (wall clock, kernel entropy, the test
      harness' scripted generator) live in one record that every function
      takes and returns.
    - Byte buffers are [list Z], written by index.
    - The platform is the one the sources are written for: Linux (the
      [getrandom] branch of [_default_rng] is compiled in) with a 64-bit
      [long]; the byte order is a parameter. *)

From Stdlib Require Import ZArith Lia List Bool Sorted.
From Stdlib Require Ascii String.
From stdpp Require Import base list.
Import ListNotations.

Local Open Scope Z_scope.

(** ** Fixed-width unsigned integers *)

Definition u8  (x : Z) : Z := x mod 2 ^ 8.
Definition u16 (x : Z) : Z := x mod 2 ^ 16.
Definition u64 (x : Z) : Z := x mod 2 ^ 64.

Definition UINT64_MAX : Z := 2 ^ 64 - 1.

(** ** The packing macros of [uuid7.c] *)

Definition V7_SEQ_BITS : Z := 12.
Definition V7_SEQ_MASK : Z := u64 (Z.shiftl 1 V7_SEQ_BITS) - 1.
Definition V7_MS_SHIFT : Z := V7_SEQ_BITS.

Definition V7_PACK (ms seq : Z) : Z :=
  Z.lor (u64 (Z.shiftl (u64 ms) V7_MS_SHIFT)) (Z.land (u64 seq) V7_SEQ_MASK).

Definition V7_UNPACK_MS (word : Z) : Z := Z.shiftr (u64 word) V7_MS_SHIFT.

Definition V7_UNPACK_SEQ (word : Z) : Z := u16 (Z.land word V7_SEQ_MASK).

Definition V7_BYTE_MASK : Z := 255.

(** [n] in [0..5], 0 is the most significant byte of the 48-bit field. *)
Definition V7_MS_BYTE (ms n : Z) : Z :=
  u8 (Z.land (Z.shiftr (u64 ms) (8 * (5 - n))) V7_BYTE_MASK).

Definition V7_SEQ_HIGH_SHIFT : Z := 8.
Definition V7_SEQ_HIGH_MASK : Z := 15.
Definition V7_SEQ_LOW_MASK : Z := 255.
Definition V7_RB0_LOW6_MASK : Z := 63.
Definition V7_VARIANT_TOP : Z := 128.

Definition V7_RB_BYTES : nat := 8.
Definition V7_MS_BYTES : nat := 6.
Definition V7_UUID_BYTES : nat := 16.

(** ** The world outside the module *)

(** What a system call hands back: [r < 0] with [errno == EINTR], [r < 0]
    with any other [errno], or [r >= 0] together with the bytes the kernel
    copied out. *)
Inductive sys_ret : Type :=
| EINTR
| EFAIL
| RET (bs : list Z).

Record timespec : Type := { tv_sec : Z; tv_nsec : Z }.

(** [scripted_rng_ctx_t] of [tests/test_uuid7.c]. *)
Record scripted_rng_ctx_t : Type := {
  script : list Z;
  script_len : nat;
  cursor : nat;
  fallback : Z
}.

(** The environment.  [clock] lists the samples [clock_gettime] returns, in
    program order, and [tick] counts the samples taken.  The kernel's
    answers are finite scripts consumed one answer per call; past the end
    of a script the call fails with a hard error, so every run that
    returns is described by the answers it consulted.  [auto_rb] stands for
    the indeterminate bytes the automatic array [rb] holds before it is
    filled. *)
Record Env : Type := {
  clock : nat -> timespec;
  tick : nat;
  sys_getrandom : list sys_ret;
  sys_open : list bool;
  sys_read : list sys_ret;
  g_rng_ctx : scripted_rng_ctx_t;
  auto_rb : nat -> Z
}.

Definition set_tick (t : nat) (e : Env) : Env :=
  {| clock := clock e; tick := t; sys_getrandom := sys_getrandom e;
     sys_open := sys_open e; sys_read := sys_read e;
     g_rng_ctx := g_rng_ctx e; auto_rb := auto_rb e |}.

Definition set_sys_getrandom (a : list sys_ret) (e : Env) : Env :=
  {| clock := clock e; tick := tick e; sys_getrandom := a;
     sys_open := sys_open e; sys_read := sys_read e;
     g_rng_ctx := g_rng_ctx e; auto_rb := auto_rb e |}.

Definition set_sys_open (a : list bool) (e : Env) : Env :=
  {| clock := clock e; tick := tick e; sys_getrandom := sys_getrandom e;
     sys_open := a; sys_read := sys_read e;
     g_rng_ctx := g_rng_ctx e; auto_rb := auto_rb e |}.

Definition set_sys_read (a : list sys_ret) (e : Env) : Env :=
  {| clock := clock e; tick := tick e; sys_getrandom := sys_getrandom e;
     sys_open := sys_open e; sys_read := a;
     g_rng_ctx := g_rng_ctx e; auto_rb := auto_rb e |}.

Definition set_rng_ctx (c : scripted_rng_ctx_t) (e : Env) : Env :=
  {| clock := clock e; tick := tick e; sys_getrandom := sys_getrandom e;
     sys_open := sys_open e; sys_read := sys_read e;
     g_rng_ctx := c; auto_rb := auto_rb e |}.

(** ** Randomness providers *)

(** [void fn(void* buf, size_t n)]: the buffer goes in with its current
    bytes ([n] is its length) and comes back as the provider left it. *)
Definition rng_body : Type := list Z -> Env -> list Z * Env.

(** The code a provider pointer designates; [NULL] is [None]. *)
Inductive rng_code : Type :=
| DefaultRng
| UserRng (body : rng_body).

Definition uuid_rng_fn_t : Type := option rng_code.

(** The kernel copies at most [n - off] of the bytes it has into
    [buf + off] and returns how many it copied. *)
Definition deliver (bs : list Z) (off : nat) (buf : list Z) : nat * list Z :=
  let got := take (length buf - off)%nat bs in
  (length got, take off buf ++ map u8 got ++ drop (off + length got)%nat buf).

(** The [getrandom] loop of [_default_rng]: returns [off] on leaving the
    loop, the buffer and the answers left. *)
Fixpoint getrandom_loop (answers : list sys_ret) (off : nat) (buf : list Z)
  : nat * list Z * list sys_ret :=
  if (length buf <=? off)%nat then (off, buf, answers)
  else match answers with
       | [] => (off, buf, [])
       | EINTR :: rest => getrandom_loop rest off buf
       | EFAIL :: rest => (off, buf, rest)
       | RET bs :: rest =>
           let '(r, buf') := deliver bs off buf in
           getrandom_loop rest (off + r)%nat buf'
       end.

(** The [read] loop over [/dev/urandom] of [_default_rng]. *)
Fixpoint urandom_loop (answers : list sys_ret) (off2 : nat) (buf : list Z)
  : list Z * list sys_ret :=
  if (length buf <=? off2)%nat then (buf, answers)
  else match answers with
       | [] => (buf, [])
       | EINTR :: rest => urandom_loop rest off2 buf
       | EFAIL :: rest => (buf, rest)
       | RET bs :: rest =>
           let '(r, buf') := deliver bs off2 buf in
           if (r =? 0)%nat then (buf', rest)
           else urandom_loop rest (off2 + r)%nat buf'
       end.

Definition _default_rng : rng_body := fun buf e =>
  if (length buf =? 0)%nat then (buf, e)
  else
    let '(off, buf1, ga) := getrandom_loop (sys_getrandom e) 0 buf in
    let e1 := set_sys_getrandom ga e in
    if (off =? length buf)%nat then (buf1, e1)
    else
      match sys_open e1 with
      | [] => (buf1, e1)
      | false :: rest => (buf1, set_sys_open rest e1)
      | true :: rest =>
          let e2 := set_sys_open rest e1 in
          let '(buf2, ra) := urandom_loop (sys_read e2) 0 buf1 in
          (buf2, set_sys_read ra e2)
      end.

(** ** The generator's own state *)

Record World : Type := {
  g_v7_state : Z;
  g_uuid_rng_ptr : uuid_rng_fn_t;
  env : Env
}.

Definition set_state (s : Z) (w : World) : World :=
  {| g_v7_state := s; g_uuid_rng_ptr := g_uuid_rng_ptr w; env := env w |}.

Definition set_env (e : Env) (w : World) : World :=
  {| g_v7_state := g_v7_state w; g_uuid_rng_ptr := g_uuid_rng_ptr w; env := e |}.

Definition load_uuid_rng (w : World) : uuid_rng_fn_t := g_uuid_rng_ptr w.

Definition store_uuid_rng (fn : uuid_rng_fn_t) (w : World) : World :=
  {| g_v7_state := g_v7_state w; g_uuid_rng_ptr := fn; env := env w |}.

(** [atomic_compare_exchange_strong] on [g_uuid_rng_ptr] with
    [expected = 0] and [desired = _default_rng]. *)
Definition cas_install_default (w : World) : World :=
  match g_uuid_rng_ptr w with
  | None => store_uuid_rng (Some DefaultRng) w
  | Some _ => w
  end.

Definition call_rng (fn : rng_code) : rng_body :=
  match fn with
  | DefaultRng => _default_rng
  | UserRng body => body
  end.

Definition _realtime_ms (w : World) : Z * World :=
  let e := env w in
  let ts := clock e (tick e) in
  (u64 (u64 (tv_sec ts) * 1000 + u64 (Z.quot (tv_nsec ts) 1000000)),
   set_env (set_tick (S (tick e)) e) w).

Definition _fill_random (buf : list Z) (w : World) : list Z * World :=
  if (length buf =? 0)%nat then (buf, w)
  else
    let '(fn, w1) :=
      match load_uuid_rng w with
      | Some fn => (fn, w)
      | None =>
          let w' := cas_install_default w in
          match load_uuid_rng w' with
          | Some fn => (fn, w')
          | None => (DefaultRng, w')
          end
      end in
    let '(buf', e') := call_rng fn buf (env w1) in
    (buf', set_env e' w1).

(** ** [tests/test_uuid7.c]: the scripted provider *)

(** One turn of the loop of [scripted_rng]: [out[i]] takes the next script
    byte while the cursor is inside the script, the running fallback
    counter afterwards. *)
Definition scripted_rng_step (acc : list Z * scripted_rng_ctx_t) (i : nat)
  : list Z * scripted_rng_ctx_t :=
  let '(out, c) := acc in
  if (cursor c <? script_len c)%nat
  then (<[i := nth (cursor c) (script c) 0]> out,
        {| script := script c; script_len := script_len c;
           cursor := S (cursor c); fallback := fallback c |})
  else (<[i := fallback c]> out,
        {| script := script c; script_len := script_len c;
           cursor := cursor c; fallback := u8 (fallback c + 1) |}).

Definition scripted_rng : rng_body := fun buf e =>
  let '(out, c) :=
    fold_left scripted_rng_step (seq 0 (length buf)) (buf, g_rng_ctx e) in
  (out, set_rng_ctx c e).

(** ** [uuid7.c]: configuration entry points *)

Definition uuid7_set_rng (fn : uuid_rng_fn_t) (w : World) : Z * World :=
  match fn with
  | Some f => (0, store_uuid_rng (Some f) w)
  | None => (0, store_uuid_rng (Some DefaultRng) w)
  end.

Definition uuid7_init (fn : uuid_rng_fn_t) (w : World) : Z * World :=
  match fn with
  | Some f => (0, store_uuid_rng (Some f) w)
  | None => (0, cas_install_default w)
  end.

(** [rng_load_script] of the test harness: clamps [len] to the 128-byte
    script array, copies the bytes, rewinds the cursor and installs
    [scripted_rng]. *)
Definition rng_load_script (data : option (list Z)) (len : nat)
    (fallback_start : Z) (w : World) : World :=
  let len := if (128 <? len)%nat then 128%nat else len in
  let old := g_rng_ctx (env w) in
  let arr :=
    match data with
    | Some d => if (len =? 0)%nat then script old
                else map u8 (take len d) ++ drop len (script old)
    | None => script old
    end in
  let c := {| script := arr; script_len := len; cursor := 0%nat;
              fallback := u8 fallback_start |} in
  snd (uuid7_set_rng (Some (UserRng scripted_rng))
         (set_env (set_rng_ctx c (env w)) w)).

(** ** [uuid7.c]: the allocator and the encoder *)

(** The byte order of the platform decides how the two bytes the provider
    wrote into [uint16_t rnd] read back as a number. *)
Inductive byte_order : Type := LittleEndian | BigEndian.

Section Generator.

Variable order : byte_order.

Definition load_u16 (bs : list Z) : Z :=
  match order with
  | LittleEndian => u8 (nth 0 bs 0) + 256 * u8 (nth 1 bs 0)
  | BigEndian => 256 * u8 (nth 0 bs 0) + u8 (nth 1 bs 0)
  end.

(** [rnd &= (uint16_t)V7_SEQ_MASK; if(rnd == 0u) rnd = 1u;] *)
Definition nonzero12 (raw : Z) : Z :=
  let rnd := Z.land (u16 raw) (u16 V7_SEQ_MASK) in
  if rnd =? 0 then 1 else rnd.

(** [uint16_t rnd = 0; _fill_random(&rnd, sizeof(rnd));] followed by the
    mask and the remap of zero.  The source has these four lines twice
    ([rnd] and [rnd2]). *)
Definition draw_seq (w : World) : Z * World :=
  let '(bs, w1) := _fill_random [0; 0] w in
  (nonzero12 (load_u16 bs), w1).

(** The candidate of one turn of the loop, as a function of the clock
    sample, the loaded register and the two draws (the second is looked at
    on the overflow path only). *)
Definition v7_candidate (now_ms prev rnd rnd2 : Z) : Z :=
  let prev_ms := V7_UNPACK_MS prev in
  let prev_seq := V7_UNPACK_SEQ prev in
  let use_ms := if now_ms >=? prev_ms then now_ms else prev_ms in
  let candidate := V7_PACK use_ms rnd in
  if candidate <=? prev then
    if negb (prev_seq =? u16 V7_SEQ_MASK) then u64 (prev + 1)
    else V7_PACK (u64 (prev_ms + 1)) rnd2
  else candidate.

(** The body of the [for(;;)] loop up to the compare-exchange, with the
    provider calls where the source makes them. *)
Definition reserve (now_ms prev : Z) (w : World) : Z * World :=
  let prev_ms := V7_UNPACK_MS prev in
  let prev_seq := V7_UNPACK_SEQ prev in
  let use_ms := if now_ms >=? prev_ms then now_ms else prev_ms in
  let '(rnd, w1) := draw_seq w in
  let candidate := V7_PACK use_ms rnd in
  if candidate <=? prev then
    if negb (prev_seq =? u16 V7_SEQ_MASK) then (u64 (prev + 1), w1)
    else
      let next_ms := u64 (prev_ms + 1) in
      let '(rnd2, w2) := draw_seq w1 in
      (V7_PACK next_ms rnd2, w2)
  else (candidate, w1).

(** The [for(;;)] loop of [uuid7_gen] run by one thread alone.  The
    register still holds [prev] when the weak compare-exchange runs, so it
    can only fail spuriously; [spurious] is the number of times it does
    before it succeeds.  Returns the committed candidate. *)
Fixpoint reserve_loop (spurious : nat) (w : World) : Z * World :=
  let '(now_ms, w0) := _realtime_ms w in
  let prev := g_v7_state w0 in
  let '(candidate, w1) := reserve now_ms prev w0 in
  match spurious with
  | O => (candidate, set_state candidate w1)
  | S k => reserve_loop k w1
  end.

(** The stores into [out] after the loop. *)
Definition encode (use_ms seq12 : Z) (rb out : list Z) : list Z :=
  let out :=
    fold_left (fun o i => <[i := V7_MS_BYTE use_ms (Z.of_nat i)]> o)
              (seq 0 V7_MS_BYTES) out in
  let out :=
    <[6%nat := u8 (Z.lor (Z.shiftl (Z.land 7 V7_BYTE_MASK) 4)
                     (u8 (Z.land (Z.shiftr seq12 V7_SEQ_HIGH_SHIFT)
                                 V7_SEQ_HIGH_MASK)))]> out in
  let out := <[7%nat := u8 (Z.land (u8 seq12) V7_SEQ_LOW_MASK)]> out in
  let out :=
    <[8%nat := u8 (Z.lor (Z.land (nth 0 rb 0) V7_RB0_LOW6_MASK)
                     V7_VARIANT_TOP)]> out in
  fold_left (fun o i => <[(V7_MS_BYTES + 3 + i)%nat := nth (1 + i) rb 0]> o)
            (seq 0 (V7_RB_BYTES - 1)) out.

(** [uint8_t rb[V7_RB_BYTES];] before the provider fills it. *)
Definition rb_indeterminate (e : Env) : list Z :=
  map (fun i => u8 (auto_rb e i)) (seq 0 V7_RB_BYTES).

(** [uuid7_gen]: [out] is [None] for a [NULL] pointer, the caller's buffer
    otherwise; the result carries the status and the buffer as written. *)
Definition uuid7_gen (spurious : nat) (out : option (list Z)) (w : World)
  : Z * option (list Z) * World :=
  match out with
  | None => (-1, None, w)
  | Some buf =>
      let '(candidate, w1) := reserve_loop spurious w in
      let seq12 := u16 (Z.land candidate V7_SEQ_MASK) in
      let use_ms := V7_UNPACK_MS candidate in
      let '(rb, w2) := _fill_random (rb_indeterminate (env w1)) w1 in
      (0, Some (encode use_ms seq12 rb buf), w2)
  end.

(** [extract_seq] of the test harness. *)
Definition extract_seq (uuid : list Z) : Z :=
  u16 (Z.lor (Z.shiftl (u16 (Z.land (nth 6 uuid 0) 15)) 8) (nth 7 uuid 0)).

(** The first eight bytes of an identifier read as a big-endian number. *)
Definition first8 (uuid : list Z) : Z :=
  fold_left (fun acc b => acc * 256 + b) (take 8 uuid) 0.

End Generator.

(** ** Concurrent callers of [uuid7_gen]

    Threads interleave at the two atomic accesses of a loop turn: the load
    of [g_v7_state] (with the clock sample and the draws of that turn) and
    the compare-exchange.  A single atomic location has one modification
    order, so an interleaving of these accesses describes every run.
    [commits] lists, in commit order, the words the successful
    compare-exchanges stored. *)
Module Interleaving.

Inductive phase : Type :=
| Ready
| Holding (prev candidate : Z)
| Done (word : Z).

Record config : Type := {
  reg : Z;
  threads : list phase;
  commits : list Z
}.

Definition boot (n : nat) : config :=
  {| reg := 0; threads := replicate n Ready; commits := [] |}.

Inductive step : config -> config -> Prop :=
| step_load c i now_ms raw raw2 :
    threads c !! i = Some Ready ->
    step c {| reg := reg c;
              threads :=
                <[i := Holding (reg c)
                         (v7_candidate now_ms (reg c)
                            (nonzero12 raw) (nonzero12 raw2))]> (threads c);
              commits := commits c |}
| step_cas_success c i prev candidate :
    threads c !! i = Some (Holding prev candidate) ->
    reg c = prev ->
    step c {| reg := candidate;
              threads := <[i := Done candidate]> (threads c);
              commits := commits c ++ [candidate] |}
| step_cas_failure c i prev candidate :
    threads c !! i = Some (Holding prev candidate) ->
    step c {| reg := reg c;
              threads := <[i := Ready]> (threads c);
              commits := commits c |}
| step_next_call c i word :
    threads c !! i = Some (Done word) ->
    step c {| reg := reg c;
              threads := <[i := Ready]> (threads c);
              commits := commits c |}.

Inductive run : config -> config -> Prop :=
| run_refl c : run c c
| run_step c1 c2 c3 : run c1 c2 -> step c2 c3 -> run c1 c3.

(** The identifier a call writes once its compare-exchange has stored
    [word]: the fields are unpacked from [word], the tail is [rb]. *)
Definition emitted (word : Z) (rb out : list Z) : list Z :=
  encode (V7_UNPACK_MS word) (u16 (Z.land word V7_SEQ_MASK)) rb out.

End Interleaving.

(** ** [uuid_v7] and [fill_random] of the application variant *)
Module Variant.

(** What one turn of the loop of [uuid_v7] decides: busy-wait for the next
    millisecond, or try to store [next] over [prev]. *)
Inductive turn : Type :=
| SpinWait (prev_ms : Z)
| TryCas (prev next seq12 : Z).

Definition uuid_v7_turn (now_ms prev : Z) : turn :=
  let prev_ms := Z.shiftr prev 12 in
  let prev_seq := u16 (Z.land prev 4095) in
  let use_ms := if now_ms >? prev_ms then now_ms else prev_ms in
  let next_seq := if use_ms =? prev_ms then u16 (prev_seq + 1) else 0 in
  if (use_ms =? prev_ms) && (next_seq =? 0) then SpinWait prev_ms
  else TryCas prev (Z.lor (u64 (Z.shiftl use_ms 12)) next_seq) next_seq.

(** The [read] loop of [fill_random]: any [rd <= 0] gives up with [-1]. *)
Fixpoint read_all (answers : list sys_ret) (off : nat) (p : list Z)
  : Z * list Z * list sys_ret :=
  if (length p <=? off)%nat then (0, p, answers)
  else match answers with
       | [] => (-1, p, [])
       | EINTR :: rest => (-1, p, rest)
       | EFAIL :: rest => (-1, p, rest)
       | RET bs :: rest =>
           let '(rd, p') := deliver bs off p in
           if (rd =? 0)%nat then (-1, p', rest)
           else read_all rest (off + rd)%nat p'
       end.

(** [p[i] = (uint8_t)(0xA5 ^ (i * 41))] for every [i < n]. *)
Definition weak_fill (p : list Z) : list Z :=
  fold_left (fun q i => <[i := u8 (Z.lxor 165 (u64 (Z.of_nat i * 41)))]> q)
            (seq 0 (length p)) p.

Definition fill_random (p : list Z) (e : Env) : Z * list Z * Env :=
  let n := length p in
  let '(full, p1, e1) :=
    match sys_getrandom e with
    | [] => (false, p, e)
    | RET bs :: rest =>
        let '(r, p') := deliver bs 0 p in
        ((r =? n)%nat, p', set_sys_getrandom rest e)
    | _ :: rest => (false, p, set_sys_getrandom rest e)
    end in
  if full then (0, p1, e1)
  else
    match sys_open e1 with
    | true :: rest =>
        let e2 := set_sys_open rest e1 in
        let '(st, p2, ra) := read_all (sys_read e2) 0 p1 in
        (st, p2, set_sys_read ra e2)
    | false :: rest => (0, weak_fill p1, set_sys_open rest e1)
    | [] => (0, weak_fill p1, e1)
    end.

End Variant.

(** ** Vocabulary of the statements, and concrete worlds *)

(** The three ways a turn forms its candidate. *)
Inductive candidate_path (now_ms prev rnd rnd2 candidate : Z) : Prop :=
| path_fresh :
    candidate = V7_PACK (Z.max now_ms (V7_UNPACK_MS prev)) rnd ->
    prev < candidate ->
    candidate_path now_ms prev rnd rnd2 candidate
| path_increment :
    V7_UNPACK_SEQ prev <> 4095 ->
    candidate = u64 (prev + 1) ->
    candidate_path now_ms prev rnd rnd2 candidate
| path_overflow :
    V7_UNPACK_SEQ prev = 4095 ->
    candidate = V7_PACK (V7_UNPACK_MS prev + 1) rnd2 ->
    candidate_path now_ms prev rnd rnd2 candidate.

(** The sixteen bytes [encode] stores, in order. *)
Definition layout (use_ms seq12 : Z) (rb : list Z) : list Z :=
  [V7_MS_BYTE use_ms 0; V7_MS_BYTE use_ms 1; V7_MS_BYTE use_ms 2;
   V7_MS_BYTE use_ms 3; V7_MS_BYTE use_ms 4; V7_MS_BYTE use_ms 5;
   112 + (seq12 / 256) mod 16;
   seq12 mod 256;
   128 + nth 0 rb 0 mod 64;
   nth 1 rb 0; nth 2 rb 0; nth 3 rb 0; nth 4 rb 0; nth 5 rb 0; nth 6 rb 0;
   nth 7 rb 0].

(** Each committed word exceeds the one before it, unless the one before
    it is the largest word. *)
Fixpoint climbs (l : list Z) : Prop :=
  match l with
  | a :: t =>
      match t with
      | b :: _ => (a <> UINT64_MAX -> a < b) /\ climbs t
      | [] => True
      end
  | [] => True
  end.

(** What every reachable configuration satisfies: the register and the
    held candidates are 64-bit words with a non-zero sequence, a held
    candidate exceeds the register value it was formed from unless that is
    the largest word, the register is the last committed word, and the
    commits climb. *)
Record invariant (c : Interleaving.config) : Prop := {
  inv_reg : 0 <= Interleaving.reg c < 2 ^ 64;
  inv_held :
    forall i prev cand,
      Interleaving.threads c !! i = Some (Interleaving.Holding prev cand) ->
      0 <= cand < 2 ^ 64 /\
      1 <= V7_UNPACK_SEQ cand <= 4095 /\
      (0 <= prev < UINT64_MAX -> prev < cand);
  inv_last :
    Interleaving.commits c = [] \/
    last (Interleaving.commits c) = Some (Interleaving.reg c);
  inv_range :
    Forall (fun w => 0 <= w < 2 ^ 64 /\ 1 <= V7_UNPACK_SEQ w <= 4095)
           (Interleaving.commits c);
  inv_climbs : climbs (Interleaving.commits c)
}.

(** One thread, two calls at millisecond 1000: the first draws [0x412]
    and commits (1000, 0x412); the second draws 7, which is not above,
    and commits the register plus one. *)
Definition two_calls_1 : Interleaving.config :=
  {| Interleaving.reg := 0;
     Interleaving.threads := [Interleaving.Holding 0 4097042];
     Interleaving.commits := [] |}.

Definition two_calls_2 : Interleaving.config :=
  {| Interleaving.reg := 4097042;
     Interleaving.threads := [Interleaving.Done 4097042];
     Interleaving.commits := [4097042] |}.

Definition two_calls_3 : Interleaving.config :=
  {| Interleaving.reg := 4097042;
     Interleaving.threads := [Interleaving.Ready];
     Interleaving.commits := [4097042] |}.

Definition two_calls_4 : Interleaving.config :=
  {| Interleaving.reg := 4097042;
     Interleaving.threads := [Interleaving.Holding 4097042 4097043];
     Interleaving.commits := [4097042] |}.

Definition two_calls : Interleaving.config :=
  {| Interleaving.reg := 4097043;
     Interleaving.threads := [Interleaving.Done 4097043];
     Interleaving.commits := [4097042; 4097043] |}.

(** A caller's 16-byte buffer, zeroed as in the harness. *)
Definition zeros16 : list Z := replicate 16 0.

(** The harness' context before any script is loaded. *)
Definition ctx_empty : scripted_rng_ctx_t :=
  {| script := []; script_len := 0; cursor := 0; fallback := 0 |}.

(** A clock stuck at [ms] milliseconds after the epoch. *)
Definition steady_clock (ms : Z) : nat -> timespec :=
  fun _ => {| tv_sec := ms / 1000; tv_nsec := (ms mod 1000) * 1000000 |}.

(** No kernel entropy at all: [getrandom] fails and [/dev/urandom] cannot
    be opened. *)
Definition quiet_env (ms : Z) : Env :=
  {| clock := steady_clock ms; tick := 0; sys_getrandom := [];
     sys_open := []; sys_read := []; g_rng_ctx := ctx_empty;
     auto_rb := fun _ => 238 |}.

(** The process as it starts: register zero, no provider installed. *)
Definition fresh_world (ms : Z) : World :=
  {| g_v7_state := 0; g_uuid_rng_ptr := None; env := quiet_env ms |}.

(** A clock that advances one millisecond per sample, starting at [ms]. *)
Definition ticking_clock (ms : Z) : nat -> timespec :=
  fun t => {| tv_sec := (ms + Z.of_nat t) / 1000;
              tv_nsec := ((ms + Z.of_nat t) mod 1000) * 1000000 |}.

(** The process as it starts, under a ticking clock. *)
Definition ticking_world (ms : Z) : World :=
  {| g_v7_state := 0; g_uuid_rng_ptr := None;
     env := {| clock := ticking_clock ms; tick := 0; sys_getrandom := [];
               sys_open := []; sys_read := []; g_rng_ctx := ctx_empty;
               auto_rb := fun _ => 238 |} |}.

(** The clock at the last millisecond the 52-bit field can hold and a
    scripted provider whose first draw is [0xFFF]. *)
Definition end_of_range : World :=
  rng_load_script (Some [255; 255]) 2 0 (fresh_world (2 ^ 52 - 1)).

(** One thread calling [uuid7_gen] again and again: each call comes with
    its number of spurious compare-exchange failures and its [out]
    argument; the statuses and buffers come back in call order. *)
Fixpoint gen_calls (order : byte_order) (calls : list (nat * option (list Z)))
    (w : World) : list (Z * option (list Z)) * World :=
  match calls with
  | [] => ([], w)
  | (k, out) :: rest =>
      let '(st, o, w1) := uuid7_gen order k out w in
      let '(rs, w2) := gen_calls order rest w1 in
      ((st, o) :: rs, w2)
  end.

(** What the fixed-field properties ask of one call's result. *)
Definition fixed_fields (call : nat * option (list Z))
    (res : Z * option (list Z)) : Prop :=
  match snd call with
  | None => res = (-1, None)
  | Some buf =>
      fst res = 0 /\
      exists out, snd res = Some out /\
                  Z.shiftr (nth 6 out 0) 4 = 7 /\
                  Z.shiftr (nth 8 out 0) 6 = 2
  end.

(** The byte script of [test_version_and_variant_bits]. *)
Definition script5 : list Z := [18; 52; 170; 188; 205; 222; 239; 1; 35; 69].

(** A world whose provider is [scripted_rng], replaying [script5] from
    position [cur]. *)
Definition replaying (st : Z) (e : Env) (rest : list Z) (cur : nat) (fb : Z)
  : World :=
  {| g_v7_state := st;
     g_uuid_rng_ptr := Some (UserRng scripted_rng);
     env := set_rng_ctx {| script := script5 ++ rest; script_len := 10;
                           cursor := cur; fallback := fb |} e |}.

(** The world the scripted harness sets up for [script5]. *)
Definition script5_world : World :=
  rng_load_script (Some script5) 10 16 (fresh_world 1000).

(** The world on entry to the loop turn of [uuid7_gen] whose
    compare-exchange succeeds: each of the [spurious] turns before it has
    sampled the clock and made its draws, and stored nothing. *)
Fixpoint committing_turn (order : byte_order) (spurious : nat) (w : World)
  : World :=
  match spurious with
  | O => w
  | S k =>
      let '(now_ms, w0) := _realtime_ms w in
      committing_turn order k (snd (reserve order now_ms (g_v7_state w0) w0))
  end.

(** The provider a fill made in [w] calls: the installed one, the built-in
    one when none is installed. *)
Definition provider_in_charge (w : World) : rng_code :=
  match g_uuid_rng_ptr w with
  | Some fn => fn
  | None => DefaultRng
  end.


(** ** Further code of the repository *)

(** [extract_ms] of the test harness: bytes 0..5 read big-endian. *)
Definition extract_ms (uuid : list Z) : Z :=
  fold_left (fun ms i => Z.lor (u64 (Z.shiftl ms 8)) (nth i uuid 0))
            (seq 0 6) 0.

(** The rest of [src/unnamed/part_000]: [uuid_v4], the whole of [uuid_v7]
    and [uuid_to_hex].  The file has a register of its own. *)
Module AppUuid.

(** The file's statics: its [g_v7_state] and the [last_id] of [uuid_v7]. *)
Record state : Type := {
  g_v7_state : Z;
  last_id : list Z;
  env : Env
}.

Definition realtime_ms (e : Env) : Z * Env :=
  let ts := clock e (tick e) in
  (u64 (u64 (tv_sec ts) * 1000 + u64 (Z.quot (tv_nsec ts) 1000000)),
   set_tick (S (tick e)) e).

(** [uuid_v4]: [fill_random(out, 16)], then the version and variant
    bits. *)
Definition uuid_v4 (out : list Z) (e : Env) : Z * list Z * Env :=
  let '(st, p, e1) := Variant.fill_random (take 16 out) e in
  let out := p ++ drop 16 out in
  if negb (st =? 0) then (-1, out, e1)
  else
    let out := <[6%nat := u8 (Z.lor (Z.land (nth 6 out 0) 15) 64)]> out in
    let out := <[8%nat := u8 (Z.lor (Z.land (nth 8 out 0) 63) 128)]> out in
    (0, out, e1).

(** [do { now_ms = realtime_ms(); } while(now_ms <= prev_ms);] *)
Fixpoint busy_wait (fuel : nat) (prev_ms : Z) (e : Env) : option Env :=
  match fuel with
  | O => None
  | S fuel' =>
      let '(now_ms, e1) := realtime_ms e in
      if now_ms <=? prev_ms then busy_wait fuel' prev_ms e1 else Some e1
  end.

(** The stores of [uuid_v7] into [out]. *)
Definition store_v7 (use_ms seq12 : Z) (rb out : list Z) : list Z :=
  let out := <[0%nat := u8 (Z.land (Z.shiftr use_ms 40) 255)]> out in
  let out := <[1%nat := u8 (Z.land (Z.shiftr use_ms 32) 255)]> out in
  let out := <[2%nat := u8 (Z.land (Z.shiftr use_ms 24) 255)]> out in
  let out := <[3%nat := u8 (Z.land (Z.shiftr use_ms 16) 255)]> out in
  let out := <[4%nat := u8 (Z.land (Z.shiftr use_ms 8) 255)]> out in
  let out := <[5%nat := u8 (Z.land (Z.shiftr use_ms 0) 255)]> out in
  let out :=
    <[6%nat := u8 (Z.lor 112 (Z.land (Z.shiftr seq12 8) 15))]> out in
  let out := <[7%nat := u8 (Z.land seq12 255)]> out in
  let out := <[8%nat := u8 (Z.lor (Z.land (nth 0 rb 0) 63) 128)]> out in
  let out := <[9%nat := nth 1 rb 0]> out in
  let out := <[10%nat := nth 2 rb 0]> out in
  let out := <[11%nat := nth 3 rb 0]> out in
  let out := <[12%nat := nth 4 rb 0]> out in
  let out := <[13%nat := nth 5 rb 0]> out in
  let out := <[14%nat := nth 6 rb 0]> out in
  <[15%nat := nth 7 rb 0]> out.

(** [uuid_v7], every loop turn and every [goto restart] paid for with one
    unit of [fuel]; [None] is a run that has not returned within the
    fuel.  [spurious] counts the weak compare-exchanges still to fail (one
    thread alone: the register is unchanged between load and store).  The
    result is the status, the caller's buffer and the statics. *)
Fixpoint uuid_v7 (fuel spurious : nat) (out : list Z) (s : state)
  : option (Z * list Z * state) :=
  match fuel with
  | O => None
  | S fuel' =>
      let '(now_ms, e0) := realtime_ms (env s) in
      let prev := g_v7_state s in
      let prev_ms := Z.shiftr prev 12 in
      let use_ms := if now_ms >? prev_ms then now_ms else prev_ms in
      match Variant.uuid_v7_turn now_ms prev with
      | Variant.SpinWait ms =>
          match busy_wait fuel' ms e0 with
          | None => None
          | Some e1 =>
              uuid_v7 fuel' spurious out
                {| g_v7_state := prev; last_id := last_id s; env := e1 |}
          end
      | Variant.TryCas _ next seq12 =>
          match spurious with
          | S k =>
              uuid_v7 fuel' k out
                {| g_v7_state := prev; last_id := last_id s; env := e0 |}
          | O =>
              let '(st, rb, e1) :=
                Variant.fill_random (rb_indeterminate e0) e0 in
              if negb (st =? 0)
              then Some (-1, out,
                         {| g_v7_state := next; last_id := last_id s;
                            env := e1 |})
              else
                let out := store_v7 use_ms seq12 rb out in
                if bool_decide (take 16 (last_id s) = take 16 out)
                then uuid_v7 fuel' O out
                       {| g_v7_state := next;
                          last_id := take 16 out ++ drop 16 (last_id s);
                          env := e1 |}
                else Some (0, out,
                           {| g_v7_state := next; last_id := last_id s;
                              env := e1 |})
          end
      end
  end.

(** [static const char* h]. *)
Section Alphabet.
Import String.
Definition h : string := "0123456789abcdef"%string.
End Alphabet.

(** [h[k]]. *)
Definition h_at (k : Z) : Ascii.ascii :=
  match String.get (Z.to_nat k) h with
  | Some c => c
  | None => Ascii.zero
  end.

(** [uuid_to_hex]: two digits per byte into [out32], then the
    terminator. *)
Definition uuid_to_hex (id : list Z) (out32 : list Ascii.ascii)
  : list Ascii.ascii :=
  let out32 :=
    fold_left
      (fun o i =>
         <[(i * 2 + 1)%nat := h_at (Z.land (nth i id 0) 15)]>
           (<[(i * 2)%nat := h_at (Z.land (Z.shiftr (nth i id 0) 4) 15)]> o))
      (seq 0 16) out32 in
  <[32%nat := Ascii.zero]> out32.

End AppUuid.

(** [app/src/utils/uuid.c]: [uuid_gen], the variant over libsodium.
    [randombytes_buf] is not part of the sources: it is a parameter. *)
Module Sodium.

Section WithSodium.

Variable randombytes_buf : rng_body.

(** What one turn of the loop decides: go round again without storing, or
    try to store [next]. *)
Inductive turn : Type :=
| Again
| TryCas (use_ms next seq12 : Z).

Definition uuid_gen_turn (now_ms prev : Z) : turn :=
  let prev_ms := Z.shiftr prev 12 in
  let prev_seq := u16 (Z.land prev 4095) in
  let use_ms := if now_ms >=? prev_ms then now_ms else prev_ms in
  let next_seq :=
    if use_ms =? prev_ms then u16 (Z.land (prev_seq + 1) 4095) else 0 in
  if (use_ms =? prev_ms) && (next_seq =? 0) then Again
  else TryCas use_ms (Z.lor (u64 (Z.shiftl use_ms 12)) next_seq) next_seq.

(** The loop of [uuid_gen], one unit of [fuel] per turn. *)
Fixpoint uuid_gen_loop (fuel spurious : nat) (w : World)
  : option (Z * Z * World) :=
  match fuel with
  | O => None
  | S fuel' =>
      let '(now_ms, w0) := _realtime_ms w in
      match uuid_gen_turn now_ms (g_v7_state w0) with
      | Again => uuid_gen_loop fuel' spurious w0
      | TryCas use_ms next seq12 =>
          match spurious with
          | S k => uuid_gen_loop fuel' k w0
          | O => Some (use_ms, seq12, set_state next w0)
          end
      end
  end.

(** [uuid_gen]: [None] when the loop has not returned within the fuel. *)
Definition uuid_gen (fuel spurious : nat) (out : option (list Z)) (w : World)
  : option (Z * option (list Z) * World) :=
  match out with
  | None => Some (-1, None, w)
  | Some buf =>
      match uuid_gen_loop fuel spurious w with
      | None => None
      | Some (use_ms, seq12, w1) =>
          let '(rb, e2) :=
            randombytes_buf (rb_indeterminate (env w1))
                            (env w1) in
          Some (0, Some (AppUuid.store_v7 use_ms seq12 rb buf),
                set_env e2 w1)
      end
  end.

End WithSodium.

End Sodium.

(** The statics of [src/unnamed/part_000] with the register at [word],
    [last_id] still zero, and no kernel entropy: [fill_random] falls back
    to its fixed pattern. *)
Definition app_state (word ms : Z) : AppUuid.state :=
  {| AppUuid.g_v7_state := word; AppUuid.last_id := zeros16;
     AppUuid.env := quiet_env ms |}.

(** What [realtime_ms] returns for sample [t] of the clock. *)
Definition clock_ms (e : Env) (t : nat) : Z :=
  let ts := clock e t in
  u64 (u64 (tv_sec ts) * 1000 + u64 (Z.quot (tv_nsec ts) 1000000)).

(** The register at [word] under a clock stuck at [ms]. *)
Definition stuck_world (word ms : Z) : World :=
  {| g_v7_state := word; g_uuid_rng_ptr := None; env := quiet_env ms |}.

(** The bytes a run of kernel answers hands over, in order: an interrupted
    or failed call hands over nothing. *)
Fixpoint delivered (answers : list sys_ret) : list Z :=
  match answers with
  | [] => []
  | RET bs :: rest => bs ++ delivered rest
  | _ :: rest => delivered rest
  end.

(** * Properties *)

(** ** Arithmetic reading of the bit operations *)

Lemma land_shifted_low (a b k : Z) :
  0 <= k -> 0 <= b < 2 ^ k -> Z.land (a * 2 ^ k) b = 0.
Proof.
  intros Hk Hb. apply Z.bits_inj'. intros n Hn.
  rewrite Z.land_spec, Z.bits_0.
  destruct (Z.ltb_spec n k) as [Hlt | Hge].
  - rewrite Z.mul_pow2_bits_low by lia. reflexivity.
  - replace b with (b mod 2 ^ k) by (apply Z.mod_small; lia).
    rewrite Z.mod_pow2_bits_high by lia. apply andb_false_r.
Qed.

Lemma lor_shifted_low (a b k : Z) :
  0 <= k -> 0 <= b < 2 ^ k -> Z.lor (a * 2 ^ k) b = a * 2 ^ k + b.
Proof.
  intros Hk Hb.
  rewrite <- Z.lxor_lor by (apply land_shifted_low; lia).
  symmetry. apply Z.add_nocarry_lxor, land_shifted_low; lia.
Qed.

Lemma mod_pow2_nested (x a b : Z) :
  0 <= a <= b -> (x mod 2 ^ b) mod 2 ^ a = x mod 2 ^ a.
Proof.
  intros H. apply Z.mod_mod_divide.
  exists (2 ^ (b - a)). rewrite <- Z.pow_add_r by lia. f_equal. lia.
Qed.

Lemma land_low_bits (x k : Z) : 0 <= k -> Z.land x (2 ^ k - 1) = x mod 2 ^ k.
Proof.
  intros Hk. rewrite <- Z.land_ones by lia. f_equal.
  rewrite Z.ones_equiv. lia.
Qed.

Lemma V7_SEQ_MASK_eq : V7_SEQ_MASK = 4095.
Proof. reflexivity. Qed.

Lemma V7_PACK_arith (ms seq : Z) :
  V7_PACK ms seq = (ms mod 2 ^ 52) * 4096 + seq mod 4096.
Proof.
  unfold V7_PACK, V7_MS_SHIFT, V7_SEQ_BITS, u64.
  rewrite V7_SEQ_MASK_eq. change 4095 with (2 ^ 12 - 1).
  rewrite land_low_bits, mod_pow2_nested by lia.
  rewrite Z.shiftl_mul_pow2 by lia.
  change (2 ^ 64) with (2 ^ 52 * 2 ^ 12) at 2.
  rewrite Z.mul_mod_distr_r by lia.
  rewrite mod_pow2_nested by lia.
  change 4096 with (2 ^ 12).
  apply lor_shifted_low; [lia | apply Z.mod_pos_bound; lia].
Qed.

Lemma V7_UNPACK_MS_arith (word : Z) :
  V7_UNPACK_MS word = (word mod 2 ^ 64) / 4096.
Proof.
  unfold V7_UNPACK_MS, V7_MS_SHIFT, V7_SEQ_BITS, u64.
  rewrite Z.shiftr_div_pow2 by lia. reflexivity.
Qed.

Lemma V7_UNPACK_SEQ_arith (word : Z) : V7_UNPACK_SEQ word = word mod 4096.
Proof.
  unfold V7_UNPACK_SEQ, u16. rewrite V7_SEQ_MASK_eq.
  change 4095 with (2 ^ 12 - 1). rewrite land_low_bits by lia.
  change (2 ^ 12) with 4096. apply Z.mod_small.
  pose proof (Z.mod_pos_bound word 4096). lia.
Qed.

Lemma V7_PACK_range (ms seq : Z) : 0 <= V7_PACK ms seq < 2 ^ 64.
Proof.
  rewrite V7_PACK_arith.
  pose proof (Z.mod_pos_bound ms (2 ^ 52)).
  pose proof (Z.mod_pos_bound seq 4096). lia.
Qed.

Lemma V7_UNPACK_MS_PACK (ms seq : Z) :
  V7_UNPACK_MS (V7_PACK ms seq) = ms mod 2 ^ 52.
Proof.
  rewrite V7_UNPACK_MS_arith.
  rewrite (Z.mod_small (V7_PACK ms seq)) by apply V7_PACK_range.
  rewrite V7_PACK_arith.
  pose proof (Z.mod_pos_bound seq 4096).
  rewrite Z.div_add_l by lia. rewrite Z.div_small by lia. lia.
Qed.

Lemma V7_UNPACK_SEQ_PACK (ms seq : Z) :
  V7_UNPACK_SEQ (V7_PACK ms seq) = seq mod 4096.
Proof.
  rewrite V7_UNPACK_SEQ_arith, V7_PACK_arith.
  rewrite Z.add_comm, Z.mod_add by lia. apply Z.mod_mod. lia.
Qed.

Lemma nonzero12_range (raw : Z) : 1 <= nonzero12 raw <= 4095.
Proof.
  unfold nonzero12.
  change (u16 V7_SEQ_MASK) with (2 ^ 12 - 1). rewrite land_low_bits by lia.
  pose proof (Z.mod_pos_bound (u16 raw) (2 ^ 12)).
  destruct (Z.eqb_spec (u16 raw mod 2 ^ 12) 0); lia.
Qed.

Lemma nonzero12_spec (raw : Z) :
  nonzero12 raw = if raw mod 4096 =? 0 then 1 else raw mod 4096.
Proof.
  unfold nonzero12, u16.
  change (V7_SEQ_MASK mod 2 ^ 16) with (2 ^ 12 - 1).
  rewrite land_low_bits, mod_pow2_nested by lia. reflexivity.
Qed.

(** ** The candidate of a loop turn *)

Lemma v7_candidate_path (now_ms prev rnd rnd2 : Z) :
  candidate_path now_ms prev rnd rnd2 (v7_candidate now_ms prev rnd rnd2).
Proof.
  unfold v7_candidate.
  assert (Hmax : (if now_ms >=? V7_UNPACK_MS prev then now_ms
                  else V7_UNPACK_MS prev) = Z.max now_ms (V7_UNPACK_MS prev)).
  { destruct (Z.geb_spec now_ms (V7_UNPACK_MS prev)); lia. }
  rewrite Hmax.
  destruct (Z.leb_spec (V7_PACK (Z.max now_ms (V7_UNPACK_MS prev)) rnd) prev).
  - change (u16 V7_SEQ_MASK) with 4095.
    destruct (Z.eqb_spec (V7_UNPACK_SEQ prev) 4095) as [E | NE]; simpl.
    + apply path_overflow; [exact E|].
      rewrite !V7_PACK_arith. unfold u64.
      rewrite mod_pow2_nested by lia. reflexivity.
    + apply path_increment; [exact NE | reflexivity].
  - apply path_fresh; [reflexivity | lia].
Qed.

Lemma v7_candidate_range (now_ms prev rnd rnd2 : Z) :
  0 <= v7_candidate now_ms prev rnd rnd2 < 2 ^ 64.
Proof.
  destruct (v7_candidate_path now_ms prev rnd rnd2) as [E _ | _ E | _ E];
    rewrite E; try apply V7_PACK_range.
  unfold u64. apply Z.mod_pos_bound. lia.
Qed.

(** Unless the register is at its largest value, the candidate exceeds
    it. *)
Lemma v7_candidate_above (now_ms prev rnd rnd2 : Z) :
  0 <= prev < UINT64_MAX -> prev < v7_candidate now_ms prev rnd rnd2.
Proof.
  unfold UINT64_MAX. intros Hp.
  destruct (v7_candidate_path now_ms prev rnd rnd2) as [_ H | _ E | Hs E].
  - exact H.
  - rewrite E. unfold u64. rewrite Z.mod_small; lia.
  - rewrite E, V7_PACK_arith, V7_UNPACK_MS_arith.
    rewrite V7_UNPACK_SEQ_arith in Hs.
    rewrite (Z.mod_small prev) by lia.
    assert (Hq : prev / 4096 + 1 < 2 ^ 52).
    { pose proof (Z.div_mod prev 4096). lia. }
    rewrite (Z.mod_small (prev / 4096 + 1)).
    + pose proof (Z.div_mod prev 4096).
      pose proof (Z.mod_pos_bound rnd2 4096). lia.
    + split; [|exact Hq].
      pose proof (Z.div_pos prev 4096). lia.
Qed.

(** At the largest value the overflow path wraps: the candidate is the
    second draw alone. *)
Lemma v7_candidate_at_max (now_ms rnd rnd2 : Z) :
  v7_candidate now_ms UINT64_MAX rnd rnd2 = rnd2 mod 4096.
Proof.
  destruct (v7_candidate_path now_ms UINT64_MAX rnd rnd2) as [E H | H _ | _ E].
  - pose proof (V7_PACK_range (Z.max now_ms (V7_UNPACK_MS UINT64_MAX)) rnd).
    unfold UINT64_MAX in *. lia.
  - exfalso. apply H. reflexivity.
  - rewrite E, V7_PACK_arith. reflexivity.
Qed.

Lemma v7_candidate_seq (now_ms prev rnd rnd2 : Z) :
  1 <= rnd <= 4095 -> 1 <= rnd2 <= 4095 ->
  1 <= V7_UNPACK_SEQ (v7_candidate now_ms prev rnd rnd2) <= 4095.
Proof.
  intros H1 H2.
  destruct (v7_candidate_path now_ms prev rnd rnd2) as [E _ | Hs E | _ E];
    rewrite E.
  - rewrite V7_UNPACK_SEQ_PACK, Z.mod_small; lia.
  - rewrite V7_UNPACK_SEQ_arith in *. unfold u64.
    replace (((prev + 1) mod 2 ^ 64) mod 4096) with ((prev + 1) mod 4096)
      by (symmetry; apply (mod_pow2_nested (prev + 1) 12 64); lia).
    pose proof (Z.mod_pos_bound prev 4096).
    replace ((prev + 1) mod 4096) with (prev mod 4096 + 1); [lia|].
    apply Z.mod_unique with (q := prev / 4096); [lia|].
    pose proof (Z.div_mod prev 4096). lia.
  - rewrite V7_UNPACK_SEQ_PACK, Z.mod_small; lia.
Qed.

(** A new slot is entered on the fresh and overflow paths only, and there
    the sequence is the draw: the increment path stays in the register's
    slot. *)
Lemma increment_same_slot (prev : Z) :
  V7_UNPACK_SEQ prev <> 4095 ->
  V7_UNPACK_MS (u64 (prev + 1)) = V7_UNPACK_MS prev.
Proof.
  intros Hs. rewrite V7_UNPACK_SEQ_arith in Hs. rewrite !V7_UNPACK_MS_arith.
  unfold u64. rewrite Z.mod_mod by lia.
  assert (Hlow : (prev mod 2 ^ 64) mod 4096 = prev mod 4096)
    by (apply (mod_pow2_nested prev 12 64); lia).
  assert (Hp : 0 <= prev mod 2 ^ 64 < 2 ^ 64) by (apply Z.mod_pos_bound; lia).
  assert (Hne : prev mod 2 ^ 64 <> 2 ^ 64 - 1).
  { intros E. rewrite E in Hlow. apply Hs. rewrite <- Hlow. reflexivity. }
  assert (E1 : (prev + 1) mod 2 ^ 64 = prev mod 2 ^ 64 + 1).
  { symmetry. apply Z.mod_unique with (q := prev / 2 ^ 64); [lia|].
    pose proof (Z.div_mod prev (2 ^ 64)). lia. }
  rewrite E1. revert Hlow Hp. generalize (prev mod 2 ^ 64). intros P Hlow Hp.
  symmetry. apply Z.div_unique with (r := P mod 4096 + 1).
  - pose proof (Z.mod_pos_bound P 4096). lia.
  - pose proof (Z.div_mod P 4096). lia.
Qed.

Lemma v7_candidate_new_slot (now_ms prev rnd rnd2 : Z) :
  V7_UNPACK_MS (v7_candidate now_ms prev rnd rnd2) <> V7_UNPACK_MS prev ->
  V7_UNPACK_SEQ (v7_candidate now_ms prev rnd rnd2) = rnd mod 4096 \/
  V7_UNPACK_SEQ (v7_candidate now_ms prev rnd rnd2) = rnd2 mod 4096.
Proof.
  intros Hms.
  destruct (v7_candidate_path now_ms prev rnd rnd2) as [E _ | Hs E | _ E].
  - left. rewrite E. apply V7_UNPACK_SEQ_PACK.
  - exfalso. apply Hms. rewrite E. apply increment_same_slot, Hs.
  - right. rewrite E. apply V7_UNPACK_SEQ_PACK.
Qed.

(** ** Providers leave the register alone *)

Lemma _fill_random_state (buf : list Z) (w : World) :
  g_v7_state (snd (_fill_random buf w)) = g_v7_state w.
Proof.
  unfold _fill_random.
  destruct (length buf =? 0)%nat; [reflexivity|].
  unfold load_uuid_rng, cas_install_default.
  destruct (g_uuid_rng_ptr w) as [fn|]; simpl.
  - destruct (call_rng fn buf (env w)). reflexivity.
  - destruct (_default_rng buf (env w)). reflexivity.
Qed.

Lemma draw_seq_state (order : byte_order) (w : World) :
  g_v7_state (snd (draw_seq order w)) = g_v7_state w.
Proof.
  unfold draw_seq. pose proof (_fill_random_state [0; 0] w) as H.
  destruct (_fill_random [0; 0] w). exact H.
Qed.

Lemma draw_seq_range (order : byte_order) (w : World) :
  1 <= fst (draw_seq order w) <= 4095.
Proof.
  unfold draw_seq. destruct (_fill_random [0; 0] w). apply nonzero12_range.
Qed.

(** A turn of the sequential loop forms the candidate of [v7_candidate] on
    the draws the provider gave it. *)
Lemma reserve_candidate (order : byte_order) (now_ms prev : Z) (w : World) :
  fst (reserve order now_ms prev w) =
  v7_candidate now_ms prev (fst (draw_seq order w))
    (fst (draw_seq order (snd (draw_seq order w)))).
Proof.
  unfold reserve, v7_candidate.
  destruct (draw_seq order w) as [rnd w1]; simpl.
  destruct (_ <=? prev); [|reflexivity].
  destruct (negb _); [reflexivity|].
  destruct (draw_seq order w1). reflexivity.
Qed.

Lemma reserve_state (order : byte_order) (now_ms prev : Z) (w : World) :
  g_v7_state (snd (reserve order now_ms prev w)) = g_v7_state w.
Proof.
  unfold reserve.
  pose proof (draw_seq_state order w) as H1.
  destruct (draw_seq order w) as [rnd w1]; simpl in *.
  destruct (_ <=? prev); [|exact H1].
  destruct (negb _); [exact H1|].
  pose proof (draw_seq_state order w1) as H2.
  destruct (draw_seq order w1). simpl in *. congruence.
Qed.

Lemma reserve_loop_commits (order : byte_order) (k : nat) (w : World) :
  g_v7_state (snd (reserve_loop order k w)) = fst (reserve_loop order k w).
Proof.
  revert w. induction k as [|k IH]; intros w; simpl.
  - destruct (reserve order _ _ _). reflexivity.
  - destruct (reserve order _ _ _) as [c w1]. apply IH.
Qed.

(** Whatever the number of spurious failures, the committed word is the
    candidate of a turn that loaded the register as the call found it, on
    two draws the provider gave. *)
Lemma reserve_loop_candidate (order : byte_order) (k : nat) (w : World) :
  exists now_ms wa wb,
    fst (reserve_loop order k w) =
    v7_candidate now_ms (g_v7_state w)
      (fst (draw_seq order wa)) (fst (draw_seq order wb)).
Proof.
  revert w. induction k as [|k IH]; intros w; simpl.
  - pose proof (reserve_candidate order (fst (_realtime_ms w))
                  (g_v7_state w) (snd (_realtime_ms w))) as H.
    simpl in H. destruct (reserve order _ _ _) as [c w1]. simpl in *.
    eexists _, _, _. exact H.
  - pose proof (reserve_state order (fst (_realtime_ms w))
                  (g_v7_state w) (snd (_realtime_ms w))) as H.
    simpl in H. destruct (reserve order _ _ _) as [c w1]. simpl in *.
    destruct (IH w1) as (now & wa & wb & E).
    exists now, wa, wb. rewrite <- H. exact E.
Qed.

(** ** The encoder *)

Lemma version_byte (seq12 : Z) :
  u8 (Z.lor (Z.shiftl (Z.land 7 V7_BYTE_MASK) 4)
        (u8 (Z.land (Z.shiftr seq12 V7_SEQ_HIGH_SHIFT) V7_SEQ_HIGH_MASK))) =
  112 + (seq12 / 256) mod 16.
Proof.
  unfold V7_SEQ_HIGH_SHIFT, V7_SEQ_HIGH_MASK, u8.
  change (Z.shiftl (Z.land 7 V7_BYTE_MASK) 4) with (7 * 2 ^ 4).
  change 15 with (2 ^ 4 - 1). rewrite land_low_bits by lia.
  rewrite Z.shiftr_div_pow2 by lia.
  change (2 ^ 8) with 256. change (2 ^ 4) with 16.
  pose proof (Z.mod_pos_bound (seq12 / 256) 16).
  rewrite (Z.mod_small ((seq12 / 256) mod 16)) by lia.
  change 16 with (2 ^ 4) at 1.
  rewrite lor_shifted_low by (change (2 ^ 4) with 16; lia).
  change (7 * 2 ^ 4) with 112. apply Z.mod_small. lia.
Qed.

Lemma seq_low_byte (seq12 : Z) :
  u8 (Z.land (u8 seq12) V7_SEQ_LOW_MASK) = seq12 mod 256.
Proof.
  unfold V7_SEQ_LOW_MASK, u8. change 255 with (2 ^ 8 - 1).
  rewrite land_low_bits by lia. rewrite !Z.mod_mod by lia. reflexivity.
Qed.

Lemma variant_byte (rb0 : Z) :
  u8 (Z.lor (Z.land rb0 V7_RB0_LOW6_MASK) V7_VARIANT_TOP) = 128 + rb0 mod 64.
Proof.
  unfold V7_RB0_LOW6_MASK, V7_VARIANT_TOP, u8.
  change 63 with (2 ^ 6 - 1). rewrite land_low_bits by lia.
  pose proof (Z.mod_pos_bound rb0 (2 ^ 6)).
  rewrite Z.lor_comm. change 128 with (2 * 2 ^ 6).
  rewrite lor_shifted_low by lia.
  change (2 ^ 6) with 64 in *. apply Z.mod_small. lia.
Qed.

Lemma encode_layout (use_ms seq12 : Z) (rb out : list Z) :
  (16 <= length out)%nat ->
  encode use_ms seq12 rb out = layout use_ms seq12 rb ++ drop 16 out.
Proof.
  intros Hlen.
  do 16 (destruct out as [|? out]; [simpl in Hlen; lia|]).
  unfold encode, layout.
  rewrite <- version_byte, <- seq_low_byte, <- variant_byte.
  reflexivity.
Qed.

Lemma emitted_layout (word : Z) (rb out : list Z) :
  (16 <= length out)%nat ->
  Interleaving.emitted word rb out =
  layout (V7_UNPACK_MS word) (V7_UNPACK_SEQ word) rb ++ drop 16 out.
Proof.
  intros H. unfold Interleaving.emitted. rewrite encode_layout by exact H.
  reflexivity.
Qed.

(** [uuid7_gen] on a buffer: run the loop, fill the tail, store the
    fields of the committed word. *)
Lemma uuid7_gen_unfold (order : byte_order) (k : nat) (buf : list Z)
    (w : World) :
  uuid7_gen order k (Some buf) w =
  (0,
   Some (Interleaving.emitted (fst (reserve_loop order k w))
           (fst (_fill_random
                   (rb_indeterminate (env (snd (reserve_loop order k w))))
                   (snd (reserve_loop order k w))))
           buf),
   snd (_fill_random
          (rb_indeterminate (env (snd (reserve_loop order k w))))
          (snd (reserve_loop order k w)))).
Proof.
  unfold uuid7_gen, Interleaving.emitted.
  destruct (reserve_loop order k w) as [c w1]. simpl.
  destruct (_fill_random _ w1). reflexivity.
Qed.

Lemma uuid7_gen_state (order : byte_order) (k : nat) (buf : list Z)
    (w : World) :
  g_v7_state (snd (uuid7_gen order k (Some buf) w)) =
  fst (reserve_loop order k w).
Proof.
  rewrite uuid7_gen_unfold. simpl.
  rewrite _fill_random_state. apply reserve_loop_commits.
Qed.

Lemma ms_bytes_value (m : Z) :
  0 <= m < 2 ^ 52 ->
  (((((V7_MS_BYTE m 0 * 256 + V7_MS_BYTE m 1) * 256 + V7_MS_BYTE m 2) * 256
     + V7_MS_BYTE m 3) * 256 + V7_MS_BYTE m 4) * 256 + V7_MS_BYTE m 5)
  = m mod 2 ^ 48.
Proof.
  intros Hm. unfold V7_MS_BYTE, V7_BYTE_MASK, u8, u64.
  change 255 with (2 ^ 8 - 1). rewrite !land_low_bits by lia.
  rewrite !Z.mod_mod by lia.
  rewrite (Z.mod_small m (2 ^ 64)) by lia.
  rewrite !Z.shiftr_div_pow2 by lia.
  change (8 * (5 - 0)) with 40. change (8 * (5 - 1)) with 32.
  change (8 * (5 - 2)) with 24. change (8 * (5 - 3)) with 16.
  change (8 * (5 - 4)) with 8. change (8 * (5 - 5)) with 0.
  change (2 ^ 0) with 1. rewrite Z.div_1_r.
  change (2 ^ 8) with 256. change (2 ^ 16) with 65536.
  change (2 ^ 24) with 16777216. change (2 ^ 32) with 4294967296.
  change (2 ^ 40) with 1099511627776.
  change (2 ^ 48) with 281474976710656.
  change (2 ^ 52) with 4503599627370496 in Hm.
  Z.div_mod_to_equations. lia.
Qed.

(** The first eight bytes of an identifier, as a number, in terms of the
    committed word. *)
Lemma first8_emitted (word : Z) (rb out : list Z) :
  0 <= word < 2 ^ 64 -> (16 <= length out)%nat ->
  first8 (Interleaving.emitted word rb out) =
  ((word / 4096) mod 2 ^ 48) * 65536 + 28672 + word mod 4096.
Proof.
  intros Hw Hlen. rewrite emitted_layout by exact Hlen.
  unfold first8, layout. cbn [app take fold_left].
  rewrite V7_UNPACK_MS_arith, V7_UNPACK_SEQ_arith.
  rewrite (Z.mod_small word (2 ^ 64)) by lia.
  assert (Hm : 0 <= word / 4096 < 2 ^ 52).
  { split; [apply Z.div_pos; lia | apply Z.div_lt_upper_bound; lia]. }
  pose proof (ms_bytes_value (word / 4096) Hm) as E.
  rewrite Z.mul_0_l, Z.add_0_l. rewrite E.
  assert (Hs : 0 <= word mod 4096 < 4096) by (apply Z.mod_pos_bound; lia).
  revert Hs. generalize (word mod 4096). intros s Hs.
  generalize ((word / 4096) mod 2 ^ 48). intros m.
  Z.div_mod_to_equations. lia.
Qed.

(** ** Commit order under interleaving *)

Lemma climbs_snoc (l : list Z) (x : Z) :
  climbs l ->
  (forall a, last l = Some a -> a <> UINT64_MAX -> a < x) ->
  climbs (l ++ [x]).
Proof.
  induction l as [|a [|b t] IH]; intros Hc Hl.
  - exact I.
  - simpl. split; [|exact I]. apply Hl. reflexivity.
  - destruct Hc as [Hab Hc]. split; [exact Hab|].
    apply IH; [exact Hc|]. intros a' Ha'. apply Hl. exact Ha'.
Qed.

Lemma climbs_drop (l1 l2 : list Z) : climbs (l1 ++ l2) -> climbs l2.
Proof.
  induction l1 as [|a l1 IH]; [auto|].
  intros H. apply IH. simpl in H.
  destruct (l1 ++ l2); [exact I | apply H].
Qed.

Lemma climbs_between (w1 : Z) (l2 : list Z) (w2 : Z) (l3 : list Z) :
  climbs (w1 :: l2 ++ w2 :: l3) ->
  Forall (fun w => w <> UINT64_MAX) (w1 :: l2) ->
  w1 < w2.
Proof.
  revert w1. induction l2 as [|b l2 IH]; intros w1 Hc Hf.
  - destruct Hc as [H _]. apply H. inversion Hf. assumption.
  - destruct Hc as [H Hc]. inversion Hf as [|? ? Hw1 Hf']. subst.
    specialize (IH b Hc Hf'). specialize (H Hw1). lia.
Qed.

Lemma invariant_boot (n : nat) : invariant (Interleaving.boot n).
Proof.
  split; simpl.
  - lia.
  - intros i prev cand H. apply lookup_replicate in H. destruct H. discriminate.
  - left. reflexivity.
  - constructor.
  - exact I.
Qed.

Lemma invariant_step (c c' : Interleaving.config) :
  invariant c -> Interleaving.step c c' -> invariant c'.
Proof.
  intros [Hreg Hheld Hlast Hrange Hclimb] Hstep.
  destruct Hstep as [c i now_ms raw raw2 Hi
                    | c i prev cand Hi Heq
                    | c i prev cand Hi
                    | c i word Hi]; split; simpl; try assumption.
  - intros j p q Hj. apply list_lookup_insert_Some in Hj.
    destruct Hj as [(_ & E & _) | (_ & Hj)]; [|eauto].
    injection E as <- <-. split; [|split].
    + apply v7_candidate_range.
    + apply v7_candidate_seq; apply nonzero12_range.
    + apply v7_candidate_above.
  - apply (Hheld i prev cand Hi).
  - intros j p q Hj. apply list_lookup_insert_Some in Hj.
    destruct Hj as [(_ & E & _) | (_ & Hj)]; [discriminate | eauto].
  - right. apply last_snoc.
  - apply Forall_app. split; [assumption|].
    constructor; [|constructor].
    destruct (Hheld i prev cand Hi) as (H1 & H2 & _). auto.
  - apply climbs_snoc; [assumption|].
    intros a Ha Hne.
    destruct Hlast as [E | E]; [rewrite E in Ha; discriminate|].
    rewrite E in Ha. injection Ha as <-.
    destruct (Hheld i prev cand Hi) as (_ & _ & Habove).
    rewrite Heq. apply Habove. unfold UINT64_MAX in *. lia.
  - intros j p q Hj. apply list_lookup_insert_Some in Hj.
    destruct Hj as [(_ & E & _) | (_ & Hj)]; [discriminate | eauto].
  - intros j p q Hj. apply list_lookup_insert_Some in Hj.
    destruct Hj as [(_ & E & _) | (_ & Hj)]; [discriminate | eauto].
Qed.

Lemma invariant_run (c c' : Interleaving.config) :
  invariant c -> Interleaving.run c c' -> invariant c'.
Proof.
  intros Hc Hrun. induction Hrun as [|c1 c2 c3 _ IH Hstep]; [assumption|].
  apply (invariant_step c2); auto.
Qed.

(** A call of the sequential [uuid7_gen] is a run of one thread: the loads
    and failed compare-exchanges of its spurious turns, then the turn that
    commits. *)
Lemma call_is_run (order : byte_order) (k : nat) (w : World) (l : list Z) :
  Interleaving.run
    {| Interleaving.reg := g_v7_state w;
       Interleaving.threads := [Interleaving.Ready];
       Interleaving.commits := l |}
    {| Interleaving.reg := fst (reserve_loop order k w);
       Interleaving.threads :=
         [Interleaving.Done (fst (reserve_loop order k w))];
       Interleaving.commits := l ++ [fst (reserve_loop order k w)] |}.
Proof.
  destruct (reserve_loop_candidate order k w) as (now_ms & wa & wb & E).
  rewrite E.
  pose proof (draw_seq_range order wa) as H1.
  pose proof (draw_seq_range order wb) as H2.
  revert H1 H2.
  generalize (fst (draw_seq order wa)), (fst (draw_seq order wb)).
  intros rnd rnd2 H1 H2.
  assert (N : forall r, 1 <= r <= 4095 -> nonzero12 r = r).
  { intros r Hr. rewrite nonzero12_spec. rewrite Z.mod_small by lia.
    destruct (Z.eqb_spec r 0); lia. }
  eapply Interleaving.run_step.
  - eapply Interleaving.run_step; [apply Interleaving.run_refl|].
    apply (Interleaving.step_load _ 0%nat now_ms rnd rnd2). reflexivity.
  - simpl. rewrite !N by assumption.
    apply (Interleaving.step_cas_success
             {| Interleaving.reg := g_v7_state w;
                Interleaving.threads :=
                  [Interleaving.Holding (g_v7_state w)
                     (v7_candidate now_ms (g_v7_state w) rnd rnd2)];
                Interleaving.commits := l |} 0%nat (g_v7_state w));
      reflexivity.
Qed.

Lemma two_calls_run : Interleaving.run (Interleaving.boot 1) two_calls.
Proof.
  apply (Interleaving.run_step _ two_calls_4).
  - apply (Interleaving.run_step _ two_calls_3).
    + apply (Interleaving.run_step _ two_calls_2).
      * apply (Interleaving.run_step _ two_calls_1).
        -- apply (Interleaving.run_step _ (Interleaving.boot 1)).
           ++ apply Interleaving.run_refl.
           ++ exact (Interleaving.step_load (Interleaving.boot 1) 0%nat
                       1000 1042 0 eq_refl).
        -- exact (Interleaving.step_cas_success two_calls_1 0%nat 0 4097042
                    eq_refl eq_refl).
      * exact (Interleaving.step_next_call two_calls_2 0%nat 4097042
                 eq_refl).
    + exact (Interleaving.step_load two_calls_3 0%nat 1000 7 0 eq_refl).
  - exact (Interleaving.step_cas_success two_calls_4 0%nat 4097042 4097043
             eq_refl eq_refl).
Qed.

(** ** C1: commit order *)

(** C1, as stated, fails at the end of the register's range: with the
    clock at millisecond [2^52 - 1] and a first draw of [0xFFF] the first
    call commits [2^64 - 1]; the second call takes the overflow path, whose
    [prev_ms + 1] no longer fits 52 bits, and commits a small word.  Both
    calls return 0, the second committed word is below the first, and so
    are the first eight bytes of the second identifier.  The bytes also
    step back, with the words increasing, when the clock passes from
    millisecond [2^48 - 1] to [2^48]: bytes 0..5 hold 48 bits only. *)
Lemma C1_wraps_at_end_of_range :
  let first := uuid7_gen LittleEndian 0 (Some zeros16) end_of_range in
  let second := uuid7_gen LittleEndian 0 (Some zeros16) (snd first) in
  let third := uuid7_gen LittleEndian 0 (Some zeros16)
                 (ticking_world (2 ^ 48 - 1)) in
  let fourth := uuid7_gen LittleEndian 0 (Some zeros16) (snd third) in
  fst (fst first) = 0 /\ fst (fst second) = 0 /\
  g_v7_state (snd first) = UINT64_MAX /\
  g_v7_state (snd second) = 2826 /\
  g_v7_state (snd second) < g_v7_state (snd first) /\
  option_map first8 (snd (fst first)) = Some (2 ^ 64 - 1 - 32768) /\
  option_map first8 (snd (fst second)) = Some 31498 /\
  fst (fst third) = 0 /\ fst (fst fourth) = 0 /\
  g_v7_state (snd third) = V7_PACK (2 ^ 48 - 1) 1 /\
  g_v7_state (snd fourth) = V7_PACK (2 ^ 48) 1 /\
  option_map first8 (snd (fst third)) = Some (2 ^ 64 - 65536 + 28673) /\
  option_map first8 (snd (fst fourth)) = Some 28673.
Proof. vm_compute. repeat split. Qed.

(** C1 (amended): in every interleaving of any number of callers, started
    from the zero register, a committed word is strictly below every word
    committed after it, as long as no word from the earlier one up to the
    later one's predecessor is [2^64 - 1]; and when the later word's
    timestamp fits the 48-bit field of the layout, the first eight bytes
    of the two identifiers, read big-endian, are strictly increasing
    too. *)
Theorem C1_commits_increase (n : nat) (c : Interleaving.config)
    (l1 : list Z) (w1 : Z) (l2 : list Z) (w2 : Z) (l3 : list Z) :
  Interleaving.run (Interleaving.boot n) c ->
  Interleaving.commits c = l1 ++ w1 :: l2 ++ w2 :: l3 ->
  Forall (fun w => w <> UINT64_MAX) (w1 :: l2) ->
  w1 < w2 /\
  (V7_UNPACK_MS w2 < 2 ^ 48 ->
   forall rb1 rb2 out1 out2 : list Z,
     (16 <= length out1)%nat -> (16 <= length out2)%nat ->
     first8 (Interleaving.emitted w1 rb1 out1) <
     first8 (Interleaving.emitted w2 rb2 out2)).
Proof.
  intros Hrun Hc Hf.
  pose proof (invariant_run _ _ (invariant_boot n) Hrun) as [_ _ _ Hr Hcl].
  rewrite Hc in Hr, Hcl.
  assert (Hlt : w1 < w2).
  { apply (climbs_between w1 l2 w2 l3); [|exact Hf].
    apply (climbs_drop l1). exact Hcl. }
  split; [exact Hlt|].
  intros Hms rb1 rb2 out1 out2 Ho1 Ho2.
  apply Forall_app in Hr. destruct Hr as [_ Hr].
  inversion Hr as [|? ? [Hw1 _] Hr']. subst.
  apply Forall_app in Hr'. destruct Hr' as [_ Hr'].
  inversion Hr' as [|? ? [Hw2 _] _]. subst.
  rewrite !first8_emitted by assumption.
  rewrite V7_UNPACK_MS_arith in Hms. rewrite Z.mod_small in Hms by lia.
  assert (H1 : 0 <= w1 / 4096 <= w2 / 4096).
  { split; [apply Z.div_pos; lia | apply Z.div_le_mono; lia]. }
  rewrite (Z.mod_small (w1 / 4096)), (Z.mod_small (w2 / 4096)) by lia.
  pose proof (Z.div_mod w1 4096). pose proof (Z.div_mod w2 4096).
  pose proof (Z.mod_pos_bound w1 4096). pose proof (Z.mod_pos_bound w2 4096).
  lia.
Qed.

Lemma C1_commits_increase_witness :
  4097042 < 4097043 /\
  first8 (Interleaving.emitted 4097042 [] zeros16) <
  first8 (Interleaving.emitted 4097043 [] zeros16).
Proof.
  destruct (C1_commits_increase 1 two_calls [] 4097042 [] 4097043 []
              two_calls_run eq_refl) as [H1 H2].
  - repeat constructor; unfold UINT64_MAX; lia.
  - split; [exact H1|].
    apply H2; [vm_compute; reflexivity | simpl; lia | simpl; lia].
Defined.

(** ** The fields of an emitted identifier *)

Lemma emitted_length (word : Z) (rb out : list Z) :
  (16 <= length out)%nat ->
  length (Interleaving.emitted word rb out) = length out.
Proof.
  intros H. rewrite emitted_layout by exact H.
  rewrite length_app, length_drop. simpl. lia.
Qed.

Lemma emitted_take16 (word : Z) (rb out : list Z) :
  (16 <= length out)%nat ->
  take 16 (Interleaving.emitted word rb out) =
  layout (V7_UNPACK_MS word) (V7_UNPACK_SEQ word) rb.
Proof.
  intros H. rewrite emitted_layout by exact H. reflexivity.
Qed.

Lemma V7_UNPACK_SEQ_range (word : Z) : 0 <= V7_UNPACK_SEQ word <= 4095.
Proof.
  rewrite V7_UNPACK_SEQ_arith. pose proof (Z.mod_pos_bound word 4096). lia.
Qed.

(** The harness' [extract_seq] reads back the sequence of the committed
    word. *)
Lemma extract_seq_emitted (word : Z) (rb out : list Z) :
  (16 <= length out)%nat ->
  extract_seq (Interleaving.emitted word rb out) = V7_UNPACK_SEQ word.
Proof.
  intros H. rewrite emitted_layout by exact H.
  unfold extract_seq, layout. cbn [app nth].
  pose proof (V7_UNPACK_SEQ_range word) as Hs.
  revert Hs. generalize (V7_UNPACK_SEQ word). intros s Hs.
  change 15 with (2 ^ 4 - 1). rewrite land_low_bits by lia.
  assert (Hq : 0 <= s / 256 < 16).
  { split; [apply Z.div_pos; lia | apply Z.div_lt_upper_bound; lia]. }
  rewrite (Z.mod_small (s / 256) 16) by lia.
  replace ((112 + s / 256) mod 2 ^ 4) with (s / 256)
    by (apply Z.mod_unique with (q := 7); lia).
  unfold u16. rewrite (Z.mod_small (s / 256)) by lia.
  rewrite Z.shiftl_mul_pow2 by lia.
  pose proof (Z.mod_pos_bound s 256).
  rewrite lor_shifted_low by lia.
  pose proof (Z.div_mod s 256). rewrite Z.mod_small; lia.
Qed.

(** ** C10: the sequence field is never zero *)

(** C10: whichever of the three paths forms it (the fresh draw, the
    increment of a sequence other than 4095, the overflow path's second
    draw), the candidate's low 12 bits lie in [1, 4095]; so does every
    word committed in any interleaving of concurrent callers; and every
    call of [uuid7_gen] on a buffer returns 0, commits a word whose
    sequence lies in [1, 4095] and writes an identifier whose sequence
    field is that sequence. *)
Theorem C10_sequence_never_zero (order : byte_order) (k : nat)
    (buf : list Z) (w : World) (now_ms prev raw raw2 : Z) (n : nat)
    (c : Interleaving.config) :
  (16 <= length buf)%nat ->
  Interleaving.run (Interleaving.boot n) c ->
  1 <= V7_UNPACK_SEQ
         (v7_candidate now_ms prev (nonzero12 raw) (nonzero12 raw2)) <= 4095
  /\ Forall (fun word => 1 <= V7_UNPACK_SEQ word <= 4095)
            (Interleaving.commits c)
  /\ fst (fst (uuid7_gen order k (Some buf) w)) = 0
  /\ 1 <= V7_UNPACK_SEQ (g_v7_state (snd (uuid7_gen order k (Some buf) w)))
       <= 4095
  /\ exists out,
       snd (fst (uuid7_gen order k (Some buf) w)) = Some out /\
       extract_seq out =
       V7_UNPACK_SEQ (g_v7_state (snd (uuid7_gen order k (Some buf) w))).
Proof.
  intros Hlen Hrun. split.
  { apply v7_candidate_seq; apply nonzero12_range. }
  split.
  { pose proof (invariant_run _ _ (invariant_boot n) Hrun) as [_ _ _ Hr _].
    eapply Forall_impl; [exact Hr|]. intros word [_ H]. exact H. }
  rewrite uuid7_gen_state. rewrite uuid7_gen_unfold. simpl.
  split; [reflexivity|]. split.
  - destruct (reserve_loop_candidate order k w) as (now & wa & wb & E).
    rewrite E. apply v7_candidate_seq; apply draw_seq_range.
  - eexists. split; [reflexivity|].
    apply extract_seq_emitted. exact Hlen.
Qed.

Lemma C10_sequence_never_zero_witness :
  Forall (fun word => 1 <= V7_UNPACK_SEQ word <= 4095) [4097042; 4097043] /\
  exists out,
    snd (fst (uuid7_gen LittleEndian 0 (Some zeros16) (fresh_world 1000))) =
    Some out /\
    extract_seq out = 1.
Proof.
  destruct (C10_sequence_never_zero LittleEndian 0 zeros16 (fresh_world 1000)
              1000 0 0 0 1 two_calls) as (_ & Hc & _ & _ & out & Ho & Hs).
  - simpl. lia.
  - exact two_calls_run.
  - split; [exact Hc|].
    exists out. split; [exact Ho|]. rewrite Hs. vm_compute. reflexivity.
Defined.

(** ** C4: the sequence on entering a new slot *)

Lemma draw_seq_fst (order : byte_order) (w : World) :
  fst (draw_seq order w) =
  nonzero12 (load_u16 order (fst (_fill_random [0; 0] w))).
Proof. unfold draw_seq. destruct (_fill_random [0; 0] w). reflexivity. Qed.

Lemma reserve_loop_committing_turn (order : byte_order) (k : nat)
    (w : World) :
  reserve_loop order k w = reserve_loop order 0 (committing_turn order k w).
Proof.
  revert w. induction k as [|k IH]; intros w; [reflexivity|].
  cbn [reserve_loop committing_turn].
  destruct (_realtime_ms w) as [now_ms w0].
  rewrite (surjective_pairing (reserve order now_ms (g_v7_state w0) w0)).
  apply IH.
Qed.

Lemma committing_turn_state (order : byte_order) (k : nat) (w : World) :
  g_v7_state (committing_turn order k w) = g_v7_state w.
Proof.
  revert w. induction k as [|k IH]; intros w; [reflexivity|].
  cbn [committing_turn].
  rewrite (surjective_pairing (_realtime_ms w)).
  rewrite IH, reserve_state. reflexivity.
Qed.

Lemma _fill_random_provider (buf : list Z) (w : World) :
  buf <> [] ->
  fst (_fill_random buf w)
  = fst (call_rng (provider_in_charge w) buf (env w)).
Proof.
  intros Hne. destruct buf as [|b buf]; [congruence|].
  unfold _fill_random, provider_in_charge, load_uuid_rng, cas_install_default.
  cbn [length Nat.eqb].
  destruct w as [st [fn|] e]; cbn [g_uuid_rng_ptr env store_uuid_rng].
  - destruct (call_rng fn (b :: buf) e). reflexivity.
  - cbn [call_rng]. destruct (_default_rng (b :: buf) e). reflexivity.
Qed.

Lemma draw_seq_provider (order : byte_order) (w : World) :
  let raw :=
    load_u16 order
      (fst (call_rng (provider_in_charge w) [0; 0] (env w))) in
  fst (draw_seq order w) = (if raw mod 4096 =? 0 then 1 else raw mod 4096) /\
  snd (draw_seq order w) = snd (_fill_random [0; 0] w).
Proof.
  cbn zeta. split.
  - rewrite draw_seq_fst, nonzero12_spec, _fill_random_provider
      by discriminate. reflexivity.
  - unfold draw_seq. destruct (_fill_random [0; 0] w). reflexivity.
Qed.

(** C4: when a call of [uuid7_gen] commits a timestamp other than the one
    the register held, the sequence field of the identifier it writes is a
    draw from the provider in charge, made in the turn whose
    compare-exchange succeeds: the two bytes that provider writes into the
    zeroed [uint16_t] are masked to 12 bits and zero is remapped to one.
    It is the turn's first draw when the fresh candidate is above the
    register and the second draw (the overflow path) otherwise; it is the
    sequence the register ends with, and it is not zero. *)
Theorem C4_new_slot_sequence_is_a_draw (order : byte_order) (k : nat)
    (buf : list Z) (w : World) :
  let r := uuid7_gen order k (Some buf) w in
  let turn := committing_turn order k w in
  let now_ms := fst (_realtime_ms turn) in
  let w0 := snd (_realtime_ms turn) in
  let w1 := snd (_fill_random [0; 0] w0) in
  let raw := fun wd =>
    load_u16 order
      (fst (call_rng (provider_in_charge wd) [0; 0] (env wd))) in
  let remap := fun x => if x mod 4096 =? 0 then 1 else x mod 4096 in
  let prev := g_v7_state w in
  let use_ms :=
    if now_ms >=? V7_UNPACK_MS prev then now_ms else V7_UNPACK_MS prev in
  (16 <= length buf)%nat ->
  V7_UNPACK_MS (g_v7_state (snd r)) <> V7_UNPACK_MS prev ->
  exists out,
    snd (fst r) = Some out /\
    extract_seq out
    = (if V7_PACK use_ms (remap (raw w0)) <=? prev
       then remap (raw w1) else remap (raw w0)) /\
    V7_UNPACK_SEQ (g_v7_state (snd r)) = extract_seq out /\
    extract_seq out <> 0.
Proof.
  intros r turn now_ms w0 w1 raw remap prev use_ms Hlen. unfold r.
  rewrite uuid7_gen_state, uuid7_gen_unfold. cbn [fst snd].
  rewrite reserve_loop_committing_turn. fold turn.
  assert (E : fst (reserve_loop order 0 turn)
              = v7_candidate now_ms prev (remap (raw w0)) (remap (raw w1))).
  { unfold reserve_loop.
    rewrite (surjective_pairing (_realtime_ms turn)). fold now_ms w0.
    assert (Hst : g_v7_state w0 = prev)
      by (unfold w0, prev; rewrite <- (committing_turn_state order k w);
          reflexivity).
    rewrite Hst.
    rewrite (surjective_pairing (reserve order now_ms prev w0)).
    cbn [fst]. rewrite reserve_candidate.
    destruct (draw_seq_provider order w0) as [D0 S0]. cbn zeta in D0.
    rewrite S0. fold w1.
    destruct (draw_seq_provider order w1) as [D1 _]. cbn zeta in D1.
    rewrite D0, D1. reflexivity. }
  rewrite E. clear E. intros Hms.
  assert (R0 : 1 <= remap (raw w0) <= 4095).
  { unfold remap. rewrite <- nonzero12_spec. apply nonzero12_range. }
  assert (R1 : 1 <= remap (raw w1) <= 4095).
  { unfold remap. rewrite <- nonzero12_spec. apply nonzero12_range. }
  eexists. split; [reflexivity|].
  rewrite extract_seq_emitted by exact Hlen.
  pose proof (v7_candidate_seq now_ms prev _ _ R0 R1) as Rs.
  split; [|split; [reflexivity | lia]].
  revert Hms. unfold v7_candidate. fold use_ms.
  change (u16 V7_SEQ_MASK) with 4095.
  destruct (V7_PACK use_ms (remap (raw w0)) <=? prev).
  - destruct (Z.eqb_spec (V7_UNPACK_SEQ prev) 4095) as [Hw | Hn];
      cbn [negb]; intros Hms.
    + rewrite V7_UNPACK_SEQ_PACK. apply Z.mod_small. lia.
    + rewrite increment_same_slot in Hms by exact Hn. contradiction.
  - intros _. rewrite V7_UNPACK_SEQ_PACK. apply Z.mod_small. lia.
Qed.

Lemma C4_new_slot_sequence_is_a_draw_witness :
  exists out,
    snd (fst (uuid7_gen LittleEndian 1 (Some zeros16) script5_world))
    = Some out /\
    extract_seq out = 3242.
Proof.
  destruct (C4_new_slot_sequence_is_a_draw LittleEndian 1 zeros16
              script5_world ltac:(cbn; lia)
              ltac:(vm_compute; discriminate))
    as (out & Ho & Hs & _).
  exists out. split; [exact Ho | exact Hs].
Defined.

(** ** C6: version, variant and layout *)

Lemma V7_UNPACK_MS_range (word : Z) : 0 <= V7_UNPACK_MS word < 2 ^ 52.
Proof.
  rewrite V7_UNPACK_MS_arith.
  pose proof (Z.mod_pos_bound word (2 ^ 64)).
  split; [apply Z.div_pos; lia | apply Z.div_lt_upper_bound; lia].
Qed.

Lemma V7_MS_BYTE_bits (ms n : Z) :
  0 <= ms < 2 ^ 64 ->
  V7_MS_BYTE ms n = Z.land (Z.shiftr ms (8 * (5 - n))) 255.
Proof.
  intros H. unfold V7_MS_BYTE, V7_BYTE_MASK, u8, u64.
  rewrite (Z.mod_small ms) by lia.
  change 255 with (2 ^ 8 - 1). rewrite land_low_bits by lia.
  apply Z.mod_mod. lia.
Qed.

(** Version nibble and variant bits of any emitted identifier. *)
Lemma emitted_fixed_fields (word : Z) (rb out : list Z) :
  (16 <= length out)%nat ->
  Z.shiftr (nth 6 (Interleaving.emitted word rb out) 0) 4 = 7 /\
  Z.shiftr (nth 8 (Interleaving.emitted word rb out) 0) 6 = 2.
Proof.
  intros Hlen. rewrite emitted_layout by exact Hlen.
  unfold layout. cbn [app nth].
  generalize (V7_UNPACK_SEQ word). intros s.
  assert (Hq : 0 <= (s / 256) mod 16 < 16) by (apply Z.mod_pos_bound; lia).
  assert (Hr : 0 <= nth 0 rb 0 mod 64 < 64) by (apply Z.mod_pos_bound; lia).
  rewrite !Z.shiftr_div_pow2 by lia. split.
  - symmetry. apply Z.div_unique with (r := (s / 256) mod 16); lia.
  - symmetry. apply Z.div_unique with (r := nth 0 rb 0 mod 64); lia.
Qed.

(** C6: for every identifier [uuid7_gen] writes, byte 6 has [0111] in its
    top nibble and bits 11..8 of the committed sequence below it, byte 8
    has [10] in its top two bits and the low six bits of the first tail
    byte below them, bytes 0..5 are the timestamp's low 48 bits, most
    significant first, byte 7 is the sequence's low byte, bytes 9..15 are
    tail bytes 1..7 as the provider left them, and nothing past byte 15 is
    touched. *)
Theorem C6_version_variant_layout (order : byte_order) (k : nat)
    (buf : list Z) (w : World) :
  (16 <= length buf)%nat ->
  let result := uuid7_gen order k (Some buf) w in
  let word := g_v7_state (snd result) in
  let w1 := snd (reserve_loop order k w) in
  let rb := fst (_fill_random (rb_indeterminate (env w1)) w1) in
  fst (fst result) = 0 /\
  exists out,
    snd (fst result) = Some out /\
    Z.shiftr (nth 6 out 0) 4 = 7 /\
    Z.land (nth 6 out 0) 15 = Z.land (Z.shiftr (V7_UNPACK_SEQ word) 8) 15 /\
    Z.shiftr (nth 8 out 0) 6 = 2 /\
    Z.land (nth 8 out 0) 63 = Z.land (nth 0 rb 0) 63 /\
    (forall i, (i < 6)%nat ->
       nth i out 0 =
       Z.land (Z.shiftr (V7_UNPACK_MS word) (8 * (5 - Z.of_nat i))) 255) /\
    nth 7 out 0 = Z.land (V7_UNPACK_SEQ word) 255 /\
    (forall i, (i < 7)%nat -> nth (9 + i) out 0 = nth (1 + i) rb 0) /\
    drop 16 out = drop 16 buf.
Proof.
  intros Hlen. cbv zeta. rewrite uuid7_gen_state, uuid7_gen_unfold. simpl.
  split; [reflexivity|]. eexists. split; [reflexivity|].
  rewrite emitted_layout by exact Hlen.
  pose proof (V7_UNPACK_SEQ_range (fst (reserve_loop order k w))) as Hs.
  pose proof (V7_UNPACK_MS_range (fst (reserve_loop order k w))) as Hm.
  revert Hs Hm.
  generalize (V7_UNPACK_SEQ (fst (reserve_loop order k w))).
  generalize (V7_UNPACK_MS (fst (reserve_loop order k w))).
  intros ms s Hs Hm.
  generalize (fst (_fill_random
                     (rb_indeterminate (env (snd (reserve_loop order k w))))
                     (snd (reserve_loop order k w)))).
  intros rb. unfold layout.
  assert (Hq : 0 <= (s / 256) mod 16 < 16) by (apply Z.mod_pos_bound; lia).
  assert (Hr : 0 <= nth 0 rb 0 mod 64 < 64) by (apply Z.mod_pos_bound; lia).
  repeat split.
  - cbn [app nth]. rewrite Z.shiftr_div_pow2 by lia.
    symmetry. apply Z.div_unique with (r := (s / 256) mod 16); lia.
  - cbn [app nth]. change 15 with (2 ^ 4 - 1). rewrite !land_low_bits by lia.
    rewrite Z.shiftr_div_pow2 by lia.
    change (2 ^ 8) with 256. change (2 ^ 4) with 16.
    symmetry. apply Z.mod_unique with (q := 7); lia.
  - cbn [app nth]. rewrite Z.shiftr_div_pow2 by lia.
    symmetry. apply Z.div_unique with (r := nth 0 rb 0 mod 64); lia.
  - cbn [app nth]. change 63 with (2 ^ 6 - 1). rewrite !land_low_bits by lia.
    change (2 ^ 6) with 64.
    symmetry. apply Z.mod_unique with (q := 2); lia.
  - intros i Hi.
    do 6 (destruct i as [|i];
          [cbn [app nth]; apply V7_MS_BYTE_bits; lia|]).
    lia.
  - cbn [app nth]. change 255 with (2 ^ 8 - 1).
    rewrite land_low_bits by lia. reflexivity.
  - intros i Hi.
    do 7 (destruct i as [|i]; [reflexivity|]). lia.
Qed.

Lemma C6_version_variant_layout_witness :
  exists out,
    snd (fst (uuid7_gen LittleEndian 0 (Some zeros16) (fresh_world 1000))) =
    Some out /\
    Z.shiftr (nth 6 out 0) 4 = 7 /\ Z.shiftr (nth 8 out 0) 6 = 2.
Proof.
  destruct (C6_version_variant_layout LittleEndian 0 zeros16
              (fresh_world 1000))
    as (_ & out & Ho & H6 & _ & H8 & _).
  - simpl. lia.
  - exists out. auto.
Defined.

(** ** Sequences of calls *)

Lemma gen_calls_app (order : byte_order)
    (before after : list (nat * option (list Z))) (w : World) :
  gen_calls order (before ++ after) w =
  (fst (gen_calls order before w) ++
   fst (gen_calls order after (snd (gen_calls order before w))),
   snd (gen_calls order after (snd (gen_calls order before w)))).
Proof.
  revert w. induction before as [|[k out] before IH]; intros w; simpl.
  - destruct (gen_calls order after w). reflexivity.
  - destruct (uuid7_gen order k out w) as [[st o] w1].
    rewrite IH. destruct (gen_calls order before w1). reflexivity.
Qed.

(** ** C7: a [NULL] buffer *)

(** C7: whatever the register, the provider pointer and the environment,
    [uuid7_gen(NULL)] returns -1 and leaves the whole state as it was; so
    in any sequence of calls the [NULL] call contributes its -1 and
    nothing else: the other calls return what they return without it, and
    the final state is the same. *)
Theorem C7_null_buffer_rejected (order : byte_order) (k : nat) (w : World)
    (before after : list (nat * option (list Z))) :
  uuid7_gen order k None w = (-1, None, w) /\
  gen_calls order (before ++ (k, None) :: after) w =
  (fst (gen_calls order before w) ++
   (-1, None) ::
   fst (gen_calls order after (snd (gen_calls order before w))),
   snd (gen_calls order (before ++ after) w)).
Proof.
  split; [reflexivity|].
  rewrite !gen_calls_app. simpl.
  destruct (gen_calls order after (snd (gen_calls order before w))).
  reflexivity.
Qed.

(** ** C8: initialisation *)

(** C8: [uuid7_init] returns 0 and is idempotent; with a [NULL] argument
    it leaves the state untouched when a provider is configured and
    installs the default (changing nothing else) when none is. *)
Theorem C8_init_does_not_clobber (fn : uuid_rng_fn_t) (w : World) :
  fst (uuid7_init fn w) = 0 /\
  uuid7_init fn (snd (uuid7_init fn w)) = uuid7_init fn w /\
  match g_uuid_rng_ptr w with
  | Some p => snd (uuid7_init None w) = w
  | None =>
      snd (uuid7_init None w) = store_uuid_rng (Some DefaultRng) w
  end.
Proof.
  destruct w as [st ptr e]. destruct fn as [f|]; simpl.
  - repeat split. destruct ptr; reflexivity.
  - unfold cas_install_default. simpl. destruct ptr; simpl; auto.
Qed.

(** The harness' scenario: a scripted provider is installed, then
    [uuid7_init(NULL)] runs; byte 9 of the next identifier is still the
    script's fourth byte. *)
Example init_null_leaves_existing_rng :
  let w := rng_load_script (Some [34; 68; 102; 136; 170; 204; 238; 255]) 8
             112 (fresh_world 1000) in
  let w' := snd (uuid7_init None w) in
  option_map (fun out => nth 9 out 0)
    (snd (fst (uuid7_gen LittleEndian 0 (Some zeros16) w'))) = Some 136.
Proof. vm_compute. reflexivity. Qed.

(** ** C9: configuring the provider *)

Lemma _fill_random_default (buf : list Z) (w : World) :
  g_uuid_rng_ptr w = Some DefaultRng ->
  _fill_random buf w =
  (fst (_default_rng buf (env w)), set_env (snd (_default_rng buf (env w))) w).
Proof.
  intros H. unfold _fill_random, load_uuid_rng. rewrite H.
  destruct (Nat.eqb_spec (length buf) 0) as [E | NE].
  - unfold _default_rng. rewrite E. simpl. destruct w. reflexivity.
  - simpl. destruct (_default_rng buf (env w)). reflexivity.
Qed.

Lemma _fill_random_ptr (buf : list Z) (w : World) (p : rng_code) :
  g_uuid_rng_ptr w = Some p ->
  g_uuid_rng_ptr (snd (_fill_random buf w)) = Some p.
Proof.
  intros H. unfold _fill_random, load_uuid_rng. rewrite H.
  destruct (length buf =? 0)%nat; [exact H|].
  destruct (call_rng p buf (env w)). exact H.
Qed.

Lemma reserve_loop_ptr (order : byte_order) (k : nat) (w : World)
    (p : rng_code) :
  g_uuid_rng_ptr w = Some p ->
  g_uuid_rng_ptr (snd (reserve_loop order k w)) = Some p.
Proof.
  assert (D : forall w0, g_uuid_rng_ptr w0 = Some p ->
                         g_uuid_rng_ptr (snd (draw_seq order w0)) = Some p).
  { intros w0 H0. unfold draw_seq.
    pose proof (_fill_random_ptr [0; 0] w0 p H0) as H1.
    destruct (_fill_random [0; 0] w0). exact H1. }
  assert (R : forall now prev w0, g_uuid_rng_ptr w0 = Some p ->
                g_uuid_rng_ptr (snd (reserve order now prev w0)) = Some p).
  { intros now prev w0 H0. unfold reserve.
    pose proof (D w0 H0) as H1.
    destruct (draw_seq order w0) as [rnd w1]. simpl in *.
    destruct (_ <=? prev); [|exact H1].
    destruct (negb _); [exact H1|].
    pose proof (D w1 H1) as H2.
    destruct (draw_seq order w1). exact H2. }
  revert w. induction k as [|k IH]; intros w H; simpl.
  - pose proof (R (fst (_realtime_ms w)) (g_v7_state w)
                  (snd (_realtime_ms w)) H) as H1.
    simpl in H1. destruct (reserve order _ _ _). exact H1.
  - pose proof (R (fst (_realtime_ms w)) (g_v7_state w)
                  (snd (_realtime_ms w)) H) as H1.
    simpl in H1. destruct (reserve order _ _ _) as [c w1]. apply IH, H1.
Qed.

(** A configured provider stays configured across [uuid7_gen]. *)
Lemma uuid7_gen_ptr (order : byte_order) (k : nat) (out : option (list Z))
    (w : World) (p : rng_code) :
  g_uuid_rng_ptr w = Some p ->
  g_uuid_rng_ptr (snd (uuid7_gen order k out w)) = Some p.
Proof.
  intros H. destruct out as [buf|]; [|exact H].
  rewrite uuid7_gen_unfold. simpl.
  apply _fill_random_ptr, reserve_loop_ptr, H.
Qed.

Lemma gen_calls_ptr (order : byte_order)
    (calls : list (nat * option (list Z))) (w : World) (p : rng_code) :
  g_uuid_rng_ptr w = Some p ->
  g_uuid_rng_ptr (snd (gen_calls order calls w)) = Some p.
Proof.
  revert w. induction calls as [|[k out] calls IH]; intros w H; simpl.
  - exact H.
  - pose proof (uuid7_gen_ptr order k out w p H) as H1.
    destruct (uuid7_gen order k out w) as [[st o] w1].
    specialize (IH w1 H1). destruct (gen_calls order calls w1). exact IH.
Qed.

Lemma gen_calls_fixed_fields (order : byte_order)
    (calls : list (nat * option (list Z))) (w : World) :
  Forall (fun call => match snd call with
                      | Some buf => (16 <= length buf)%nat
                      | None => True
                      end) calls ->
  Forall2 fixed_fields calls (fst (gen_calls order calls w)).
Proof.
  intros Hall. revert w.
  induction Hall as [|[k out] calls Hc _ IH]; intros w; simpl.
  - constructor.
  - specialize (IH (snd (uuid7_gen order k out w))).
    destruct out as [buf|].
    + rewrite uuid7_gen_unfold in *. simpl in *.
      destruct (gen_calls order calls _). simpl in *.
      constructor; [|exact IH].
      split; [reflexivity|]. eexists. split; [reflexivity|].
      apply emitted_fixed_fields, Hc.
    + simpl in *. destruct (gen_calls order calls w). simpl in *.
      constructor; [reflexivity | exact IH].
Qed.

(** C9: [uuid7_set_rng] returns 0 for every argument and stores the given
    provider, the built-in default for [NULL]; after a reset, in every
    sequence of [uuid7_gen] calls that follows, each call on a buffer
    returns 0 with version nibble [0111] and variant bits [10], the
    pointer still designates the default provider, and the next provider
    call is a call of [_default_rng]. *)
Theorem C9_set_rng_total_and_reset (fn : uuid_rng_fn_t) (w : World)
    (order : byte_order) (calls : list (nat * option (list Z)))
    (b : list Z) :
  Forall (fun call => match snd call with
                      | Some buf => (16 <= length buf)%nat
                      | None => True
                      end) calls ->
  let reset := snd (uuid7_set_rng None w) in
  let after := snd (gen_calls order calls reset) in
  uuid7_set_rng fn w = (0, store_uuid_rng (Some (default DefaultRng fn)) w) /\
  Forall2 fixed_fields calls (fst (gen_calls order calls reset)) /\
  g_uuid_rng_ptr after = Some DefaultRng /\
  _fill_random b after =
  (fst (_default_rng b (env after)),
   set_env (snd (_default_rng b (env after))) after).
Proof.
  intros Hall. cbv zeta.
  assert (Hp : g_uuid_rng_ptr
                 (snd (gen_calls order calls (snd (uuid7_set_rng None w)))) =
               Some DefaultRng).
  { apply gen_calls_ptr. reflexivity. }
  split; [destruct fn; reflexivity|].
  split; [apply gen_calls_fixed_fields, Hall|].
  split; [exact Hp|].
  apply _fill_random_default, Hp.
Qed.

Lemma C9_set_rng_total_and_reset_witness :
  Forall2 fixed_fields
    [(0%nat, Some zeros16); (1%nat, None); (2%nat, Some zeros16)]
    (fst (gen_calls LittleEndian
            [(0%nat, Some zeros16); (1%nat, None); (2%nat, Some zeros16)]
            (snd (uuid7_set_rng None end_of_range)))).
Proof.
  destruct (C9_set_rng_total_and_reset None end_of_range LittleEndian
              [(0%nat, Some zeros16); (1%nat, None); (2%nat, Some zeros16)]
              []) as (_ & H & _).
  - repeat constructor; simpl; lia.
  - exact H.
Defined.

(** ** C5: the scripted provider *)

Lemma rng_load_script_replaying (fb : Z) (w : World) :
  rng_load_script (Some script5) 10 fb w =
  replaying (g_v7_state w) (env w)
    (drop 10 (script (g_rng_ctx (env w)))) 0 (u8 fb).
Proof. destruct w as [st ptr e]. destruct e. reflexivity. Qed.

Lemma replaying_draw (order : byte_order) (st : Z) (e : Env)
    (rest : list Z) (fb : Z) (cur : nat) :
  (cur + 2 <= 10)%nat ->
  draw_seq order (replaying st e rest cur fb) =
  (nonzero12 (load_u16 order (take 2 (drop cur script5))),
   replaying st e rest (cur + 2) fb).
Proof.
  intros H. destruct e.
  do 9 (destruct cur as [|cur]; [reflexivity|]). lia.
Qed.

Lemma replaying_tail (st : Z) (e : Env) (rest : list Z) (fb : Z) :
  _fill_random (rb_indeterminate (env (replaying st e rest 2 fb)))
    (replaying st e rest 2 fb) =
  (drop 2 script5, replaying st e rest 10 fb).
Proof. destruct e. reflexivity. Qed.

Lemma replaying_tail_late (st : Z) (e : Env) (rest : list Z) (fb : Z) :
  _fill_random (rb_indeterminate (env (replaying st e rest 4 fb)))
    (replaying st e rest 4 fb) =
  (drop 4 script5 ++ [fb; u8 (fb + 1)],
   replaying st e rest 10 (u8 (u8 (fb + 1) + 1))).
Proof. destruct e. reflexivity. Qed.

Lemma _realtime_ms_replaying (st : Z) (e : Env) (rest : list Z) (cur : nat)
    (fb : Z) :
  snd (_realtime_ms (replaying st e rest cur fb)) =
  replaying st (set_tick (S (tick e)) e) rest cur fb.
Proof. destruct e. reflexivity. Qed.

(** C5, as stated, fails when the register already holds sequence 4095 in
    the clock's millisecond: a first call whose scripted draw is [0xFFF]
    leaves it so; the call under test then takes the overflow path, whose
    second draw eats script bytes 2 and 3, and byte 8 comes from script
    byte 4. *)
Lemma C5_overflow_shifts_the_tail :
  let w1 := snd (uuid7_gen LittleEndian 0 (Some zeros16)
                   (rng_load_script (Some [255; 255]) 2 0
                      (fresh_world 1000))) in
  let r := uuid7_gen LittleEndian 0 (Some zeros16)
             (rng_load_script (Some script5) 10 16 w1) in
  g_v7_state w1 = V7_PACK 1000 4095 /\
  fst (fst r) = 0 /\
  exists out, snd (fst r) = Some out /\
              nth 8 out 0 <> Z.lor (Z.land (nth 2 script5 0) 63) 128 /\
              take 7 (drop 9 out) <> drop 3 script5.
Proof.
  vm_compute. repeat split.
  eexists. repeat split; discriminate.
Qed.

(** C5 (amended): a call of [uuid7_gen] whose first compare-exchange
    succeeds, made right after [script5] is loaded, writes
    [(script[2] & 0x3F) | 0x80] to byte 8 and [script[3..10]] to bytes
    9..15 unless it takes the overflow path (the register's sequence is
    4095 and the fresh candidate is not above the register); on that path
    the second draw consumes two more script bytes, byte 8 is
    [(script[4] & 0x3F) | 0x80] and bytes 9..15 are [script[5..10]]
    followed by the provider's first two fallback bytes. *)
Theorem C5_scripted_tail (order : byte_order) (buf : list Z) (w : World)
    (fb : Z) :
  (16 <= length buf)%nat ->
  let loaded := rng_load_script (Some script5) 10 fb w in
  let now_ms := fst (_realtime_ms loaded) in
  let prev := g_v7_state w in
  let rnd := nonzero12 (load_u16 order (take 2 script5)) in
  let use_ms :=
    if now_ms >=? V7_UNPACK_MS prev then now_ms else V7_UNPACK_MS prev in
  let overflow :=
    (V7_PACK use_ms rnd <=? prev) && (V7_UNPACK_SEQ prev =? 4095) in
  exists out,
    snd (fst (uuid7_gen order 0 (Some buf) loaded)) = Some out /\
    nth 8 out 0 =
    Z.lor (Z.land (nth (if overflow then 4 else 2)%nat script5 0) 63) 128 /\
    take 7 (drop 9 out) =
    (if overflow then drop 5 script5 ++ [u8 fb; u8 (u8 fb + 1)]
     else drop 3 script5).
Proof.
  intros Hlen. cbv zeta.
  rewrite rng_load_script_replaying.
  set (rest := drop 10 (script (g_rng_ctx (env w)))).
  rewrite uuid7_gen_unfold. cbn [fst snd].
  eexists. split; [reflexivity|].
  unfold reserve_loop.
  rewrite (surjective_pairing (_realtime_ms (replaying _ _ _ _ _))).
  rewrite _realtime_ms_replaying.
  set (now := fst (_realtime_ms (replaying (g_v7_state w) (env w) rest 0
                                   (u8 fb)))).
  cbn [g_v7_state replaying].
  unfold reserve. rewrite replaying_draw by lia.
  change (u16 V7_SEQ_MASK) with 4095.
  set (cand := V7_PACK _ _).
  destruct (cand <=? g_v7_state w); cbn [andb].
  - destruct (V7_UNPACK_SEQ (g_v7_state w) =? 4095); cbn [negb].
    + rewrite replaying_draw by lia. cbn [fst snd].
      change (set_state ?c (replaying ?s ?e ?r ?n ?f))
        with (replaying c e r n f).
      rewrite replaying_tail_late. cbn [fst].
      rewrite emitted_layout by exact Hlen. split; reflexivity.
    + cbn [fst snd].
      change (set_state ?c (replaying ?s ?e ?r ?n ?f))
        with (replaying c e r n f).
      rewrite replaying_tail. cbn [fst].
      rewrite emitted_layout by exact Hlen. split; reflexivity.
  - cbn [fst snd].
    change (set_state ?c (replaying ?s ?e ?r ?n ?f))
      with (replaying c e r n f).
    rewrite replaying_tail. cbn [fst].
    rewrite emitted_layout by exact Hlen. split; reflexivity.
Qed.

Lemma C5_scripted_tail_witness :
  exists out,
    snd (fst (uuid7_gen LittleEndian 0 (Some zeros16)
                (rng_load_script (Some script5) 10 16 (fresh_world 1000)))) =
    Some out /\
    nth 8 out 0 = 170 /\
    take 7 (drop 9 out) = [188; 205; 222; 239; 1; 35; 69].
Proof.
  apply (C5_scripted_tail LittleEndian zeros16 (fresh_world 1000) 16).
  simpl. lia.
Defined.

(** ** C2: attempts in the register's own millisecond *)

Lemma word_fields (prev : Z) :
  0 <= prev < 2 ^ 64 ->
  prev = V7_UNPACK_MS prev * 4096 + V7_UNPACK_SEQ prev.
Proof.
  intros H. rewrite V7_UNPACK_MS_arith, V7_UNPACK_SEQ_arith.
  rewrite Z.mod_small by lia. pose proof (Z.div_mod prev 4096). lia.
Qed.

(** C2, as stated, fails for [uuid7_gen] on both counts.  With the
    register at (1000, 5), the clock at 1000 and a draw of [0x412], the
    call commits sequence [0x412], not 6.  With the register at
    (1000, 4095) and the clock still at 1000, the call returns after one
    clock sample having committed millisecond 1001: it did not wait for
    the clock. *)
Lemma C2_draw_and_no_spin :
  let same := rng_load_script (Some script5) 10 16
                (set_state (V7_PACK 1000 5) (fresh_world 1000)) in
  let r := uuid7_gen LittleEndian 0 (Some zeros16) same in
  let full := rng_load_script (Some script5) 10 16
                (set_state (V7_PACK 1000 4095) (fresh_world 1000)) in
  let r' := uuid7_gen LittleEndian 0 (Some zeros16) full in
  fst (_realtime_ms same) = V7_UNPACK_MS (g_v7_state same) /\
  fst (fst r) = 0 /\
  V7_UNPACK_SEQ (g_v7_state (snd r)) = 1042 /\
  V7_UNPACK_SEQ (g_v7_state (snd r)) <>
  (V7_UNPACK_SEQ (g_v7_state same) + 1) mod 4096 /\
  fst (_realtime_ms full) = V7_UNPACK_MS (g_v7_state full) /\
  fst (fst r') = 0 /\
  tick (env (snd r')) = 1%nat /\
  V7_UNPACK_MS (g_v7_state (snd r')) = 1001.
Proof. vm_compute. repeat split; discriminate. Qed.

(** C2 (amended): a turn of [uuid7_gen] that observes [use_ms] equal to
    the register's timestamp forms the candidate (same timestamp, fresh
    non-zero draw) when the draw exceeds the register's sequence;
    otherwise the register plus one, whose sequence is [prev_seq + 1],
    when [prev_seq < 4095]; and when [prev_seq = 4095] it does not wait
    for the clock but forms (timestamp + 1, second non-zero draw) in the
    same turn, so nothing is committed in the exhausted slot.  A call
    whose first compare-exchange succeeds commits the candidate of its
    first turn.  In the [uuid_v7] variant a same-slot turn with
    [prev_seq < 4095] tries to store the register plus one. *)
Theorem C2_same_slot_policy (order : byte_order) (now_ms prev : Z)
    (w : World) (buf : list Z) :
  0 <= prev < 2 ^ 64 ->
  (if now_ms >=? V7_UNPACK_MS prev then now_ms else V7_UNPACK_MS prev) =
  V7_UNPACK_MS prev ->
  let rnd := fst (draw_seq order w) in
  let rnd2 := fst (draw_seq order (snd (draw_seq order w))) in
  let cand := fst (reserve order now_ms prev w) in
  (V7_UNPACK_SEQ prev < rnd -> cand = V7_PACK (V7_UNPACK_MS prev) rnd) /\
  (rnd <= V7_UNPACK_SEQ prev < 4095 ->
   cand = prev + 1 /\
   V7_UNPACK_SEQ cand = V7_UNPACK_SEQ prev + 1 /\
   V7_UNPACK_MS cand = V7_UNPACK_MS prev) /\
  (V7_UNPACK_SEQ prev = 4095 ->
   cand = V7_PACK (V7_UNPACK_MS prev + 1) rnd2 /\
   V7_UNPACK_MS cand <> V7_UNPACK_MS prev /\
   1 <= V7_UNPACK_SEQ cand <= 4095) /\
  g_v7_state (snd (uuid7_gen order 0 (Some buf) w)) =
  fst (reserve order (fst (_realtime_ms w)) (g_v7_state w)
         (snd (_realtime_ms w))) /\
  (V7_UNPACK_SEQ prev < 4095 ->
   Variant.uuid_v7_turn now_ms prev =
   Variant.TryCas prev (prev + 1) (V7_UNPACK_SEQ prev + 1)).
Proof.
  intros Hp Hslot. cbv zeta.
  pose proof (word_fields prev Hp) as Hw.
  pose proof (V7_UNPACK_MS_range prev) as Hm.
  pose proof (V7_UNPACK_SEQ_range prev) as Hs.
  pose proof (draw_seq_range order w) as Hr.
  pose proof (draw_seq_range order (snd (draw_seq order w))) as Hr2.
  rewrite reserve_candidate.
  revert Hr Hr2.
  generalize (fst (draw_seq order w)).
  generalize (fst (draw_seq order (snd (draw_seq order w)))).
  intros rnd2 rnd Hr Hr2.
  assert (Hfresh : V7_PACK (V7_UNPACK_MS prev) rnd =
                   V7_UNPACK_MS prev * 4096 + rnd).
  { rewrite V7_PACK_arith, !Z.mod_small; lia. }
  assert (Hcand : v7_candidate now_ms prev rnd rnd2 =
                  if V7_UNPACK_SEQ prev <? rnd
                  then V7_PACK (V7_UNPACK_MS prev) rnd
                  else if V7_UNPACK_SEQ prev =? 4095
                       then V7_PACK (V7_UNPACK_MS prev + 1) rnd2
                       else prev + 1).
  { unfold v7_candidate. rewrite Hslot. change (u16 V7_SEQ_MASK) with 4095.
    destruct (Z.leb_spec (V7_PACK (V7_UNPACK_MS prev) rnd) prev);
      destruct (Z.ltb_spec (V7_UNPACK_SEQ prev) rnd); try lia.
    destruct (Z.eqb_spec (V7_UNPACK_SEQ prev) 4095) as [E | NE]; simpl.
    - rewrite !V7_PACK_arith. unfold u64.
      rewrite mod_pow2_nested by lia. reflexivity.
    - unfold u64. apply Z.mod_small. rewrite Hw.
      change (2 ^ 64) with (2 ^ 52 * 4096). nia. }
  rewrite Hcand. repeat split.
  - intros H. destruct (Z.ltb_spec (V7_UNPACK_SEQ prev) rnd); [reflexivity|lia].
  - destruct (Z.ltb_spec (V7_UNPACK_SEQ prev) rnd); [lia|].
    destruct (Z.eqb_spec (V7_UNPACK_SEQ prev) 4095); [lia | reflexivity].
  - destruct H as [H1 H2].
    destruct (Z.ltb_spec (V7_UNPACK_SEQ prev) rnd); [lia|].
    destruct (Z.eqb_spec (V7_UNPACK_SEQ prev) 4095); [lia|].
    rewrite !V7_UNPACK_SEQ_arith in *.
    symmetry. apply Z.mod_unique with (q := prev / 4096); [lia|].
    pose proof (Z.div_mod prev 4096). lia.
  - destruct H as [H1 H2].
    destruct (Z.ltb_spec (V7_UNPACK_SEQ prev) rnd); [lia|].
    destruct (Z.eqb_spec (V7_UNPACK_SEQ prev) 4095); [lia|].
    replace (prev + 1) with (u64 (prev + 1)).
    + apply increment_same_slot. lia.
    + unfold u64. apply Z.mod_small. rewrite Hw.
      change (2 ^ 64) with (2 ^ 52 * 4096). nia.
  - destruct (Z.ltb_spec (V7_UNPACK_SEQ prev) rnd); [lia|].
    destruct (Z.eqb_spec (V7_UNPACK_SEQ prev) 4095); [reflexivity | lia].
  - destruct (Z.ltb_spec (V7_UNPACK_SEQ prev) rnd); [lia|].
    destruct (Z.eqb_spec (V7_UNPACK_SEQ prev) 4095); [|lia].
    rewrite V7_UNPACK_MS_PACK. intros E.
    destruct (Z.eq_dec (V7_UNPACK_MS prev + 1) (2 ^ 52)) as [Emax | Hlt].
    + rewrite Emax in E. rewrite Z.mod_same in E by lia. lia.
    + rewrite Z.mod_small in E by lia. lia.
  - destruct (Z.ltb_spec (V7_UNPACK_SEQ prev) rnd); [lia|].
    destruct (Z.eqb_spec (V7_UNPACK_SEQ prev) 4095); [|lia].
    rewrite V7_UNPACK_SEQ_PACK, Z.mod_small; lia.
  - destruct (Z.ltb_spec (V7_UNPACK_SEQ prev) rnd); [lia|].
    destruct (Z.eqb_spec (V7_UNPACK_SEQ prev) 4095); [|lia].
    rewrite V7_UNPACK_SEQ_PACK, Z.mod_small; lia.
  - rewrite uuid7_gen_state. simpl.
    destruct (reserve order _ _ _). reflexivity.
  - intros Hlt. unfold Variant.uuid_v7_turn.
    assert (Ems : Z.shiftr prev 12 = V7_UNPACK_MS prev).
    { unfold V7_UNPACK_MS, u64, V7_MS_SHIFT, V7_SEQ_BITS.
      rewrite Z.mod_small by lia. reflexivity. }
    assert (Eseq : u16 (Z.land prev 4095) = V7_UNPACK_SEQ prev)
      by reflexivity.
    rewrite Ems, Eseq.
    assert (Hle : now_ms <= V7_UNPACK_MS prev).
    { destruct (Z.geb_spec now_ms (V7_UNPACK_MS prev)); lia. }
    destruct (Z.gtb_spec now_ms (V7_UNPACK_MS prev)); [lia|].
    rewrite Z.eqb_refl. cbn [andb].
    assert (Enext : u16 (V7_UNPACK_SEQ prev + 1) = V7_UNPACK_SEQ prev + 1).
    { unfold u16. apply Z.mod_small. lia. }
    rewrite Enext.
    destruct (Z.eqb_spec (V7_UNPACK_SEQ prev + 1) 0); [lia|].
    f_equal. unfold u64. rewrite Z.shiftl_mul_pow2 by lia.
    rewrite Z.mod_small by (change (2 ^ 64) with (2 ^ 52 * 2 ^ 12); nia).
    rewrite lor_shifted_low by lia. change (2 ^ 12) with 4096. lia.
Qed.

Lemma C2_same_slot_policy_witness :
  fst (reserve LittleEndian 1000 (V7_PACK 1000 5) script5_world) =
  V7_PACK 1000 1042 /\
  fst (reserve LittleEndian 1000 (V7_PACK 1000 2000) script5_world) =
  V7_PACK 1000 2000 + 1 /\
  fst (reserve LittleEndian 1000 (V7_PACK 1000 4095) script5_world) =
  V7_PACK 1001 3242 /\
  Variant.uuid_v7_turn 1000 (V7_PACK 1000 5) =
  Variant.TryCas (V7_PACK 1000 5) (V7_PACK 1000 5 + 1) 6.
Proof.
  destruct (C2_same_slot_policy LittleEndian 1000 (V7_PACK 1000 5)
              script5_world zeros16) as (A & _ & _ & _ & V);
    [vm_compute; split; [discriminate | reflexivity] | reflexivity |].
  destruct (C2_same_slot_policy LittleEndian 1000 (V7_PACK 1000 2000)
              script5_world zeros16) as (_ & B & _);
    [vm_compute; split; [discriminate | reflexivity] | reflexivity |].
  destruct (C2_same_slot_policy LittleEndian 1000 (V7_PACK 1000 4095)
              script5_world zeros16) as (_ & _ & C & _);
    [vm_compute; split; [discriminate | reflexivity] | reflexivity |].
  split; [apply A; vm_compute; reflexivity|].
  split; [apply B; vm_compute; split; [discriminate | reflexivity]|].
  split; [apply C; reflexivity|].
  apply V. vm_compute. reflexivity.
Defined.

(** The wrap test of [uuid_v7] compares [(uint16_t)(prev_seq + 1u)] with
    zero without masking it to 12 bits, so it never holds: at
    [prev_seq = 4095] the turn tries to store sequence bits [0x1000],
    which land in the timestamp's lowest bit. *)
Remark uuid_v7_wrap_never_detected (now_ms prev ms : Z) :
  Variant.uuid_v7_turn now_ms prev <> Variant.SpinWait ms.
Proof.
  unfold Variant.uuid_v7_turn.
  set (prev_ms := Z.shiftr prev 12).
  set (use_ms := if now_ms >? prev_ms then now_ms else prev_ms).
  destruct (use_ms =? prev_ms); [|discriminate].
  assert (H : u16 (u16 (Z.land prev 4095) + 1) <> 0).
  { unfold u16. change 4095 with (2 ^ 12 - 1).
    rewrite land_low_bits by lia.
    pose proof (Z.mod_pos_bound prev (2 ^ 12)).
    rewrite (Z.mod_small (prev mod 2 ^ 12)) by lia.
    rewrite Z.mod_small; lia. }
  destruct (Z.eqb_spec (u16 (u16 (Z.land prev 4095) + 1)) 0); [contradiction|].
  discriminate.
Qed.

Example uuid_v7_wrap_at_odd_ms :
  Variant.uuid_v7_turn 1001 (V7_PACK 1001 4095) =
  Variant.TryCas (V7_PACK 1001 4095) (V7_PACK 1001 0) 4096.
Proof. vm_compute. reflexivity. Qed.

(** * Further properties of the code *)

(** ** Uniqueness of committed words *)

Lemma climbs_sorted (l : list Z) :
  climbs l -> Forall (fun w => w <> UINT64_MAX) l -> StronglySorted Z.lt l.
Proof.
  intros Hc Hf. apply Sorted_StronglySorted; [intros x y z; lia|].
  induction l as [|a [|b t] IH]; [constructor | repeat constructor |].
  destruct Hc as [Hab Hc]. inversion Hf as [|? ? Ha Hf']. subst.
  constructor; [apply IH; assumption|].
  constructor. apply Hab, Ha.
Qed.

Lemma sorted_lt_NoDup (l : list Z) : StronglySorted Z.lt l -> NoDup l.
Proof.
  induction 1 as [|a l Hs IH Ha]; constructor; [|exact IH].
  intros Hin. rewrite Forall_forall in Ha.
  specialize (Ha a Hin). lia.
Qed.

(** X1: in any interleaving of concurrent [uuid7_gen] callers in which no
    committed word is [2^64 - 1], the committed words are strictly
    increasing in commit order, so no two calls commit the same
    (timestamp, sequence) pair. *)
Theorem X1_commits_are_unique (n : nat) (c : Interleaving.config) :
  Interleaving.run (Interleaving.boot n) c ->
  Forall (fun w => w <> UINT64_MAX) (Interleaving.commits c) ->
  StronglySorted Z.lt (Interleaving.commits c) /\
  NoDup (map (fun w => (V7_UNPACK_MS w, V7_UNPACK_SEQ w))
             (Interleaving.commits c)).
Proof.
  intros Hrun Hf.
  pose proof (invariant_run _ _ (invariant_boot n) Hrun) as [_ _ _ Hr Hcl].
  pose proof (climbs_sorted _ Hcl Hf) as Hs.
  split; [exact Hs|].
  apply NoDup_fmap_2_strong; [|apply sorted_lt_NoDup, Hs].
  intros x y Hx Hy [= Hms Hseq].
  rewrite Forall_forall in Hr.
  destruct (Hr x Hx) as [Hxr _]. destruct (Hr y Hy) as [Hyr _].
  rewrite (word_fields x Hxr), (word_fields y Hyr). congruence.
Qed.

Lemma X1_commits_are_unique_witness :
  NoDup (map (fun w => (V7_UNPACK_MS w, V7_UNPACK_SEQ w))
             [4097042; 4097043]).
Proof.
  apply (X1_commits_are_unique 1 two_calls two_calls_run).
  repeat constructor; unfold UINT64_MAX; lia.
Defined.

(** ** Reading an identifier back *)

Lemma V7_MS_BYTE_range (ms n : Z) : 0 <= V7_MS_BYTE ms n < 256.
Proof. unfold V7_MS_BYTE, u8. apply Z.mod_pos_bound. lia. Qed.

Lemma lor_shift_byte (acc b : Z) :
  0 <= acc < 2 ^ 48 -> 0 <= b < 256 ->
  Z.lor (u64 (Z.shiftl acc 8)) b = acc * 256 + b.
Proof.
  intros Ha Hb. unfold u64. rewrite Z.shiftl_mul_pow2 by lia.
  rewrite Z.mod_small by lia.
  rewrite lor_shifted_low by lia. reflexivity.
Qed.

Lemma extract_ms_emitted (word : Z) (rb out : list Z) :
  (16 <= length out)%nat ->
  extract_ms (Interleaving.emitted word rb out) = V7_UNPACK_MS word mod 2 ^ 48.
Proof.
  intros Hlen. rewrite emitted_layout by exact Hlen.
  pose proof (V7_UNPACK_MS_range word) as Hm.
  rewrite <- (ms_bytes_value (V7_UNPACK_MS word) Hm).
  revert Hm. generalize (V7_UNPACK_MS word). intros m Hm.
  unfold extract_ms, layout. cbn [seq fold_left app nth].
  pose proof (V7_MS_BYTE_range m 0). pose proof (V7_MS_BYTE_range m 1).
  pose proof (V7_MS_BYTE_range m 2). pose proof (V7_MS_BYTE_range m 3).
  pose proof (V7_MS_BYTE_range m 4). pose proof (V7_MS_BYTE_range m 5).
  rewrite (lor_shift_byte 0 (V7_MS_BYTE m 0)) by lia.
  rewrite (lor_shift_byte _ (V7_MS_BYTE m 1)) by lia.
  rewrite (lor_shift_byte _ (V7_MS_BYTE m 2)) by lia.
  rewrite (lor_shift_byte _ (V7_MS_BYTE m 3)) by lia.
  rewrite (lor_shift_byte _ (V7_MS_BYTE m 4)) by lia.
  rewrite (lor_shift_byte _ (V7_MS_BYTE m 5)) by lia. lia.
Qed.

(** X2: the harness' decoders invert the encoder: for every identifier
    [uuid7_gen] writes, [extract_seq] is the committed sequence and
    [extract_ms] the committed timestamp reduced to 48 bits; so when the
    timestamp is below [2^48], packing the two decoded fields gives the
    committed word back. *)
Theorem X2_decoders_invert_encoder (order : byte_order) (k : nat)
    (buf : list Z) (w : World) :
  (16 <= length buf)%nat ->
  exists out,
    snd (fst (uuid7_gen order k (Some buf) w)) = Some out /\
    extract_seq out =
    V7_UNPACK_SEQ (g_v7_state (snd (uuid7_gen order k (Some buf) w))) /\
    extract_ms out =
    V7_UNPACK_MS (g_v7_state (snd (uuid7_gen order k (Some buf) w)))
      mod 2 ^ 48 /\
    (V7_UNPACK_MS (g_v7_state (snd (uuid7_gen order k (Some buf) w)))
     < 2 ^ 48 ->
     V7_PACK (extract_ms out) (extract_seq out) =
     g_v7_state (snd (uuid7_gen order k (Some buf) w))).
Proof.
  intros Hlen. rewrite uuid7_gen_state, uuid7_gen_unfold. cbn [fst snd].
  eexists. split; [reflexivity|].
  rewrite extract_seq_emitted, extract_ms_emitted by exact Hlen.
  split; [reflexivity|]. split; [reflexivity|].
  intros Hms.
  destruct (reserve_loop_candidate order k w) as (now & wa & wb & E).
  pose proof (v7_candidate_range now (g_v7_state w)
                (fst (draw_seq order wa)) (fst (draw_seq order wb))) as Hr.
  rewrite <- E in Hr. revert Hms Hr.
  generalize (fst (reserve_loop order k w)). intros word Hms Hr.
  pose proof (V7_UNPACK_MS_range word). pose proof (V7_UNPACK_SEQ_range word).
  rewrite V7_PACK_arith.
  rewrite (Z.mod_small (V7_UNPACK_MS word)) by lia.
  rewrite Z.mod_small by lia. rewrite Z.mod_small by lia.
  symmetry. apply word_fields. exact Hr.
Qed.

Lemma X2_decoders_invert_encoder_witness :
  exists out,
    snd (fst (uuid7_gen LittleEndian 0 (Some zeros16) script5_world)) =
    Some out /\
    extract_seq out = 1042 /\ extract_ms out = 1000 /\
    V7_PACK (extract_ms out) (extract_seq out) = 4097042.
Proof.
  destruct (X2_decoders_invert_encoder LittleEndian 0 zeros16 script5_world)
    as (out & Ho & Hs & Hm & Hp).
  - simpl. lia.
  - exists out. split; [exact Ho|].
    split; [rewrite Hs; vm_compute; reflexivity|].
    split; [rewrite Hm; vm_compute; reflexivity|].
    rewrite Hp; vm_compute; reflexivity.
Defined.

(** ** Two calls in a row *)

Lemma reserve_loop_range (order : byte_order) (k : nat) (w : World) :
  0 <= fst (reserve_loop order k w) < 2 ^ 64.
Proof.
  destruct (reserve_loop_candidate order k w) as (now & wa & wb & E).
  rewrite E. apply v7_candidate_range.
Qed.

Lemma reserve_loop_above (order : byte_order) (k : nat) (w : World) :
  0 <= g_v7_state w < UINT64_MAX ->
  g_v7_state w < fst (reserve_loop order k w).
Proof.
  intros H.
  destruct (reserve_loop_candidate order k w) as (now & wa & wb & E).
  rewrite E. apply v7_candidate_above, H.
Qed.

(** X3: the assertion of [test_monotonic_non_decreasing] holds for any
    two consecutive calls on one thread, from any state of the register,
    the provider and the clock, as long as both committed timestamps are
    below [2^48]: the decoded (timestamp, sequence) pair of the second
    identifier is lexicographically above that of the first. *)
Theorem X3_consecutive_calls_increase (order : byte_order) (k1 k2 : nat)
    (buf1 buf2 : list Z) (w : World) :
  (16 <= length buf1)%nat -> (16 <= length buf2)%nat ->
  let r1 := uuid7_gen order k1 (Some buf1) w in
  let r2 := uuid7_gen order k2 (Some buf2) (snd r1) in
  V7_UNPACK_MS (g_v7_state (snd r1)) < 2 ^ 48 ->
  V7_UNPACK_MS (g_v7_state (snd r2)) < 2 ^ 48 ->
  exists a b,
    snd (fst r1) = Some a /\ snd (fst r2) = Some b /\
    (extract_ms a < extract_ms b \/
     (extract_ms a = extract_ms b /\ extract_seq a < extract_seq b)).
Proof.
  intros H1 H2. cbv zeta.
  set (w1 := snd (uuid7_gen order k1 (Some buf1) w)).
  assert (E1 : g_v7_state w1 = fst (reserve_loop order k1 w))
    by apply uuid7_gen_state.
  rewrite (uuid7_gen_state order k2 buf2 w1).
  rewrite (uuid7_gen_unfold order k1), (uuid7_gen_unfold order k2).
  cbn [fst snd]. intros Hm1 Hm2.
  eexists _, _. split; [reflexivity|]. split; [reflexivity|].
  rewrite !extract_seq_emitted, !extract_ms_emitted by assumption.
  pose proof (reserve_loop_range order k1 w) as Hr1.
  pose proof (reserve_loop_range order k2 w1) as Hr2.
  rewrite <- E1 in Hr1 |- *.
  assert (Hlt : g_v7_state w1 < fst (reserve_loop order k2 w1)).
  { apply reserve_loop_above. split; [lia|].
    rewrite V7_UNPACK_MS_arith in Hm1. rewrite Z.mod_small in Hm1 by lia.
    pose proof (Z.div_mod (g_v7_state w1) 4096).
    pose proof (Z.mod_pos_bound (g_v7_state w1) 4096).
    unfold UINT64_MAX. lia. }
  revert Hm1 Hm2 Hr1 Hr2 Hlt.
  generalize (g_v7_state w1), (fst (reserve_loop order k2 w1)).
  intros c1 c2 Hm1 Hm2 Hr1 Hr2 Hlt.
  rewrite !Z.mod_small
    by (split; [apply V7_UNPACK_MS_range | assumption]).
  rewrite (word_fields c1 Hr1), (word_fields c2 Hr2) in Hlt.
  pose proof (V7_UNPACK_SEQ_range c1). pose proof (V7_UNPACK_SEQ_range c2).
  lia.
Qed.

Lemma X3_consecutive_calls_increase_witness :
  exists a b,
    snd (fst (uuid7_gen LittleEndian 0 (Some zeros16) script5_world)) =
    Some a /\
    snd (fst (uuid7_gen LittleEndian 1 (Some zeros16)
                (snd (uuid7_gen LittleEndian 0 (Some zeros16)
                        script5_world)))) = Some b /\
    (extract_ms a < extract_ms b \/
     (extract_ms a = extract_ms b /\ extract_seq a < extract_seq b)).
Proof.
  apply (X3_consecutive_calls_increase LittleEndian 0 1 zeros16 zeros16
           script5_world).
  - simpl. lia.
  - simpl. lia.
  - vm_compute. reflexivity.
  - vm_compute. reflexivity.
Defined.

(** ** The built-in provider *)

Lemma deliver_count (bs : list Z) (off : nat) (buf : list Z) :
  fst (deliver bs off buf) = Nat.min (length buf - off) (length bs).
Proof. unfold deliver. cbn [fst]. apply length_take. Qed.

Lemma deliver_length (bs : list Z) (off : nat) (buf : list Z) :
  (off <= length buf)%nat ->
  length (snd (deliver bs off buf)) = length buf.
Proof.
  intros H. unfold deliver. cbn [snd].
  rewrite !length_app, length_map, !length_take, length_drop. lia.
Qed.

Lemma deliver_outside (bs : list Z) (off : nat) (buf : list Z) (i : nat) :
  (off <= length buf)%nat ->
  (i < off \/ off + fst (deliver bs off buf) <= i)%nat ->
  snd (deliver bs off buf) !! i = buf !! i.
Proof.
  intros Hoff Hi. rewrite deliver_count in Hi. unfold deliver. cbn [snd].
  set (got := take (length buf - off) bs).
  assert (Hgot : length got = Nat.min (length buf - off) (length bs))
    by apply length_take.
  destruct Hi as [Hi | Hi].
  - rewrite lookup_app_l by (rewrite length_take; lia).
    apply lookup_take_lt. exact Hi.
  - rewrite lookup_app_r by (rewrite length_take; lia).
    rewrite lookup_app_r by (rewrite length_map, length_take; lia).
    rewrite lookup_drop, length_map, length_take. f_equal. lia.
Qed.

Lemma deliver_inside (bs : list Z) (off : nat) (buf : list Z) (j : nat) :
  (off <= length buf)%nat ->
  (j < fst (deliver bs off buf))%nat ->
  snd (deliver bs off buf) !! (off + j)%nat = u8 <$> bs !! j.
Proof.
  intros Hoff Hj. rewrite deliver_count in Hj. unfold deliver. cbn [snd].
  rewrite lookup_app_r by (rewrite length_take; lia).
  rewrite length_take.
  replace (off + j - Nat.min off (length buf))%nat with j by lia.
  rewrite lookup_app_l by (rewrite length_map, length_take; lia).
  change (map u8 (take (length buf - off) bs))
    with (u8 <$> take (length buf - off) bs).
  rewrite list_lookup_fmap, lookup_take_lt by lia. reflexivity.
Qed.

Lemma deliver_take (bs : list Z) (off : nat) (p : list Z) :
  (off <= length p)%nat ->
  take (off + fst (deliver bs off p)) (snd (deliver bs off p))
  = take off p ++ map u8 (take (length p - off) bs).
Proof.
  intros H. unfold deliver. cbn [fst snd].
  rewrite app_assoc. apply take_app_length'.
  rewrite length_app, length_map, !length_take. lia.
Qed.

Lemma u8_range (x : Z) : 0 <= u8 x < 256.
Proof. unfold u8. apply Z.mod_pos_bound. lia. Qed.

(** What both kernel loops keep: the length, every byte outside the
    window they fill, and byte values inside it. *)
Lemma getrandom_loop_window (answers : list sys_ret) (off : nat)
    (buf : list Z) :
  (off <= length buf)%nat ->
  let r := getrandom_loop answers off buf in
  (off <= fst (fst r) <= length buf)%nat /\
  length (snd (fst r)) = length buf /\
  (forall i, (i < off \/ fst (fst r) <= i)%nat ->
             snd (fst r) !! i = buf !! i) /\
  (forall i x, (off <= i < fst (fst r))%nat ->
               snd (fst r) !! i = Some x -> 0 <= x < 256).
Proof.
  revert off buf.
  induction answers as [|a answers IH]; intros off buf Hoff; cbn zeta.
  - cbn [getrandom_loop]. destruct (length buf <=? off)%nat; cbn [fst snd];
      (split; [lia|]); (split; [reflexivity|]); (split; [reflexivity|]);
      intros; lia.
  - cbn [getrandom_loop].
    destruct (Nat.leb_spec (length buf) off) as [Hle | Hlt].
    { cbn [fst snd]. split; [lia|]. split; [reflexivity|].
      split; [reflexivity|]. intros; lia. }
    destruct a as [| |bs].
    + apply IH, Hoff.
    + cbn [fst snd]. split; [lia|]. split; [reflexivity|].
      split; [reflexivity|]. intros; lia.
    + pose proof (deliver_count bs off buf) as Hc.
      pose proof (deliver_length bs off buf Hoff) as Hl.
      pose proof (deliver_outside bs off buf) as Ho.
      pose proof (deliver_inside bs off buf) as Hi.
      destruct (deliver bs off buf) as [r buf1]. cbn [fst snd] in *.
      assert (Hoff1 : (off + r <= length buf1)%nat) by lia.
      specialize (IH (off + r)%nat buf1 Hoff1). cbn zeta in IH.
      destruct IH as (I1 & I2 & I3 & I4).
      split; [lia|]. split; [lia|]. split.
      * intros i Hcase. rewrite I3 by lia. apply Ho; lia.
      * intros i x Hrange Hx.
        destruct (Nat.lt_ge_cases i (off + r)) as [Hin | Hout].
        -- rewrite I3 in Hx by lia.
           replace i with (off + (i - off))%nat in Hx by lia.
           rewrite Hi in Hx by lia.
           destruct (bs !! (i - off)%nat); [|discriminate].
           injection Hx as <-. apply u8_range.
        -- apply (I4 i x); [lia | exact Hx].
Qed.

Lemma urandom_loop_window (answers : list sys_ret) (off : nat)
    (buf : list Z) :
  (off <= length buf)%nat ->
  let r := urandom_loop answers off buf in
  length (fst r) = length buf /\
  exists off', (off <= off' <= length buf)%nat /\
    (forall i, (i < off \/ off' <= i)%nat -> fst r !! i = buf !! i) /\
    (forall i x, (off <= i < off')%nat ->
                 fst r !! i = Some x -> 0 <= x < 256).
Proof.
  revert off buf.
  induction answers as [|a answers IH]; intros off buf Hoff; cbn zeta.
  - cbn [urandom_loop]. destruct (length buf <=? off)%nat; cbn [fst snd];
      (split; [reflexivity|]); exists off; (split; [lia|]);
      (split; [reflexivity|]); intros; lia.
  - cbn [urandom_loop].
    destruct (Nat.leb_spec (length buf) off) as [Hle | Hlt].
    { cbn [fst snd]. split; [reflexivity|]. exists off. split; [lia|].
      split; [reflexivity|]. intros; lia. }
    destruct a as [| |bs].
    + apply IH, Hoff.
    + cbn [fst snd]. split; [reflexivity|]. exists off. split; [lia|].
      split; [reflexivity|]. intros; lia.
    + pose proof (deliver_count bs off buf) as Hc.
      pose proof (deliver_length bs off buf Hoff) as Hl.
      pose proof (deliver_outside bs off buf) as Ho.
      pose proof (deliver_inside bs off buf) as Hi.
      destruct (deliver bs off buf) as [r buf1]. cbn [fst snd] in *.
      destruct (Nat.eqb_spec r 0) as [-> | Hr].
      * cbn [fst snd]. split; [exact Hl|]. exists off. split; [lia|].
        split; [intros i Hcase; apply Ho; lia | intros; lia].
      * assert (Hoff1 : (off + r <= length buf1)%nat) by lia.
        specialize (IH (off + r)%nat buf1 Hoff1). cbn zeta in IH.
        destruct IH as (I2 & off' & I1 & I3 & I4).
        split; [lia|]. exists off'. split; [lia|]. split.
        -- intros i Hcase. rewrite I3 by lia. apply Ho; lia.
        -- intros i x Hrange Hx.
           destruct (Nat.lt_ge_cases i (off + r)) as [Hin | Hout].
           ++ rewrite I3 in Hx by lia.
              replace i with (off + (i - off))%nat in Hx by lia.
              rewrite Hi in Hx by lia.
              destruct (bs !! (i - off)%nat); [|discriminate].
              injection Hx as <-. apply u8_range.
           ++ apply (I4 i x); [lia | exact Hx].
Qed.

Lemma deliver_full (bs buf : list Z) :
  (length buf <= length bs)%nat ->
  deliver bs 0 buf = (length buf, map u8 (take (length buf) bs)).
Proof.
  intros H. unfold deliver. rewrite Nat.sub_0_r, length_take.
  replace (Nat.min (length buf) (length bs)) with (length buf) by lia.
  rewrite take_0, drop_ge by (cbn; lia). cbn [app].
  rewrite app_nil_r. reflexivity.
Qed.

Lemma getrandom_loop_done (answers : list sys_ret) (off : nat) (buf : list Z) :
  (length buf <= off)%nat ->
  getrandom_loop answers off buf = (off, buf, answers).
Proof.
  intros H. destruct answers; cbn [getrandom_loop];
    destruct (Nat.leb_spec (length buf) off); try lia; reflexivity.
Qed.

Lemma urandom_loop_done (answers : list sys_ret) (off : nat) (buf : list Z) :
  (length buf <= off)%nat ->
  urandom_loop answers off buf = (buf, answers).
Proof.
  intros H. destruct answers; cbn [urandom_loop];
    destruct (Nat.leb_spec (length buf) off); try lia; reflexivity.
Qed.

Lemma urandom_loop_EINTR (j : nat) (answers : list sys_ret) (off : nat)
    (buf : list Z) :
  (off < length buf)%nat ->
  urandom_loop (replicate j EINTR ++ answers) off buf
  = urandom_loop answers off buf.
Proof.
  intros H. induction j as [|j IH]; [reflexivity|].
  cbn [replicate app urandom_loop].
  destruct (Nat.leb_spec (length buf) off); [lia | exact IH].
Qed.

(** X4: [_default_rng] never changes the length of the buffer and never
    writes past what the kernel delivered: there is a cut [m] within the
    buffer such that every position from [m] on holds what it held before
    and every position below [m] holds a byte value.  The clock and the
    test provider's context are not touched. *)
Theorem X4_default_rng_fills_a_prefix (buf : list Z) (e : Env) :
  let r := _default_rng buf e in
  length (fst r) = length buf /\
  (exists m, (m <= length buf)%nat /\
     (forall i, (m <= i)%nat -> fst r !! i = buf !! i) /\
     (forall i x, (i < m)%nat -> fst r !! i = Some x -> 0 <= x < 256)) /\
  clock (snd r) = clock e /\ tick (snd r) = tick e /\
  g_rng_ctx (snd r) = g_rng_ctx e.
Proof.
  cbn zeta. unfold _default_rng.
  destruct (Nat.eqb_spec (length buf) 0) as [H0 | H0].
  { cbn [fst snd]. split; [reflexivity|]. split; [|auto].
    exists 0%nat. split; [lia|]. split; [reflexivity | intros; lia]. }
  pose proof (getrandom_loop_window (sys_getrandom e) 0 buf
                ltac:(lia)) as G. cbn zeta in G.
  destruct (getrandom_loop (sys_getrandom e) 0 buf) as [[off buf1] ga].
  cbn [fst snd] in G. destruct G as (G1 & G2 & G3 & G4).
  assert (Hprefix : exists m, (m <= length buf)%nat /\
     (forall i, (m <= i)%nat -> buf1 !! i = buf !! i) /\
     (forall i x, (i < m)%nat -> buf1 !! i = Some x -> 0 <= x < 256)).
  { exists off. split; [lia|]. split.
    - intros i Hi. apply G3. lia.
    - intros i x Hi. apply G4. lia. }
  destruct (Nat.eqb_spec off (length buf)) as [Hfull | Hshort].
  { cbn [fst snd]. auto. }
  destruct e as [ck tk sg so sr ctx arb].
  unfold set_sys_getrandom, set_sys_open, set_sys_read. cbn.
  destruct so as [|[|] os]; cbn [fst snd]; auto.
  pose proof (urandom_loop_window sr 0 buf1 ltac:(lia)) as U.
  cbn zeta in U.
  destruct (urandom_loop sr 0 buf1) as [buf2 ra]. cbn [fst snd] in *.
  destruct U as (U2 & off' & U1 & U3 & U4).
  split; [lia|]. split; [|auto].
  exists (Nat.max off off'). split; [lia|]. split.
  - intros i Hi. rewrite U3 by lia. apply G3. lia.
  - intros i x Hi Hx.
    destruct (Nat.lt_ge_cases i off') as [Hin | Hout].
    + apply (U4 i x); [lia | exact Hx].
    + rewrite U3 in Hx by lia. apply (G4 i x); [lia | exact Hx].
Qed.

Lemma getrandom_loop_joined (pre post : list sys_ret) (off : nat)
    (buf : list Z) :
  (off <= length buf)%nat ->
  Forall (fun a => a <> EFAIL) pre ->
  (length buf - off <= length (delivered pre))%nat ->
  let r := getrandom_loop (pre ++ post) off buf in
  fst (fst r) = length buf /\
  snd (fst r)
  = take off buf ++ map u8 (take (length buf - off) (delivered pre)).
Proof.
  revert off buf.
  induction pre as [|a pre IH]; intros off buf Hoff Hok Hlen; cbn zeta.
  - cbn [delivered length] in Hlen. cbn [app].
    rewrite getrandom_loop_done by lia. cbn [fst snd].
    split; [lia|]. rewrite take_ge by lia.
    replace (length buf - off)%nat with 0%nat by lia.
    cbn. rewrite app_nil_r. reflexivity.
  - apply Forall_cons in Hok. destruct Hok as [Ha Hok].
    destruct (Nat.le_gt_cases (length buf) off) as [Hle | Hgt].
    { rewrite getrandom_loop_done by lia. cbn [fst snd].
      split; [lia|]. rewrite take_ge by lia.
      replace (length buf - off)%nat with 0%nat by lia.
      cbn. rewrite app_nil_r. reflexivity. }
    cbn [app getrandom_loop].
    destruct (Nat.leb_spec (length buf) off) as [? | _]; [lia|].
    destruct a as [| |bs]; [|congruence|].
    + apply IH; assumption.
    + cbn [delivered] in Hlen. rewrite length_app in Hlen.
      pose proof (deliver_count bs off buf) as Hc.
      pose proof (deliver_length bs off buf Hoff) as Hl.
      pose proof (deliver_take bs off buf Hoff) as Ht.
      destruct (deliver bs off buf) as [r buf1]. cbn [fst snd] in *.
      specialize (IH (off + r)%nat buf1 ltac:(lia) Hok ltac:(lia)).
      cbn zeta in IH. destruct IH as [I1 I2].
      split; [lia|]. rewrite I2, Ht, Hl. cbn [delivered].
      rewrite <- app_assoc. f_equal.
      rewrite take_app, map_app. f_equal. f_equal. f_equal. lia.
Qed.

(** X5: the built-in provider joins what [getrandom] hands over.  As long
    as no call fails for a reason other than [EINTR], interrupted calls
    are retried and short deliveries are continued where they stopped:
    once the answers hold enough bytes the buffer is their first
    [length buf] bytes, in order, and [/dev/urandom] is neither opened nor
    read. *)
Theorem X5_getrandom_deliveries_are_joined (pre post : list sys_ret)
    (buf : list Z) (e : Env) :
  sys_getrandom e = pre ++ post ->
  Forall (fun a => a <> EFAIL) pre ->
  (length buf <= length (delivered pre))%nat ->
  let r := _default_rng buf e in
  fst r = map u8 (take (length buf) (delivered pre)) /\
  sys_open (snd r) = sys_open e /\ sys_read (snd r) = sys_read e.
Proof.
  intros Hscript Hok Hlen. cbn zeta. unfold _default_rng.
  destruct (Nat.eqb_spec (length buf) 0) as [H0 | H0].
  { cbn [fst snd]. rewrite H0. destruct buf; [auto | discriminate]. }
  rewrite Hscript.
  pose proof (getrandom_loop_joined pre post 0 buf ltac:(lia) Hok
                ltac:(lia)) as G. cbn zeta in G.
  destruct (getrandom_loop (pre ++ post) 0 buf) as [[off buf1] ga].
  cbn [fst snd] in G. destruct G as [-> ->].
  rewrite Nat.eqb_refl, Nat.sub_0_r, take_0. cbn [fst snd app].
  destruct e; auto.
Qed.

Lemma X5_getrandom_deliveries_are_joined_witness :
  fst (_default_rng [0; 0; 0]
         (set_sys_getrandom [EINTR; RET [300; 2]; EINTR; RET [3; 4]; EFAIL]
            (quiet_env 5)))
  = [44; 2; 3].
Proof.
  exact (proj1 (X5_getrandom_deliveries_are_joined
                  [EINTR; RET [300; 2]; EINTR; RET [3; 4]] [EFAIL]
                  [0; 0; 0]
                  (set_sys_getrandom
                     [EINTR; RET [300; 2]; EINTR; RET [3; 4]; EFAIL]
                     (quiet_env 5))
                  eq_refl
                  ltac:(repeat (constructor; [discriminate|]); constructor)
                  ltac:(cbn; lia))).
Defined.

(** X6: the fallback starts over.  When [getrandom] delivers only part of
    the request and then fails, and [/dev/urandom] opens and one read
    (possibly after interrupted ones) covers the request, the buffer holds
    the device's bytes from position 0: the bytes [getrandom] had written
    are overwritten, not kept. *)
Theorem X6_urandom_fallback_restarts (bs1 bs2 : list Z) (j : nat)
    (grest rrest : list sys_ret) (orest : list bool) (buf : list Z)
    (e : Env) :
  (length bs1 < length buf)%nat ->
  (length buf <= length bs2)%nat ->
  sys_getrandom e = RET bs1 :: EFAIL :: grest ->
  sys_open e = true :: orest ->
  sys_read e = replicate j EINTR ++ RET bs2 :: rrest ->
  _default_rng buf e
  = (map u8 (take (length buf) bs2),
     set_sys_read rrest (set_sys_open orest (set_sys_getrandom grest e))).
Proof.
  intros Hshort Hlen Hg Ho Hr. unfold _default_rng.
  destruct (Nat.eqb_spec (length buf) 0) as [H0 | H0]; [lia|].
  rewrite Hg. cbn [getrandom_loop].
  destruct (Nat.leb_spec (length buf) 0); [lia|].
  pose proof (deliver_count bs1 0 buf) as Hc.
  pose proof (deliver_length bs1 0 buf ltac:(lia)) as Hl.
  destruct (deliver bs1 0 buf) as [r buf1]. cbn [fst snd] in Hc, Hl.
  assert (Hr1 : r = length bs1) by lia. clear Hc. subst r. cbn [Nat.add].
  cbn [getrandom_loop]. rewrite Hl.
  destruct (Nat.leb_spec (length buf) (length bs1)); [lia|].
  destruct (Nat.eqb_spec (length bs1) (length buf)); [lia|].
  destruct e as [ck tk sg so sr ctx arb]. cbn in Hg, Ho, Hr. subst so sr.
  unfold set_sys_getrandom, set_sys_open, set_sys_read. cbn [sys_open sys_read
    clock tick sys_getrandom g_rng_ctx auto_rb].
  rewrite urandom_loop_EINTR by lia. cbn [urandom_loop].
  rewrite Hl. destruct (Nat.leb_spec (length buf) 0); [lia|].
  rewrite deliver_full by lia. rewrite Hl.
  destruct (Nat.eqb_spec (length buf) 0); [lia|]. cbn [Nat.add].
  rewrite urandom_loop_done by (rewrite length_map, length_take; lia).
  reflexivity.
Qed.

Lemma X6_urandom_fallback_restarts_witness :
  fst (_default_rng [0; 0; 0]
         (set_sys_read [EINTR; RET [7; 8; 9; 10]]
            (set_sys_open [true]
               (set_sys_getrandom [RET [1; 2]; EFAIL] (quiet_env 5)))))
  = [7; 8; 9].
Proof.
  exact (f_equal fst
    (X6_urandom_fallback_restarts [1; 2] [7; 8; 9; 10] 1 [] [] [] [0; 0; 0]
       (set_sys_read [EINTR; RET [7; 8; 9; 10]]
          (set_sys_open [true]
             (set_sys_getrandom [RET [1; 2]; EFAIL] (quiet_env 5))))
       ltac:(cbn; lia) ltac:(cbn; lia) eq_refl eq_refl eq_refl)).
Defined.

(** ** Lazy installation of the provider *)

(** X7: the first non-empty fill installs the built-in provider exactly as
    [uuid7_init(NULL)] would have: filling with or without that call
    beforehand gives the same bytes and the same state, and afterwards a
    provider is installed.  An installed provider is never replaced. *)
Theorem X7_lazy_install_is_init (buf : list Z) (w : World) :
  buf <> [] ->
  _fill_random buf w = _fill_random buf (snd (uuid7_init None w)) /\
  g_uuid_rng_ptr (snd (_fill_random buf w))
  = Some (match g_uuid_rng_ptr w with Some p => p | None => DefaultRng end).
Proof.
  intros Hne. destruct buf as [|b buf]; [congruence|].
  destruct w as [st [p|] e]; unfold _fill_random, uuid7_init,
    cas_install_default, load_uuid_rng, store_uuid_rng;
    cbn [length Nat.eqb g_uuid_rng_ptr snd env g_v7_state].
  - split; [reflexivity|].
    destruct (call_rng p (b :: buf) e) as [o e']. reflexivity.
  - split; [reflexivity|].
    cbn [call_rng].
    destruct (_default_rng (b :: buf) e) as [o e']. reflexivity.
Qed.

Lemma X7_lazy_install_is_init_witness :
  g_uuid_rng_ptr (snd (_fill_random [0; 0] (fresh_world 5)))
  = Some DefaultRng.
Proof.
  exact (proj2 (X7_lazy_install_is_init [0; 0] (fresh_world 5)
                  ltac:(discriminate))).
Defined.

(** ** The scripted provider of the test harness *)

Lemma scripted_step_length (l : list Z) (c : scripted_rng_ctx_t) (i : nat) :
  length (fst (scripted_rng_step (l, c) i)) = length l.
Proof.
  unfold scripted_rng_step.
  destruct (cursor c <? script_len c)%nat; cbn [fst]; apply length_insert.
Qed.

Lemma scripted_step_shift (pre l : list Z) (c : scripted_rng_ctx_t)
    (i : nat) :
  scripted_rng_step (pre ++ l, c) (length pre + i)
  = (pre ++ fst (scripted_rng_step (l, c) i),
     snd (scripted_rng_step (l, c) i)).
Proof.
  unfold scripted_rng_step.
  destruct (cursor c <? script_len c)%nat; cbn [fst snd];
    rewrite insert_app_r; reflexivity.
Qed.

Lemma scripted_step_pad (l post : list Z) (c : scripted_rng_ctx_t)
    (i : nat) :
  (i < length l)%nat ->
  scripted_rng_step (l ++ post, c) i
  = (fst (scripted_rng_step (l, c) i) ++ post,
     snd (scripted_rng_step (l, c) i)).
Proof.
  intros Hi. unfold scripted_rng_step.
  destruct (cursor c <? script_len c)%nat; cbn [fst snd];
    rewrite insert_app_l by exact Hi; reflexivity.
Qed.

Lemma scripted_fold_length (idx : list nat) (l : list Z)
    (c : scripted_rng_ctx_t) :
  length (fst (fold_left scripted_rng_step idx (l, c))) = length l.
Proof.
  revert l c. induction idx as [|i idx IH]; intros l c; [reflexivity|].
  cbn [fold_left].
  pose proof (scripted_step_length l c i) as H.
  destruct (scripted_rng_step (l, c) i) as [l1 c1]. cbn [fst] in H.
  rewrite IH. exact H.
Qed.

Lemma scripted_fold_shift (idx : list nat) (pre l : list Z)
    (c : scripted_rng_ctx_t) :
  fold_left scripted_rng_step (map (Nat.add (length pre)) idx) (pre ++ l, c)
  = (pre ++ fst (fold_left scripted_rng_step idx (l, c)),
     snd (fold_left scripted_rng_step idx (l, c))).
Proof.
  revert l c. induction idx as [|i idx IH]; intros l c; [reflexivity|].
  cbn [map fold_left]. rewrite scripted_step_shift.
  destruct (scripted_rng_step (l, c) i) as [l1 c1]. cbn [fst snd].
  apply IH.
Qed.

Lemma scripted_fold_pad (idx : list nat) (l post : list Z)
    (c : scripted_rng_ctx_t) :
  (forall i, In i idx -> (i < length l)%nat) ->
  fold_left scripted_rng_step idx (l ++ post, c)
  = (fst (fold_left scripted_rng_step idx (l, c)) ++ post,
     snd (fold_left scripted_rng_step idx (l, c))).
Proof.
  revert l c. induction idx as [|i idx IH]; intros l c Hidx; [reflexivity|].
  cbn [fold_left]. rewrite scripted_step_pad by (apply Hidx; left; reflexivity).
  pose proof (scripted_step_length l c i) as H.
  destruct (scripted_rng_step (l, c) i) as [l1 c1]. cbn [fst snd] in *.
  apply IH. intros j Hj. rewrite H. apply Hidx. right. exact Hj.
Qed.

Lemma scripted_fold_app (b1 b2 : list Z) (c : scripted_rng_ctx_t) :
  let r1 := fold_left scripted_rng_step (seq 0 (length b1)) (b1, c) in
  let r2 := fold_left scripted_rng_step (seq 0 (length b2)) (b2, snd r1) in
  fold_left scripted_rng_step (seq 0 (length (b1 ++ b2))) (b1 ++ b2, c)
  = (fst r1 ++ fst r2, snd r2).
Proof.
  cbn zeta. rewrite length_app, seq_app, fold_left_app. cbn [Nat.add].
  rewrite scripted_fold_pad
    by (intros i Hi; apply in_seq in Hi; lia).
  pose proof (scripted_fold_length (seq 0 (length b1)) b1 c) as Hl.
  destruct (fold_left scripted_rng_step (seq 0 (length b1)) (b1, c))
    as [o1 c1]. cbn [fst snd] in *.
  rewrite <- (Nat.add_0_r (length b1)) at 1.
  rewrite <- fmap_add_seq, <- Hl.
  apply scripted_fold_shift.
Qed.

Lemma scripted_rng_ctx (buf : list Z) (e : Env) :
  scripted_rng buf e
  = (fst (fold_left scripted_rng_step (seq 0 (length buf))
            (buf, g_rng_ctx e)),
     set_rng_ctx
       (snd (fold_left scripted_rng_step (seq 0 (length buf))
               (buf, g_rng_ctx e))) e).
Proof.
  unfold scripted_rng.
  destruct (fold_left scripted_rng_step (seq 0 (length buf))
              (buf, g_rng_ctx e)). reflexivity.
Qed.

(** X8: [scripted_rng] is a byte stream: one request for the bytes of two
    buffers laid end to end gives what the two requests, made one after
    the other, give, and leaves the same context behind. *)
Theorem X8_scripted_rng_is_a_stream (b1 b2 : list Z) (e : Env) :
  scripted_rng (b1 ++ b2) e
  = (fst (scripted_rng b1 e)
       ++ fst (scripted_rng b2 (snd (scripted_rng b1 e))),
     snd (scripted_rng b2 (snd (scripted_rng b1 e)))).
Proof.
  rewrite !scripted_rng_ctx. cbn [fst snd].
  pose proof (scripted_fold_app b1 b2 (g_rng_ctx e)) as H. cbn zeta in H.
  rewrite H. destruct e. reflexivity.
Qed.

Lemma scripted_fold_cons (b : Z) (buf : list Z) (c : scripted_rng_ctx_t) :
  fold_left scripted_rng_step (seq 0 (length (b :: buf))) (b :: buf, c)
  = (fst (scripted_rng_step ([b], c) 0)
       ++ fst (fold_left scripted_rng_step (seq 0 (length buf))
                 (buf, snd (scripted_rng_step ([b], c) 0))),
     snd (fold_left scripted_rng_step (seq 0 (length buf))
            (buf, snd (scripted_rng_step ([b], c) 0)))).
Proof. exact (scripted_fold_app [b] buf c). Qed.

Lemma scripted_step_in_script (b : Z) (c : scripted_rng_ctx_t) :
  (cursor c < script_len c)%nat ->
  scripted_rng_step ([b], c) 0
  = ([nth (cursor c) (script c) 0],
     {| script := script c; script_len := script_len c;
        cursor := S (cursor c); fallback := fallback c |}).
Proof.
  intros H. unfold scripted_rng_step.
  destruct (Nat.ltb_spec (cursor c) (script_len c)); [reflexivity | lia].
Qed.

Lemma scripted_step_exhausted (b : Z) (c : scripted_rng_ctx_t) :
  (script_len c <= cursor c)%nat ->
  scripted_rng_step ([b], c) 0
  = ([fallback c],
     {| script := script c; script_len := script_len c;
        cursor := cursor c; fallback := u8 (fallback c + 1) |}).
Proof.
  intros H. unfold scripted_rng_step.
  destruct (Nat.ltb_spec (cursor c) (script_len c)); [lia | reflexivity].
Qed.

Lemma scripted_fold_in_script (buf : list Z) (c : scripted_rng_ctx_t) :
  (cursor c + length buf <= script_len c)%nat ->
  fold_left scripted_rng_step (seq 0 (length buf)) (buf, c)
  = (map (fun k => nth (cursor c + k) (script c) 0) (seq 0 (length buf)),
     {| script := script c; script_len := script_len c;
        cursor := (cursor c + length buf)%nat; fallback := fallback c |}).
Proof.
  revert c. induction buf as [|b buf IH]; intros c Hlen.
  - cbn. rewrite Nat.add_0_r. destruct c; reflexivity.
  - rewrite scripted_fold_cons. cbn [length] in Hlen.
    rewrite scripted_step_in_script by lia. cbn [fst snd].
    rewrite IH by (cbn [cursor script_len]; lia).
    cbn [fst snd cursor script script_len fallback map app length seq].
    rewrite Nat.add_0_r. f_equal.
    + f_equal. rewrite <- fmap_S_seq.
      change (S <$> seq 0 (length buf)) with (map S (seq 0 (length buf))).
      rewrite map_map. apply map_ext. intros k. f_equal. lia.
    + f_equal. lia.
Qed.

Lemma scripted_fold_exhausted (buf : list Z) (c : scripted_rng_ctx_t) :
  (script_len c <= cursor c)%nat ->
  0 <= fallback c < 256 ->
  fold_left scripted_rng_step (seq 0 (length buf)) (buf, c)
  = (map (fun k => (fallback c + Z.of_nat k) mod 256) (seq 0 (length buf)),
     {| script := script c; script_len := script_len c;
        cursor := cursor c;
        fallback := (fallback c + Z.of_nat (length buf)) mod 256 |}).
Proof.
  revert c. induction buf as [|b buf IH]; intros c Hlen Hfb.
  - cbn. rewrite Z.add_0_r, Z.mod_small by lia. destruct c; reflexivity.
  - rewrite scripted_fold_cons.
    rewrite scripted_step_exhausted by lia. cbn [fst snd].
    rewrite IH
      by (cbn [cursor script_len fallback]; first [lia | apply u8_range]).
    cbn [fst snd cursor script script_len fallback map app length seq].
    rewrite Z.add_0_r, (Z.mod_small (fallback c)) by lia. f_equal.
    + f_equal. rewrite <- fmap_S_seq.
      change (S <$> seq 0 (length buf)) with (map S (seq 0 (length buf))).
      rewrite map_map. apply map_ext. intros k. unfold u8.
      change (2 ^ 8) with 256. rewrite Zplus_mod_idemp_l. f_equal. lia.
    + f_equal. unfold u8. change (2 ^ 8) with 256.
      rewrite Zplus_mod_idemp_l. f_equal. lia.
Qed.

Lemma map_nth_seq_take (l : list Z) (m : nat) :
  (m <= length l)%nat ->
  map (fun k => nth k l 0) (seq 0 m) = take m l.
Proof.
  intros H. apply list_eq. intros i.
  change (map (fun k => nth k l 0) (seq 0 m))
    with ((fun k => nth k l 0) <$> seq 0 m).
  rewrite list_lookup_fmap.
  destruct (Nat.lt_ge_cases i m) as [Hi | Hi].
  - rewrite lookup_seq_lt, lookup_take_lt by lia. cbn.
    destruct (nth_lookup_or_length l i 0) as [-> | ?]; [reflexivity | lia].
  - rewrite lookup_seq_ge, lookup_take_ge by lia. reflexivity.
Qed.

(** X9: what the harness loads is what the generator's fills read back.
    After [rng_load_script(data, len, fallback_start)] a fill of any length
    returns the first [min len 128] bytes of [data] (a longer script is
    cut to the 128-byte array) and, once those are used up, the counter
    [fallback_start], [fallback_start + 1], ... modulo 256. *)
Theorem X9_loaded_script_is_replayed (d buf : list Z) (len : nat) (fb : Z)
    (w : World) :
  (len <= length d)%nat ->
  let n := Nat.min len 128 in
  fst (_fill_random buf (rng_load_script (Some d) len fb w))
  = map u8 (take (Nat.min n (length buf)) d)
      ++ map (fun k => (fb + Z.of_nat k) mod 256) (seq 0 (length buf - n)).
Proof.
  intros Hd n.
  assert (Hclamp : (if (128 <? len)%nat then 128%nat else len) = n).
  { unfold n. destruct (Nat.ltb_spec 128 len); lia. }
  unfold _fill_random, rng_load_script. rewrite Hclamp.
  destruct buf as [|b0 buf0] eqn:Ebuf.
  { cbn. rewrite Nat.min_0_r. reflexivity. }
  rewrite <- Ebuf.
  assert (Hne : (length buf =? 0)%nat = false) by (subst buf; reflexivity).
  rewrite Hne. clear Hne Ebuf b0 buf0.
  destruct w as [st p e]. destruct e as [ck tk sg so sr ctx arb].
  cbn [uuid7_set_rng store_uuid_rng set_env set_rng_ctx snd load_uuid_rng
       g_uuid_rng_ptr env g_v7_state call_rng clock tick sys_getrandom
       sys_open sys_read g_rng_ctx auto_rb].
  rewrite scripted_rng_ctx. cbn [fst snd g_rng_ctx].
  set (arr := if (n =? 0)%nat then script ctx
              else map u8 (take n d) ++ drop n (script ctx)).
  set (c := {| script := arr; script_len := n; cursor := 0;
               fallback := u8 fb |}).
  change (g_rng_ctx (set_rng_ctx c _)) with c.
  pose proof (scripted_fold_app (take n buf) (drop n buf) c) as H.
  cbn zeta in H. rewrite take_drop in H. rewrite H. clear H. cbn [fst].
  rewrite scripted_fold_in_script
    by (cbn [cursor script_len c]; rewrite length_take; lia).
  cbn [fst snd cursor script script_len fallback c Nat.add].
  f_equal.
  - rewrite length_take. destruct (Nat.eqb_spec n 0) as [Hn | Hn].
    + rewrite Hn. cbn. reflexivity.
    + unfold arr. destruct (Nat.eqb_spec n 0); [lia|].
      assert (Hl : length (map u8 (take n d)) = n)
        by (rewrite length_map, length_take; lia).
      rewrite map_nth_seq_take by (rewrite length_app; lia).
      rewrite take_app_le by lia.
      change (map u8 (take n d)) with (u8 <$> take n d).
      rewrite <- fmap_take, take_take.
      replace (Nat.min (Nat.min n (length buf)) n)
        with (Nat.min n (length buf)) by lia.
      reflexivity.
  - destruct (Nat.le_gt_cases (length buf) n) as [Hle | Hgt].
    + replace (length buf - n)%nat with 0%nat by lia.
      rewrite drop_ge by lia. reflexivity.
    + rewrite length_take.
      rewrite scripted_fold_exhausted;
        cbn [fst cursor script_len fallback];
        [| lia | apply u8_range].
      rewrite length_drop. apply map_ext. intros k. unfold u8.
      change (2 ^ 8) with 256. rewrite Zplus_mod_idemp_l. reflexivity.
Qed.

Lemma X9_loaded_script_is_replayed_witness :
  fst (_fill_random [0; 0; 0; 0; 0]
         (rng_load_script (Some [300; 2; 3]) 3 255 (fresh_world 5)))
  = [44; 2; 3; 255; 0].
Proof.
  exact (X9_loaded_script_is_replayed [300; 2; 3] [0; 0; 0; 0; 0] 3 255
           (fresh_world 5) ltac:(cbn; lia)).
Defined.

(** ** The clock *)

(** X10: for a normalised [timespec] of a time on or after the epoch,
    [_realtime_ms] is the number of whole milliseconds since the epoch
    (nanoseconds are cut, not rounded, and nothing wraps); the call takes
    one sample of the clock and touches neither the register nor the
    provider. *)
Theorem X10_realtime_ms_whole_milliseconds (w : World) :
  let ts := clock (env w) (tick (env w)) in
  0 <= tv_sec ts < 2 ^ 54 ->
  0 <= tv_nsec ts < 1000000000 ->
  fst (_realtime_ms w) = (tv_sec ts * 1000000000 + tv_nsec ts) / 1000000 /\
  tick (env (snd (_realtime_ms w))) = S (tick (env w)) /\
  g_v7_state (snd (_realtime_ms w)) = g_v7_state w /\
  g_uuid_rng_ptr (snd (_realtime_ms w)) = g_uuid_rng_ptr w.
Proof.
  intros ts Hs Hn. unfold _realtime_ms. fold ts. cbn [fst snd].
  split; [|destruct w as [st p e]; destruct e; repeat split].
  rewrite Z.quot_div_nonneg by lia. unfold u64.
  assert (Hq : 0 <= tv_nsec ts / 1000000 < 1000).
  { split; [apply Z.div_pos; lia|].
    apply Z.div_lt_upper_bound; lia. }
  change (2 ^ 54) with 18014398509481984 in Hs.
  change (2 ^ 64) with 18446744073709551616.
  rewrite (Z.mod_small (tv_sec ts)) by lia.
  rewrite (Z.mod_small (tv_nsec ts / 1000000)) by lia.
  rewrite Z.mod_small by lia.
  replace (tv_sec ts * 1000000000 + tv_nsec ts)
    with (tv_nsec ts + (tv_sec ts * 1000) * 1000000) by lia.
  rewrite Z.div_add by lia. lia.
Qed.

Lemma X10_realtime_ms_whole_milliseconds_witness :
  fst (_realtime_ms (fresh_world 1999)) = 1999.
Proof.
  exact (proj1 (X10_realtime_ms_whole_milliseconds (fresh_world 1999)
                  ltac:(vm_compute; split; [discriminate | reflexivity])
                  ltac:(vm_compute; split; [discriminate | reflexivity]))).
Defined.

(** ** [fill_random] and [uuid_v4] of the application variant *)

Lemma fold_insert_seq (f : nat -> Z) (n : nat) (p : list Z) :
  (n <= length p)%nat ->
  fold_left (fun q i => <[i := f i]> q) (seq 0 n) p
  = map f (seq 0 n) ++ drop n p.
Proof.
  induction n as [|n IH]; intros Hn; [reflexivity|].
  rewrite seq_S, fold_left_app, IH by lia. cbn [Nat.add fold_left].
  rewrite insert_app_r_alt by (rewrite length_map, length_seq; lia).
  rewrite length_map, length_seq, Nat.sub_diag, map_app. cbn [map].
  destruct (drop n p) as [|x tl] eqn:E.
  { apply (f_equal length) in E. rewrite length_drop in E. cbn in E. lia. }
  cbn. rewrite <- app_assoc. cbn [app]. do 2 f_equal.
  change (S n) with (1 + n)%nat. rewrite Nat.add_comm, <- drop_drop, E.
  reflexivity.
Qed.

Lemma weak_fill_pattern (p : list Z) :
  Variant.weak_fill p
  = map (fun i => u8 (Z.lxor 165 (u64 (Z.of_nat i * 41))))
        (seq 0 (length p)).
Proof.
  unfold Variant.weak_fill.
  rewrite (fold_insert_seq
             (fun i => u8 (Z.lxor 165 (u64 (Z.of_nat i * 41))))) by lia.
  rewrite drop_ge, app_nil_r by lia. reflexivity.
Qed.

Lemma read_all_agree (answers : list sys_ret) (off : nat) (p p' : list Z) :
  length p' = length p -> (off <= length p)%nat ->
  take off p' = take off p ->
  let r := Variant.read_all answers off p in
  let r' := Variant.read_all answers off p' in
  fst (fst r') = fst (fst r) /\ snd r' = snd r /\
  length (snd (fst r)) = length p /\
  (fst (fst r) = 0 \/ fst (fst r) = -1) /\
  (fst (fst r) = 0 -> snd (fst r') = snd (fst r)).
Proof.
  revert off p p'.
  induction answers as [|a answers IH]; intros off p p' Hlen Hoff Htake;
    cbn zeta; cbn [Variant.read_all]; rewrite Hlen.
  - destruct (Nat.leb_spec (length p) off) as [Hle | Hlt]; cbn [fst snd].
    + repeat split; auto. intros _.
      rewrite <- (take_ge p off), <- (take_ge p' off) by lia. exact Htake.
    + repeat split; auto. discriminate.
  - destruct (Nat.leb_spec (length p) off) as [Hle | Hlt].
    { cbn [fst snd]. repeat split; auto. intros _.
      rewrite <- (take_ge p off), <- (take_ge p' off) by lia. exact Htake. }
    destruct a as [| |bs]; cbn [fst snd];
      try (repeat split; auto; discriminate).
    pose proof (deliver_count bs off p) as Hc.
    pose proof (deliver_count bs off p') as Hc'.
    pose proof (deliver_length bs off p Hoff) as Hl.
    pose proof (deliver_length bs off p' ltac:(lia)) as Hl'.
    pose proof (deliver_take bs off p Hoff) as Ht.
    pose proof (deliver_take bs off p' ltac:(lia)) as Ht'.
    destruct (deliver bs off p) as [rd p1].
    destruct (deliver bs off p') as [rd' p1']. cbn [fst snd] in *.
    assert (Hrd : rd' = rd) by lia. clear Hc'. subst rd'.
    destruct (Nat.eqb_spec rd 0) as [Hz | Hnz]; cbn [fst snd].
    { repeat split; auto. discriminate. }
    assert (Hoff1 : (off + rd <= length p1)%nat) by lia.
    assert (Ht1 : take (off + rd) p1' = take (off + rd) p1)
      by (rewrite Ht, Ht', Htake, Hlen; reflexivity).
    specialize (IH (off + rd)%nat p1 p1' ltac:(lia) Hoff1 Ht1).
    cbn zeta in IH. destruct IH as (I1 & I2 & I3 & I4 & I5).
    repeat split; auto. lia.
Qed.

Lemma fill_random_device (q q' : list Z) (e1 : Env) :
  length q' = length q ->
  let t (x : list Z) :=
    match sys_open e1 with
    | true :: rest =>
        let e2 := set_sys_open rest e1 in
        let '(st, p2, ra) := Variant.read_all (sys_read e2) 0 x in
        (st, p2, set_sys_read ra e2)
    | false :: rest => (0, Variant.weak_fill x, set_sys_open rest e1)
    | [] => (0, Variant.weak_fill x, e1)
    end in
  (fst (fst (t q)) = 0 \/ fst (fst (t q)) = -1) /\
  length (snd (fst (t q))) = length q /\
  (fst (fst (t q)) = 0 -> t q' = t q).
Proof.
  intros Hq. cbn zeta.
  destruct (sys_open e1) as [|[|] os].
  - cbn [fst snd]. rewrite !weak_fill_pattern, Hq.
    rewrite length_map, length_seq. auto.
  - pose proof (read_all_agree (sys_read (set_sys_open os e1)) 0 q q'
                  Hq ltac:(lia) ltac:(rewrite !take_0; reflexivity)) as A.
    cbn zeta in A.
    destruct (Variant.read_all (sys_read (set_sys_open os e1)) 0 q)
      as [[st q2] ra].
    destruct (Variant.read_all (sys_read (set_sys_open os e1)) 0 q')
      as [[st' q2'] ra'].
    cbn [fst snd] in *. destruct A as (A1 & A2 & A3 & A4 & A5).
    split; [exact A4|]. split; [lia|].
    intros Hz. rewrite A1, A2, (A5 Hz). reflexivity.
  - cbn [fst snd]. rewrite !weak_fill_pattern, Hq.
    rewrite length_map, length_seq. auto.
Qed.

Lemma fill_random_agree (p p' : list Z) (e : Env) :
  length p' = length p ->
  let r := Variant.fill_random p e in
  (fst (fst r) = 0 \/ fst (fst r) = -1) /\
  length (snd (fst r)) = length p /\
  (fst (fst r) = 0 -> Variant.fill_random p' e = r).
Proof.
  intros Hlen. cbn zeta. unfold Variant.fill_random. rewrite Hlen.
  destruct (sys_getrandom e) as [|[| |bs] rest].
  - exact (fill_random_device p p' e Hlen).
  - exact (fill_random_device p p' (set_sys_getrandom rest e) Hlen).
  - exact (fill_random_device p p' (set_sys_getrandom rest e) Hlen).
  - pose proof (deliver_count bs 0 p) as Hc.
    pose proof (deliver_count bs 0 p') as Hc'.
    pose proof (deliver_length bs 0 p ltac:(lia)) as Hl.
    pose proof (deliver_length bs 0 p' ltac:(lia)) as Hl'.
    pose proof (deliver_take bs 0 p ltac:(lia)) as Ht.
    pose proof (deliver_take bs 0 p' ltac:(lia)) as Ht'.
    destruct (deliver bs 0 p) as [r q].
    destruct (deliver bs 0 p') as [r' q']. cbn [fst snd] in *.
    assert (Hr : r' = r) by lia. clear Hc'. subst r'.
    destruct (Nat.eqb_spec r (length p)) as [Hfull | Hshort].
    + cbn [fst snd]. split; [auto|]. split; [exact Hl|]. intros _.
      rewrite take_ge in Ht, Ht' by lia.
      rewrite Ht, Ht', Hlen. reflexivity.
    + rewrite <- Hl.
      exact (fill_random_device q q' (set_sys_getrandom rest e)
               ltac:(lia)).
Qed.

(** X11: a [fill_random] that reports success has overwritten the whole
    buffer.  The status is 0 or -1 and the length never changes; when the
    status is 0 the bytes and the kernel state left behind are the same
    whatever the buffer held before the call. *)
Theorem X11_fill_random_success_overwrites (p p' : list Z) (e : Env) :
  length p' = length p ->
  let r := Variant.fill_random p e in
  (fst (fst r) = 0 \/ fst (fst r) = -1) /\
  length (snd (fst r)) = length p /\
  (fst (fst r) = 0 -> Variant.fill_random p' e = r).
Proof. exact (fill_random_agree p p' e). Qed.

Lemma X11_fill_random_success_overwrites_witness :
  Variant.fill_random [9; 9; 9]
    (set_sys_getrandom [RET [1; 2; 3; 4]] (quiet_env 5))
  = Variant.fill_random [0; 0; 0]
      (set_sys_getrandom [RET [1; 2; 3; 4]] (quiet_env 5)).
Proof.
  exact (proj2 (proj2 (X11_fill_random_success_overwrites
                  [0; 0; 0] [9; 9; 9]
                  (set_sys_getrandom [RET [1; 2; 3; 4]] (quiet_env 5))
                  eq_refl)) eq_refl).
Defined.

Lemma v4_version_byte (x : Z) :
  u8 (Z.lor (Z.land x 15) 64) = 64 + x mod 16.
Proof.
  unfold u8. change 15 with (2 ^ 4 - 1). rewrite land_low_bits by lia.
  pose proof (Z.mod_pos_bound x (2 ^ 4)).
  rewrite Z.lor_comm. change 64 with (4 * 2 ^ 4).
  rewrite lor_shifted_low by lia.
  change (2 ^ 4) with 16 in *. apply Z.mod_small. lia.
Qed.

(** X12: [uuid_v4] returns the status of its [fill_random(out, 16)] and
    never touches what lies beyond the sixteen bytes.  On status 0 byte 6
    carries version 4 over the low nibble that was drawn, byte 8 carries
    variant [10] over the low six bits that were drawn, and the other
    fourteen bytes are the drawn ones. *)
Theorem X12_uuid_v4_version_and_variant (out : list Z) (e : Env) :
  (16 <= length out)%nat ->
  let r := AppUuid.uuid_v4 out e in
  let f := Variant.fill_random (take 16 out) e in
  fst (fst r) = fst (fst f) /\ snd r = snd f /\
  length (snd (fst r)) = length out /\
  drop 16 (snd (fst r)) = drop 16 out /\
  (fst (fst r) = 0 ->
   nth 6 (snd (fst r)) 0 = 64 + nth 6 (snd (fst f)) 0 mod 16 /\
   nth 8 (snd (fst r)) 0 = 128 + nth 8 (snd (fst f)) 0 mod 64 /\
   forall i, i <> 6%nat -> i <> 8%nat -> (i < 16)%nat ->
             snd (fst r) !! i = snd (fst f) !! i).
Proof.
  intros Hlen. cbn zeta. unfold AppUuid.uuid_v4.
  pose proof (fill_random_agree (take 16 out) (take 16 out) e eq_refl) as F.
  cbn zeta in F.
  destruct (Variant.fill_random (take 16 out) e) as [[st p] e1].
  cbn [fst snd] in *. destruct F as (Fs & Fl & _).
  rewrite length_take in Fl.
  assert (Hp : length p = 16%nat) by lia. clear Fl.
  assert (Hd : length (drop 16 out) = (length out - 16)%nat)
    by apply length_drop.
  do 16 (destruct p as [|? p]; [cbn in Hp; lia|]).
  destruct p; [|cbn in Hp; lia].
  destruct Fs as [-> | ->]; cbn [Z.eqb negb fst snd].
  - split; [reflexivity|]. split; [reflexivity|].
    split; [cbn; lia|]. split; [reflexivity|]. intros _.
    cbn [app nth]. rewrite v4_version_byte, variant_byte.
    split; [reflexivity|]. split; [reflexivity|].
    intros i H6 H8 Hi.
    do 16 (destruct i as [|i]; [first [reflexivity | congruence]|]). lia.
  - split; [reflexivity|]. split; [reflexivity|].
    split; [cbn; lia|]. split; [reflexivity|]. discriminate.
Qed.

Lemma X12_uuid_v4_version_and_variant_witness :
  fst (fst (AppUuid.uuid_v4 zeros16
              (set_sys_getrandom [RET (replicate 16 255)] (quiet_env 5))))
  = 0 /\
  nth 6 (snd (fst (AppUuid.uuid_v4 zeros16
              (set_sys_getrandom [RET (replicate 16 255)] (quiet_env 5)))))
      0 = 79.
Proof.
  pose proof (X12_uuid_v4_version_and_variant zeros16
                (set_sys_getrandom [RET (replicate 16 255)] (quiet_env 5))
                ltac:(cbn; lia)) as (H1 & _ & _ & _ & H5).
  split; [exact H1 | exact (proj1 (H5 H1))].
Defined.

Lemma weak_fill_16 :
  map (fun i => u8 (Z.lxor 165 (u64 (Z.of_nat i * 41)))) (seq 0 16)
  = [165; 140; 247; 222; 1; 104; 83; 186; 237; 212; 63; 102; 73; 176; 155;
     194].
Proof. vm_compute. reflexivity. Qed.

(** X13: without entropy [uuid_v4] reports success and hands out one
    fixed identifier.  When [getrandom] does not deliver sixteen bytes and
    [/dev/urandom] cannot be opened, the status is 0 and the sixteen bytes
    are [a58cf7de-0168-43ba-add4-3f6649b09bc2], whatever the buffer held
    and on every call. *)
Theorem X13_uuid_v4_without_entropy (out : list Z) (e : Env) :
  (16 <= length out)%nat ->
  (forall bs rest, sys_getrandom e = RET bs :: rest ->
                   (length bs < 16)%nat) ->
  hd false (sys_open e) = false ->
  fst (AppUuid.uuid_v4 out e)
  = (0, [165; 140; 247; 222; 1; 104; 67; 186; 173; 212; 63; 102; 73; 176;
         155; 194] ++ drop 16 out).
Proof.
  intros Hlen Hg Ho. unfold AppUuid.uuid_v4, Variant.fill_random.
  assert (Ht : length (take 16 out) = 16%nat) by (rewrite length_take; lia).
  rewrite Ht.
  assert (E : forall p1 e1, length p1 = 16%nat ->
            hd false (sys_open e1) = false ->
            fst (let '(st, p, e2) :=
                   match sys_open e1 with
                   | true :: rest =>
                       let e2 := set_sys_open rest e1 in
                       let '(st, p2, ra) :=
                         Variant.read_all (sys_read e2) 0 p1 in
                       (st, p2, set_sys_read ra e2)
                   | false :: rest =>
                       (0, Variant.weak_fill p1, set_sys_open rest e1)
                   | [] => (0, Variant.weak_fill p1, e1)
                   end in
                 let out0 := p ++ drop 16 out in
                 if negb (st =? 0) then (-1, out0, e2)
                 else
                   let out1 :=
                     <[6%nat := u8 (Z.lor (Z.land (nth 6 out0 0) 15) 64)]>
                       out0 in
                   let out2 :=
                     <[8%nat := u8 (Z.lor (Z.land (nth 8 out1 0) 63) 128)]>
                       out1 in
                   (0, out2, e2))
            = (0, [165; 140; 247; 222; 1; 104; 67; 186; 173; 212; 63; 102;
                   73; 176; 155; 194] ++ drop 16 out)).
  { intros p1 e1 Hp Hopen.
    destruct (sys_open e1) as [|[|] os]; [| discriminate |];
      rewrite weak_fill_pattern, Hp, weak_fill_16; reflexivity. }
  destruct (sys_getrandom e) as [|[| |bs] rest] eqn:Eg.
  - apply E; assumption.
  - apply E; [assumption | destruct e; exact Ho].
  - apply E; [assumption | destruct e; exact Ho].
  - specialize (Hg bs rest eq_refl).
    pose proof (deliver_count bs 0 (take 16 out)) as Hc.
    pose proof (deliver_length bs 0 (take 16 out) ltac:(lia)) as Hl.
    destruct (deliver bs 0 (take 16 out)) as [r q]. cbn [fst snd] in *.
    destruct (Nat.eqb_spec r 16) as [Hfull | _]; [lia|].
    apply E; [lia | destruct e; exact Ho].
Qed.

Lemma X13_uuid_v4_without_entropy_witness :
  fst (AppUuid.uuid_v4 (replicate 17 9) (quiet_env 5))
  = (0, [165; 140; 247; 222; 1; 104; 67; 186; 173; 212; 63; 102; 73; 176;
         155; 194; 9]).
Proof.
  exact (X13_uuid_v4_without_entropy (replicate 17 9) (quiet_env 5)
           ltac:(cbn; lia) ltac:(intros bs rest H; discriminate H) eq_refl).
Defined.

(** ** [uuid_v7] of the application variant *)

Lemma app_version_byte (seq12 : Z) :
  u8 (Z.lor 112 (Z.land (Z.shiftr seq12 8) 15)) = 112 + (seq12 / 256) mod 16.
Proof.
  unfold u8. change 15 with (2 ^ 4 - 1). rewrite land_low_bits by lia.
  rewrite Z.shiftr_div_pow2 by lia.
  change (2 ^ 8) with 256.
  pose proof (Z.mod_pos_bound (seq12 / 256) (2 ^ 4)).
  change 112 with (7 * 2 ^ 4).
  rewrite lor_shifted_low by lia.
  change (2 ^ 4) with 16 in *. apply Z.mod_small. lia.
Qed.

Lemma app_seq_low_byte (seq12 : Z) : u8 (Z.land seq12 255) = seq12 mod 256.
Proof.
  unfold u8. change 255 with (2 ^ 8 - 1).
  rewrite land_low_bits by lia. rewrite Z.mod_mod by lia. reflexivity.
Qed.

Lemma store_v7_layout (use_ms seq12 : Z) (rb out : list Z) :
  0 <= use_ms < 2 ^ 64 -> (16 <= length out)%nat ->
  AppUuid.store_v7 use_ms seq12 rb out
  = layout use_ms seq12 rb ++ drop 16 out.
Proof.
  intros Hms Hlen.
  do 16 (destruct out as [|? out]; [simpl in Hlen; lia|]).
  unfold AppUuid.store_v7, layout, V7_MS_BYTE, u64.
  rewrite (Z.mod_small use_ms) by lia.
  rewrite <- app_version_byte, <- app_seq_low_byte, <- variant_byte.
  reflexivity.
Qed.

Lemma store_v7_byte6 (use_ms seq12 : Z) (rb out : list Z) :
  (16 <= length out)%nat ->
  take 16 (AppUuid.store_v7 use_ms seq12 rb out) !! 6%nat
  = Some (112 + (seq12 / 256) mod 16).
Proof.
  intros Hlen.
  do 16 (destruct out as [|? out]; [simpl in Hlen; lia|]).
  unfold AppUuid.store_v7. rewrite <- app_version_byte. reflexivity.
Qed.

Lemma store_v7_fresh (use_ms seq12 : Z) (rb out : list Z) :
  (16 <= length out)%nat ->
  take 16 zeros16 <> take 16 (AppUuid.store_v7 use_ms seq12 rb out).
Proof.
  intros Hlen E. apply (f_equal (fun l => l !! 6%nat)) in E.
  rewrite store_v7_byte6 in E by exact Hlen.
  pose proof (Z.mod_pos_bound (seq12 / 256) 16 ltac:(lia)).
  cbn in E. injection E as E. lia.
Qed.

Lemma uuid_v7_turn_cas (now_ms prev : Z) :
  let prev_ms := Z.shiftr prev 12 in
  let use_ms := if now_ms >? prev_ms then now_ms else prev_ms in
  let next_seq :=
    if use_ms =? prev_ms then u16 (u16 (Z.land prev 4095) + 1) else 0 in
  Variant.uuid_v7_turn now_ms prev
  = Variant.TryCas prev (Z.lor (u64 (Z.shiftl use_ms 12)) next_seq) next_seq.
Proof.
  cbn zeta.
  pose proof (uuid_v7_wrap_never_detected now_ms prev (Z.shiftr prev 12))
    as H.
  unfold Variant.uuid_v7_turn in *.
  destruct ((if now_ms >? Z.shiftr prev 12 then now_ms
             else Z.shiftr prev 12) =? Z.shiftr prev 12); cbn [andb] in *.
  - destruct (u16 (u16 (Z.land prev 4095) + 1) =? 0);
      [contradiction | reflexivity].
  - reflexivity.
Qed.

Lemma set_tick_set_tick (a b : nat) (e : Env) :
  set_tick a (set_tick b e) = set_tick a e.
Proof. destruct e. reflexivity. Qed.

Lemma set_tick_same (e : Env) : set_tick (tick e) e = e.
Proof. destruct e. reflexivity. Qed.

(** What a call of [uuid_v7] comes to when [last_id] is still what it was
    at program start: [k] failed compare-exchanges, then one commit. *)
Lemma uuid_v7_run (k : nat) (out : list Z) (s : AppUuid.state) :
  AppUuid.last_id s = zeros16 -> (16 <= length out)%nat ->
  let e := AppUuid.env s in
  let now_ms := fst (AppUuid.realtime_ms (set_tick (tick e + k) e)) in
  let e0 := set_tick (tick e + S k) e in
  let prev := AppUuid.g_v7_state s in
  let prev_ms := Z.shiftr prev 12 in
  let use_ms := if now_ms >? prev_ms then now_ms else prev_ms in
  let next_seq :=
    if use_ms =? prev_ms then u16 (u16 (Z.land prev 4095) + 1) else 0 in
  let next := Z.lor (u64 (Z.shiftl use_ms 12)) next_seq in
  let f := Variant.fill_random (rb_indeterminate e0) e0 in
  let s' := {| AppUuid.g_v7_state := next; AppUuid.last_id := zeros16;
               AppUuid.env := snd f |} in
  AppUuid.uuid_v7 (S k) k out s
  = Some (if negb (fst (fst f) =? 0) then (-1, out, s')
          else (0, AppUuid.store_v7 use_ms next_seq (snd (fst f)) out, s')).
Proof.
  revert s. induction k as [|k IH]; intros s Hid Hlen; cbn zeta.
  - cbn [AppUuid.uuid_v7]. unfold AppUuid.realtime_ms at 1.
    rewrite Nat.add_0_r, set_tick_same.
    pose proof (uuid_v7_turn_cas
                  (fst (AppUuid.realtime_ms (AppUuid.env s)))
                  (AppUuid.g_v7_state s)) as T. cbn zeta in T.
    unfold AppUuid.realtime_ms in T at 1. cbn [fst] in T.
    unfold AppUuid.realtime_ms at 1 2 3 4. cbn [fst].
    rewrite T. clear T. rewrite Nat.add_1_r.
    destruct (Variant.fill_random _ _) as [[st rb] e1]. cbn [fst snd].
    rewrite Hid.
    destruct (negb (st =? 0)); [reflexivity|].
    rewrite bool_decide_eq_false_2 by (apply store_v7_fresh, Hlen).
    reflexivity.
  - cbn [AppUuid.uuid_v7]. unfold AppUuid.realtime_ms at 1.
    rewrite uuid_v7_turn_cas.
    specialize (IH {| AppUuid.g_v7_state := AppUuid.g_v7_state s;
                      AppUuid.last_id := AppUuid.last_id s;
                      AppUuid.env :=
                        set_tick (S (tick (AppUuid.env s)))
                                 (AppUuid.env s) |} Hid Hlen).
    cbn zeta in IH. cbn [AppUuid.env AppUuid.g_v7_state] in IH.
    rewrite !set_tick_set_tick in IH.
    assert (Ht : tick (set_tick (S (tick (AppUuid.env s))) (AppUuid.env s))
                 = S (tick (AppUuid.env s)))
      by (destruct (AppUuid.env s); reflexivity).
    rewrite Ht in IH.
    replace (S (tick (AppUuid.env s)) + k)%nat
      with (tick (AppUuid.env s) + S k)%nat in IH by lia.
    replace (S (tick (AppUuid.env s)) + S k)%nat
      with (tick (AppUuid.env s) + S (S k))%nat in IH by lia.
    exact IH.
Qed.

Lemma fill_random_clock (p : list Z) (e : Env) :
  clock (snd (Variant.fill_random p e)) = clock e /\
  tick (snd (Variant.fill_random p e)) = tick e.
Proof.
  unfold Variant.fill_random.
  destruct e as [ck tk sg so sr ctx arb]. cbn [sys_getrandom].
  assert (H : forall sg' q,
    let e1 := {| clock := ck; tick := tk; sys_getrandom := sg';
                 sys_open := so; sys_read := sr; g_rng_ctx := ctx;
                 auto_rb := arb |} in
    let r := match sys_open e1 with
             | true :: rest =>
                 let e2 := set_sys_open rest e1 in
                 let '(st, p2, ra) := Variant.read_all (sys_read e2) 0 q in
                 (st, p2, set_sys_read ra e2)
             | false :: rest => (0, Variant.weak_fill q, set_sys_open rest e1)
             | [] => (0, Variant.weak_fill q, e1)
             end in
    clock (snd r) = ck /\ tick (snd r) = tk).
  { intros sg' q. cbn zeta. cbn [sys_open].
    destruct so as [|[|] os]; cbn; auto.
    destruct (Variant.read_all sr 0 q) as [[st q2] ra]. cbn. auto. }
  destruct sg as [|[| |bs] rest]; cbn [set_sys_getrandom];
    try apply H.
  destruct (deliver bs 0 p) as [r q].
  destruct (r =? length p)%nat; [cbn; auto | apply H].
Qed.

Lemma store_v7_tail (use_ms seq12 : Z) (rb out : list Z) :
  length (AppUuid.store_v7 use_ms seq12 rb out) = length out /\
  drop 16 (AppUuid.store_v7 use_ms seq12 rb out) = drop 16 out.
Proof.
  unfold AppUuid.store_v7. rewrite !length_insert. split; [reflexivity|].
  rewrite !drop_insert_lt by lia. reflexivity.
Qed.

Lemma store_v7_fixed (use_ms seq12 : Z) (rb out : list Z) :
  (16 <= length out)%nat ->
  Z.shiftr (nth 6 (AppUuid.store_v7 use_ms seq12 rb out) 0) 4 = 7 /\
  Z.shiftr (nth 8 (AppUuid.store_v7 use_ms seq12 rb out) 0) 6 = 2.
Proof.
  intros Hlen.
  do 16 (destruct out as [|? out]; [simpl in Hlen; lia|]).
  unfold AppUuid.store_v7. cbn [nth insert list_insert].
  rewrite app_version_byte, variant_byte.
  rewrite !Z.shiftr_div_pow2 by lia.
  change (2 ^ 4) with 16. change (2 ^ 6) with 64.
  pose proof (Z.mod_pos_bound (seq12 / 256) 16 ltac:(lia)).
  pose proof (Z.mod_pos_bound (nth 0 rb 0) 64 ltac:(lia)).
  split; symmetry.
  - apply Z.div_unique with (r := (seq12 / 256) mod 16); lia.
  - apply Z.div_unique with (r := nth 0 rb 0 mod 64); lia.
Qed.

(** X14: [uuid_v7] returns after as many loop turns as compare-exchanges
    fail plus one: neither the busy-wait nor the [goto restart] is ever
    taken, and [last_id] stays zero.  The status is 0 or -1; the register
    holds the word the last turn computed in both cases, so on -1 the
    reservation is spent although the caller's buffer is untouched.  On 0
    only the first sixteen bytes are written and they carry version 7 and
    variant [10]. *)
Theorem X14_uuid_v7_returns (k : nat) (out : list Z) (s : AppUuid.state) :
  AppUuid.last_id s = zeros16 -> (16 <= length out)%nat ->
  exists st out' s' now_ms seq12,
    AppUuid.uuid_v7 (S k) k out s = Some (st, out', s') /\
    Variant.uuid_v7_turn now_ms (AppUuid.g_v7_state s)
    = Variant.TryCas (AppUuid.g_v7_state s) (AppUuid.g_v7_state s') seq12 /\
    AppUuid.last_id s' = zeros16 /\
    tick (AppUuid.env s') = (tick (AppUuid.env s) + S k)%nat /\
    length out' = length out /\ drop 16 out' = drop 16 out /\
    (st = 0 \/ st = -1) /\
    (st = -1 -> out' = out) /\
    (st = 0 -> Z.shiftr (nth 6 out' 0) 4 = 7 /\
               Z.shiftr (nth 8 out' 0) 6 = 2).
Proof.
  intros Hid Hlen.
  pose proof (uuid_v7_run k out s Hid Hlen) as R. cbn zeta in R.
  set (e := AppUuid.env s) in *.
  set (now_ms := fst (AppUuid.realtime_ms (set_tick (tick e + k) e))) in *.
  pose proof (uuid_v7_turn_cas now_ms (AppUuid.g_v7_state s)) as T.
  cbn zeta in T.
  set (prev_ms := Z.shiftr (AppUuid.g_v7_state s) 12) in *.
  set (use_ms := if now_ms >? prev_ms then now_ms else prev_ms) in *.
  set (next_seq := if use_ms =? prev_ms
                   then u16 (u16 (Z.land (AppUuid.g_v7_state s) 4095) + 1)
                   else 0) in *.
  set (e0 := set_tick (tick e + S k) e) in *.
  pose proof (fill_random_agree (rb_indeterminate e0) (rb_indeterminate e0)
                e0 eq_refl) as F. cbn zeta in F.
  pose proof (fill_random_clock (rb_indeterminate e0) e0) as [_ Ftick].
  destruct (Variant.fill_random (rb_indeterminate e0) e0) as [[st rb] e1].
  cbn [fst snd] in *. destruct F as (Fs & _ & _).
  assert (Htick : tick e1 = (tick e + S k)%nat).
  { rewrite Ftick. unfold e0. destruct e; reflexivity. }
  destruct Fs as [-> | ->]; cbn [Z.eqb negb] in R.
  - pose proof (store_v7_tail use_ms next_seq rb out) as [L D].
    pose proof (store_v7_fixed use_ms next_seq rb out Hlen) as Fx.
    eexists 0, _, _, now_ms, next_seq. split; [exact R|].
    cbn [AppUuid.g_v7_state AppUuid.last_id AppUuid.env].
    repeat split; auto; try apply Fx. discriminate.
  - eexists (-1), _, _, now_ms, next_seq. split; [exact R|].
    cbn [AppUuid.g_v7_state AppUuid.last_id AppUuid.env].
    repeat split; auto; discriminate.
Qed.

Lemma X14_uuid_v7_returns_witness :
  exists st out' s' now_ms seq12,
    AppUuid.uuid_v7 3 2 zeros16 (app_state 0 1000) = Some (st, out', s') /\
    Variant.uuid_v7_turn now_ms 0
    = Variant.TryCas 0 (AppUuid.g_v7_state s') seq12 /\
    AppUuid.last_id s' = zeros16 /\
    tick (AppUuid.env s') = 3%nat /\
    length out' = 16%nat /\ drop 16 out' = [] /\
    (st = 0 \/ st = -1) /\
    (st = -1 -> out' = zeros16) /\
    (st = 0 -> Z.shiftr (nth 6 out' 0) 4 = 7 /\
               Z.shiftr (nth 8 out' 0) 6 = 2).
Proof.
  exact (X14_uuid_v7_returns 2 zeros16 (app_state 0 1000) eq_refl
           ltac:(cbn; lia)).
Defined.

Lemma layout_seq_mod (m sq : Z) (rb : list Z) :
  layout m sq rb = layout m (sq mod 4096) rb.
Proof.
  unfold layout.
  assert (E : sq = sq mod 4096 + (sq / 4096 * 16) * 256)
    by (pose proof (Z.div_mod sq 4096 ltac:(lia)); lia).
  assert (H1 : (sq / 256) mod 16 = (sq mod 4096 / 256) mod 16).
  { rewrite E at 1. rewrite Z.div_add by lia.
    rewrite Z.mod_add by lia. reflexivity. }
  assert (H2 : sq mod 256 = (sq mod 4096) mod 256).
  { rewrite E at 1. rewrite Z.mod_add by lia. reflexivity. }
  rewrite H1, H2. reflexivity.
Qed.

Lemma store_v7_emitted (m sq : Z) (rb out : list Z) :
  0 <= m < 2 ^ 52 -> (16 <= length out)%nat ->
  AppUuid.store_v7 m sq rb out = Interleaving.emitted (V7_PACK m sq) rb out.
Proof.
  intros Hm Hlen.
  rewrite store_v7_layout by (try exact Hlen; lia).
  rewrite emitted_layout by exact Hlen.
  rewrite V7_UNPACK_MS_PACK, V7_UNPACK_SEQ_PACK.
  rewrite (Z.mod_small m) by lia.
  rewrite layout_seq_mod. reflexivity.
Qed.

Lemma app_next_pack (m sq : Z) :
  0 <= m < 2 ^ 52 -> 0 <= sq < 4096 ->
  Z.lor (u64 (Z.shiftl m 12)) sq = V7_PACK m sq.
Proof.
  intros Hm Hs. rewrite V7_PACK_arith.
  rewrite (Z.mod_small m), (Z.mod_small sq) by lia.
  unfold u64. rewrite Z.shiftl_mul_pow2 by lia.
  rewrite (Z.mod_small (m * 2 ^ 12)) by lia.
  rewrite lor_shifted_low by lia. reflexivity.
Qed.

Lemma lor_one (m : Z) : 0 <= m -> Z.lor m 1 = m + 1 - m mod 2.
Proof.
  intros Hm. pose proof (Z.div_mod m 2 ltac:(lia)) as E.
  pose proof (Z.mod_pos_bound m 2 ltac:(lia)) as B.
  assert (L : Z.lor (m / 2 * 2 ^ 1) 1 = m / 2 * 2 ^ 1 + 1)
    by (apply lor_shifted_low; lia).
  change (2 ^ 1) with 2 in L.
  destruct (Z.eq_dec (m mod 2) 0) as [H0 | H1].
  - replace m with (m / 2 * 2) at 1 by lia. lia.
  - replace m with (Z.lor (m / 2 * 2) 1) at 1 by lia.
    rewrite <- Z.lor_assoc. change (Z.lor 1 1) with 1. lia.
Qed.

Lemma app_next_wrap (m : Z) :
  0 <= m < 2 ^ 52 ->
  Z.lor (u64 (Z.shiftl m 12)) 4096 = V7_PACK (Z.lor m 1) 0.
Proof.
  intros Hm. rewrite V7_PACK_arith.
  pose proof (lor_one m ltac:(lia)) as L.
  pose proof (Z.div_mod m 2 ltac:(lia)) as E.
  pose proof (Z.mod_pos_bound m 2 ltac:(lia)) as B.
  change (2 ^ 52) with 4503599627370496 in *.
  rewrite (Z.mod_small (Z.lor m 1)) by lia.
  change (0 mod 4096) with 0. rewrite Z.add_0_r.
  unfold u64. rewrite Z.shiftl_mul_pow2 by lia.
  change (2 ^ 12) with 4096. change (2 ^ 64) with 18446744073709551616.
  rewrite (Z.mod_small (m * 4096)) by lia.
  change 4096 with (Z.shiftl 1 12) at 2.
  replace (m * 4096) with (Z.shiftl m 12)
    by (rewrite Z.shiftl_mul_pow2 by lia; reflexivity).
  rewrite <- Z.shiftl_lor, Z.shiftl_mul_pow2 by lia. reflexivity.
Qed.

Lemma app_prev_fields (prev : Z) :
  0 <= prev < 2 ^ 64 ->
  Z.shiftr prev 12 = V7_UNPACK_MS prev /\
  u16 (Z.land prev 4095) = V7_UNPACK_SEQ prev /\
  prev = V7_UNPACK_MS prev * 4096 + V7_UNPACK_SEQ prev.
Proof.
  intros H. rewrite V7_UNPACK_MS_arith, V7_UNPACK_SEQ_arith.
  rewrite (Z.mod_small prev) by lia.
  split; [rewrite Z.shiftr_div_pow2 by lia; reflexivity|].
  split; [exact (V7_UNPACK_SEQ_arith prev)|].
  pose proof (Z.div_mod prev 4096 ltac:(lia)). lia.
Qed.

(** X15: below the end of the sequence range [uuid_v7] reserves strictly
    increasing words.  With the register's sequence under 4095 and the
    clock under [2^52] ms, a call whose clock is ahead of the register
    stores [(now_ms, 0)], any other call stores the register plus one; a
    successful call's identifier reads back as the stored timestamp
    (modulo [2^48]) and sequence. *)
Theorem X15_uuid_v7_below_wrap (k : nat) (out : list Z) (s : AppUuid.state) :
  let e := AppUuid.env s in
  let prev := AppUuid.g_v7_state s in
  let now_ms := fst (AppUuid.realtime_ms (set_tick (tick e + k) e)) in
  AppUuid.last_id s = zeros16 -> (16 <= length out)%nat ->
  0 <= prev < 2 ^ 64 -> V7_UNPACK_SEQ prev <> 4095 -> now_ms < 2 ^ 52 ->
  exists st out' s',
    AppUuid.uuid_v7 (S k) k out s = Some (st, out', s') /\
    prev < AppUuid.g_v7_state s' /\
    (V7_UNPACK_MS prev < now_ms ->
     AppUuid.g_v7_state s' = V7_PACK now_ms 0) /\
    (now_ms <= V7_UNPACK_MS prev -> AppUuid.g_v7_state s' = prev + 1) /\
    (st = 0 ->
     extract_ms out' = V7_UNPACK_MS (AppUuid.g_v7_state s') mod 2 ^ 48 /\
     extract_seq out' = V7_UNPACK_SEQ (AppUuid.g_v7_state s')).
Proof.
  intros e prev now_ms Hid Hlen Hprev Hseq Hnow.
  pose proof (uuid_v7_run k out s Hid Hlen) as R. cbn zeta in R.
  fold e prev now_ms in R.
  destruct (app_prev_fields prev Hprev) as (Ems & Esq & Eprev).
  rewrite Ems, Esq in R.
  pose proof (V7_UNPACK_MS_range prev) as Rms.
  pose proof (V7_UNPACK_SEQ_range prev) as Rsq.
  assert (Hnow0 : 0 <= now_ms).
  { unfold now_ms, AppUuid.realtime_ms, u64. cbn [fst].
    apply Z.mod_pos_bound. lia. }
  set (ms := V7_UNPACK_MS prev) in *. set (sq := V7_UNPACK_SEQ prev) in *.
  set (e0 := set_tick (tick e + S k) e) in *.
  pose proof (fill_random_agree (rb_indeterminate e0) (rb_indeterminate e0)
                e0 eq_refl) as F. cbn zeta in F.
  destruct (Variant.fill_random (rb_indeterminate e0) e0) as [[st rb] e1].
  cbn [fst snd] in *. destruct F as (Fs & _ & _).
  change (2 ^ 52) with 4503599627370496 in *.
  destruct (Z.gtb_spec now_ms ms) as [Hgt | Hle].
  - destruct (Z.eqb_spec now_ms ms) as [? | _]; [lia|].
    rewrite (app_next_pack now_ms 0) in R
      by (change (2 ^ 52) with 4503599627370496; lia).
    assert (Hword : V7_PACK now_ms 0 = now_ms * 4096).
    { rewrite V7_PACK_arith. change (2 ^ 52) with 4503599627370496.
      rewrite (Z.mod_small now_ms) by lia.
      change (0 mod 4096) with 0. lia. }
    destruct Fs as [-> | ->]; cbn [Z.eqb negb] in R;
      eexists _, _, _; (split; [exact R|]);
      cbn [AppUuid.g_v7_state];
      (split; [lia|]); (split; [reflexivity|]); (split; [lia|]).
    + intros _.
      rewrite store_v7_emitted
        by (try exact Hlen; change (2 ^ 52) with 4503599627370496; lia).
      rewrite extract_ms_emitted, extract_seq_emitted by exact Hlen.
      split; reflexivity.
    + discriminate.
  - rewrite Z.eqb_refl in R.
    assert (Hu : u16 (sq + 1) = sq + 1)
      by (unfold u16; apply Z.mod_small; lia).
    rewrite Hu in R.
    rewrite (app_next_pack ms (sq + 1)) in R
      by (change (2 ^ 52) with 4503599627370496; lia).
    assert (Hword : V7_PACK ms (sq + 1) = prev + 1).
    { rewrite V7_PACK_arith. change (2 ^ 52) with 4503599627370496.
      rewrite (Z.mod_small ms), (Z.mod_small (sq + 1)) by lia. lia. }
    destruct Fs as [-> | ->]; cbn [Z.eqb negb] in R;
      eexists _, _, _; (split; [exact R|]);
      cbn [AppUuid.g_v7_state];
      (split; [lia|]); (split; [lia|]); (split; [intros _; exact Hword|]).
    + intros _.
      rewrite store_v7_emitted
        by (try exact Hlen; change (2 ^ 52) with 4503599627370496; lia).
      rewrite extract_ms_emitted, extract_seq_emitted by exact Hlen.
      split; reflexivity.
    + discriminate.
Qed.

Lemma X15_uuid_v7_below_wrap_witness :
  exists st out' s',
    AppUuid.uuid_v7 1 0 zeros16 (app_state (V7_PACK 1000 7) 1000)
    = Some (st, out', s') /\
    AppUuid.g_v7_state s' = V7_PACK 1000 7 + 1.
Proof.
  destruct (X15_uuid_v7_below_wrap 0 zeros16
              (app_state (V7_PACK 1000 7) 1000) eq_refl
              ltac:(cbn; lia)
              ltac:(vm_compute; split; [discriminate | reflexivity])
              ltac:(vm_compute; discriminate)
              ltac:(vm_compute; reflexivity))
    as (st & out' & s' & R & _ & _ & H & _).
  exists st, out', s'. split; [exact R|].
  apply H. vm_compute. discriminate.
Defined.

(** X16: at the end of the sequence range [uuid_v7] does not wait.  With
    the register at [(ms, 4095)] and the clock not past [ms], the call
    returns at once, stores [(ms | 1, 0)] and, on success, hands out an
    identifier that reads [(ms, 0)].  For odd [ms] the register therefore
    goes back to [(ms, 0)], below where it was. *)
Theorem X16_uuid_v7_wrap_goes_back (k : nat) (out : list Z)
    (s : AppUuid.state) (ms : Z) :
  let e := AppUuid.env s in
  let now_ms := fst (AppUuid.realtime_ms (set_tick (tick e + k) e)) in
  AppUuid.last_id s = zeros16 -> (16 <= length out)%nat ->
  0 <= ms < 2 ^ 52 -> AppUuid.g_v7_state s = V7_PACK ms 4095 ->
  now_ms <= ms ->
  exists st out' s',
    AppUuid.uuid_v7 (S k) k out s = Some (st, out', s') /\
    AppUuid.g_v7_state s' = V7_PACK (Z.lor ms 1) 0 /\
    (Z.odd ms = true ->
     AppUuid.g_v7_state s' = V7_PACK ms 0 /\
     AppUuid.g_v7_state s' < AppUuid.g_v7_state s) /\
    (st = 0 -> extract_ms out' = ms mod 2 ^ 48 /\ extract_seq out' = 0).
Proof.
  intros e now_ms Hid Hlen Hms Hprev Hnow.
  pose proof (uuid_v7_run k out s Hid Hlen) as R. cbn zeta in R.
  fold e now_ms in R.
  pose proof (V7_PACK_range ms 4095) as Rp.
  destruct (app_prev_fields (V7_PACK ms 4095) Rp) as (Ems & Esq & _).
  rewrite Hprev, Ems, Esq in R.
  rewrite V7_UNPACK_MS_PACK, V7_UNPACK_SEQ_PACK in R.
  rewrite (Z.mod_small ms) in R by lia.
  change (u16 (4095 mod 4096 + 1)) with 4096 in R.
  destruct (Z.gtb_spec now_ms ms) as [Hgt | _]; [lia|].
  rewrite Z.eqb_refl, app_next_wrap in R by exact Hms.
  set (e0 := set_tick (tick e + S k) e) in *.
  pose proof (fill_random_agree (rb_indeterminate e0) (rb_indeterminate e0)
                e0 eq_refl) as F. cbn zeta in F.
  destruct (Variant.fill_random (rb_indeterminate e0) e0) as [[st rb] e1].
  cbn [fst snd] in *. destruct F as (Fs & _ & _).
  assert (Hodd : Z.odd ms = true ->
            V7_PACK (Z.lor ms 1) 0 = V7_PACK ms 0 /\
            V7_PACK (Z.lor ms 1) 0 < V7_PACK ms 4095).
  { intros Ho. rewrite lor_one by lia. rewrite Zmod_odd, Ho.
    replace (ms + 1 - 1) with ms by lia. split; [reflexivity|].
    rewrite !V7_PACK_arith. change (0 mod 4096) with 0.
    change (4095 mod 4096) with 4095. lia. }
  destruct Fs as [-> | ->]; cbn [Z.eqb negb] in R;
    eexists _, _, _; (split; [exact R|]);
    cbn [AppUuid.g_v7_state]; (split; [reflexivity|]);
    (split; [rewrite Hprev; exact Hodd|]).
  - intros _. rewrite store_v7_emitted by assumption.
    rewrite extract_ms_emitted, extract_seq_emitted by exact Hlen.
    rewrite V7_UNPACK_MS_PACK, V7_UNPACK_SEQ_PACK.
    rewrite mod_pow2_nested by lia. split; reflexivity.
  - discriminate.
Qed.

Lemma X16_uuid_v7_wrap_goes_back_witness :
  exists st out' s',
    AppUuid.uuid_v7 1 0 zeros16 (app_state (V7_PACK 1001 4095) 1001)
    = Some (st, out', s') /\
    AppUuid.g_v7_state s' = V7_PACK (Z.lor 1001 1) 0.
Proof.
  destruct (X16_uuid_v7_wrap_goes_back 0 zeros16
              (app_state (V7_PACK 1001 4095) 1001) 1001 eq_refl
              ltac:(cbn; lia) ltac:(lia) eq_refl
              ltac:(vm_compute; discriminate))
    as (st & out' & s' & R & H & _).
  exists st, out', s'. split; [exact R | exact H].
Defined.

(** ** [uuid_gen] of [app/src/utils/uuid.c] *)

Lemma clock_ms_range (e : Env) (t : nat) : 0 <= clock_ms e t < 2 ^ 64.
Proof. unfold clock_ms, u64. apply Z.mod_pos_bound. lia. Qed.

Lemma _realtime_ms_clock_ms (w : World) :
  _realtime_ms w
  = (clock_ms (env w) (tick (env w)),
     set_env (set_tick (S (tick (env w))) (env w)) w).
Proof. reflexivity. Qed.

Lemma sodium_turn_policy (now_ms prev : Z) :
  0 <= prev < 2 ^ 64 -> 0 <= now_ms < 2 ^ 52 ->
  Sodium.uuid_gen_turn now_ms prev
  = if V7_UNPACK_MS prev <? now_ms
    then Sodium.TryCas now_ms (V7_PACK now_ms 0) 0
    else if V7_UNPACK_SEQ prev =? 4095 then Sodium.Again
         else Sodium.TryCas (V7_UNPACK_MS prev) (prev + 1)
                            (V7_UNPACK_SEQ prev + 1).
Proof.
  intros Hprev Hnow. unfold Sodium.uuid_gen_turn.
  destruct (app_prev_fields prev Hprev) as (Ems & Esq & Eprev).
  rewrite Ems, Esq.
  pose proof (V7_UNPACK_MS_range prev) as Rms.
  pose proof (V7_UNPACK_SEQ_range prev) as Rsq.
  set (ms := V7_UNPACK_MS prev) in *. set (sq := V7_UNPACK_SEQ prev) in *.
  change (2 ^ 52) with 4503599627370496 in *.
  assert (Hmask : u16 (Z.land (sq + 1) 4095)
                  = if sq =? 4095 then 0 else sq + 1).
  { change 4095 with (2 ^ 12 - 1) at 1. rewrite land_low_bits by lia.
    change (2 ^ 12) with 4096. unfold u16.
    destruct (Z.eqb_spec sq 4095) as [-> | Hne]; [reflexivity|].
    rewrite (Z.mod_small (sq + 1) 4096) by lia.
    apply Z.mod_small. lia. }
  rewrite Hmask.
  destruct (Z.ltb_spec ms now_ms) as [Hlt | Hge].
  - destruct (Z.geb_spec now_ms ms) as [_ | ?]; [|lia].
    destruct (Z.eqb_spec now_ms ms) as [? | _]; [lia|]. cbn [andb].
    rewrite app_next_pack
      by (change (2 ^ 52) with 4503599627370496; lia).
    reflexivity.
  - assert (Huse : (if now_ms >=? ms then now_ms else ms) = ms)
      by (destruct (Z.geb_spec now_ms ms); lia).
    rewrite Huse, Z.eqb_refl. cbn [andb].
    destruct (Z.eqb_spec sq 4095) as [Hw | Hne]; [reflexivity|].
    destruct (Z.eqb_spec (sq + 1) 0) as [? | _]; [lia|].
    rewrite app_next_pack
      by (change (2 ^ 52) with 4503599627370496; lia).
    rewrite V7_PACK_arith. change (2 ^ 52) with 4503599627370496.
    rewrite (Z.mod_small ms), (Z.mod_small (sq + 1)) by lia.
    f_equal. lia.
Qed.

(** X17: one turn of [uuid_gen], in arithmetic.  With the clock under
    [2^52] ms: a clock ahead of the register stores [(now_ms, 0)]; else a
    sequence of 4095 stores nothing and goes round again; else the turn
    stores the register plus one.  Whatever a turn stores is above the
    register. *)
Theorem X17_uuid_gen_turn_policy (now_ms prev : Z) :
  0 <= prev < 2 ^ 64 -> 0 <= now_ms < 2 ^ 52 ->
  Sodium.uuid_gen_turn now_ms prev
  = (if V7_UNPACK_MS prev <? now_ms
     then Sodium.TryCas now_ms (V7_PACK now_ms 0) 0
     else if V7_UNPACK_SEQ prev =? 4095 then Sodium.Again
          else Sodium.TryCas (V7_UNPACK_MS prev) (prev + 1)
                             (V7_UNPACK_SEQ prev + 1)) /\
  forall use_ms next seq12,
    Sodium.uuid_gen_turn now_ms prev = Sodium.TryCas use_ms next seq12 ->
    prev < next /\ next = V7_PACK use_ms seq12 /\ 0 <= seq12 <= 4095.
Proof.
  intros Hprev Hnow. pose proof (sodium_turn_policy now_ms prev Hprev Hnow)
    as P.
  split; [exact P|]. intros use_ms next seq12 E. rewrite P in E.
  destruct (app_prev_fields prev Hprev) as (_ & _ & Eprev).
  pose proof (V7_UNPACK_MS_range prev) as Rms.
  pose proof (V7_UNPACK_SEQ_range prev) as Rsq.
  change (2 ^ 52) with 4503599627370496 in *.
  destruct (Z.ltb_spec (V7_UNPACK_MS prev) now_ms) as [Hlt | Hge].
  - injection E as <- <- <-. split; [|split; [reflexivity | lia]].
    rewrite V7_PACK_arith. change (2 ^ 52) with 4503599627370496.
    rewrite (Z.mod_small now_ms) by lia. change (0 mod 4096) with 0. lia.
  - destruct (Z.eqb_spec (V7_UNPACK_SEQ prev) 4095) as [? | Hne];
      [discriminate|].
    injection E as <- <- <-. split; [lia|]. split; [|lia].
    rewrite V7_PACK_arith. change (2 ^ 52) with 4503599627370496.
    rewrite (Z.mod_small (V7_UNPACK_MS prev)),
            (Z.mod_small (V7_UNPACK_SEQ prev + 1)) by lia. lia.
Qed.

Lemma X17_uuid_gen_turn_policy_witness :
  Sodium.uuid_gen_turn 1000 (V7_PACK 1000 4095) = Sodium.Again.
Proof.
  exact (proj1 (X17_uuid_gen_turn_policy 1000 (V7_PACK 1000 4095)
                  ltac:(vm_compute; split; [discriminate | reflexivity])
                  ltac:(lia))).
Defined.

Lemma clock_ms_set_tick (a : nat) (e : Env) (t : nat) :
  clock_ms (set_tick a e) t = clock_ms e t.
Proof. destruct e. reflexivity. Qed.

Lemma tick_set_tick (a : nat) (e : Env) : tick (set_tick a e) = a.
Proof. destruct e. reflexivity. Qed.

Lemma sodium_loop_unfold (fuel spurious : nat) (w : World) :
  Sodium.uuid_gen_loop (S fuel) spurious w
  = match Sodium.uuid_gen_turn (clock_ms (env w) (tick (env w)))
            (g_v7_state w) with
    | Sodium.Again =>
        Sodium.uuid_gen_loop fuel spurious
          (set_env (set_tick (S (tick (env w))) (env w)) w)
    | Sodium.TryCas use_ms next seq12 =>
        match spurious with
        | S k =>
            Sodium.uuid_gen_loop fuel k
              (set_env (set_tick (S (tick (env w))) (env w)) w)
        | O => Some (use_ms, seq12,
                     set_state next
                       (set_env (set_tick (S (tick (env w))) (env w)) w))
        end
    end.
Proof. reflexivity. Qed.

Lemma sodium_loop_spin (fuel spurious : nat) (w : World) (ms : Z) :
  g_v7_state w = V7_PACK ms 4095 -> 0 <= ms < 2 ^ 52 ->
  (forall t, (tick (env w) <= t)%nat -> clock_ms (env w) t <= ms) ->
  Sodium.uuid_gen_loop fuel spurious w = None.
Proof.
  revert w. induction fuel as [|fuel IH]; intros w Hst Hms Hclock;
    [reflexivity|].
  cbn [Sodium.uuid_gen_loop]. rewrite _realtime_ms_clock_ms.
  change (g_v7_state (set_env _ w)) with (g_v7_state w).
  pose proof (clock_ms_range (env w) (tick (env w))) as Rn.
  pose proof (Hclock (tick (env w)) ltac:(lia)) as Hn.
  rewrite sodium_turn_policy
    by (rewrite ?Hst; first [apply V7_PACK_range | lia]).
  rewrite Hst, V7_UNPACK_MS_PACK, V7_UNPACK_SEQ_PACK.
  rewrite (Z.mod_small ms) by lia.
  destruct (Z.ltb_spec ms (clock_ms (env w) (tick (env w)))); [lia|].
  change (4095 mod 4096 =? 4095) with true. cbn iota.
  apply IH; [exact Hst | exact Hms |].
  cbn [env set_env]. intros t Ht.
  rewrite tick_set_tick in Ht. rewrite clock_ms_set_tick.
  apply Hclock. lia.
Qed.

(** X18: at the end of the sequence range [uuid_gen] waits for the clock.
    With the register at [(ms, 4095)] and a clock that never reads past
    [ms], the call has not returned after any number of loop turns. *)
Theorem X18_uuid_gen_waits_for_the_clock (randombytes_buf : rng_body)
    (fuel spurious : nat) (buf : list Z) (w : World) (ms : Z) :
  g_v7_state w = V7_PACK ms 4095 -> 0 <= ms < 2 ^ 52 ->
  (forall t, (tick (env w) <= t)%nat -> clock_ms (env w) t <= ms) ->
  Sodium.uuid_gen randombytes_buf fuel spurious (Some buf) w = None.
Proof.
  intros Hst Hms Hclock. unfold Sodium.uuid_gen.
  rewrite (sodium_loop_spin fuel spurious w ms Hst Hms Hclock).
  reflexivity.
Qed.

Lemma steady_clock_ms (ms : Z) (t : nat) :
  0 <= ms < 2 ^ 52 -> clock_ms (quiet_env ms) t = ms.
Proof.
  intros H. unfold clock_ms, quiet_env, steady_clock. cbn [clock tv_sec tv_nsec].
  change (2 ^ 52) with 4503599627370496 in H.
  pose proof (Z.div_mod ms 1000 ltac:(lia)) as E.
  pose proof (Z.mod_pos_bound ms 1000 ltac:(lia)) as B.
  assert (0 <= ms / 1000) by (apply Z.div_pos; lia).
  rewrite Z.quot_div_nonneg by lia.
  rewrite Z.div_mul by lia.
  unfold u64. change (2 ^ 64) with 18446744073709551616.
  rewrite (Z.mod_small (ms / 1000)) by lia.
  rewrite (Z.mod_small (ms mod 1000)) by lia.
  rewrite Z.mod_small by lia. lia.
Qed.

Lemma X18_uuid_gen_waits_for_the_clock_witness :
  Sodium.uuid_gen scripted_rng 1000 0 (Some zeros16)
    (stuck_world (V7_PACK 1001 4095) 1001) = None.
Proof.
  apply (X18_uuid_gen_waits_for_the_clock scripted_rng 1000 0 zeros16
           (stuck_world (V7_PACK 1001 4095) 1001) 1001 eq_refl ltac:(lia)).
  intros t _. cbn [env stuck_world].
  rewrite steady_clock_ms by lia. lia.
Defined.

Lemma sodium_loop_resume (j : nat) (w : World) (ms : Z) :
  g_v7_state w = V7_PACK ms 4095 -> 0 <= ms < 2 ^ 52 ->
  (forall t, (tick (env w) <= t < tick (env w) + j)%nat ->
             clock_ms (env w) t <= ms) ->
  ms < clock_ms (env w) (tick (env w) + j) < 2 ^ 52 ->
  Sodium.uuid_gen_loop (S j) 0 w
  = Some (clock_ms (env w) (tick (env w) + j), 0,
          set_state (V7_PACK (clock_ms (env w) (tick (env w) + j)) 0)
            (set_env (set_tick (tick (env w) + S j) (env w)) w)).
Proof.
  revert w. induction j as [|j IH]; intros w Hst Hms Hclock Hnow.
  - rewrite sodium_loop_unfold.
    rewrite Nat.add_0_r in Hnow.
    rewrite sodium_turn_policy
      by (rewrite ?Hst; first [apply V7_PACK_range | lia]).
    rewrite Hst, V7_UNPACK_MS_PACK, (Z.mod_small ms) by lia.
    destruct (Z.ltb_spec ms (clock_ms (env w) (tick (env w)))); [|lia].
    rewrite Nat.add_0_r, Nat.add_1_r. reflexivity.
  - rewrite sodium_loop_unfold.
    pose proof (clock_ms_range (env w) (tick (env w))) as Rn.
    pose proof (Hclock (tick (env w)) ltac:(lia)) as Hn.
    rewrite sodium_turn_policy
      by (rewrite ?Hst; first [apply V7_PACK_range | lia]).
    rewrite Hst, V7_UNPACK_MS_PACK, V7_UNPACK_SEQ_PACK.
    rewrite (Z.mod_small ms) by lia.
    destruct (Z.ltb_spec ms (clock_ms (env w) (tick (env w)))); [lia|].
    change (4095 mod 4096 =? 4095) with true. cbn iota.
    rewrite IH; cbn [env set_env g_v7_state];
      rewrite ?tick_set_tick, ?clock_ms_set_tick; try assumption.
    + rewrite set_tick_set_tick.
      replace (S (tick (env w)) + j)%nat with (tick (env w) + S j)%nat
        by lia.
      replace (S (tick (env w)) + S j)%nat
        with (tick (env w) + S (S j))%nat by lia.
      destruct w; reflexivity.
    + intros t Ht. rewrite clock_ms_set_tick. apply Hclock. lia.
    + replace (S (tick (env w)) + j)%nat with (tick (env w) + S j)%nat
        by lia. exact Hnow.
Qed.

(** X19: the wait ends with the first sample past the register's
    millisecond.  With the register at [(ms, 4095)], [j] samples that do
    not read past [ms] and then one that reads [now_ms > ms], the call
    returns 0 after [j + 1] turns, stores [(now_ms, 0)] and writes an
    identifier that reads back as [now_ms] (modulo [2^48]) and sequence
    0. *)
Theorem X19_uuid_gen_resumes (randombytes_buf : rng_body) (j : nat)
    (buf : list Z) (w : World) (ms : Z) :
  let now_ms := clock_ms (env w) (tick (env w) + j) in
  (16 <= length buf)%nat ->
  g_v7_state w = V7_PACK ms 4095 -> 0 <= ms < 2 ^ 52 ->
  (forall t, (tick (env w) <= t < tick (env w) + j)%nat ->
             clock_ms (env w) t <= ms) ->
  ms < now_ms < 2 ^ 52 ->
  exists o w',
    Sodium.uuid_gen randombytes_buf (S j) 0 (Some buf) w
    = Some (0, Some o, w') /\
    g_v7_state w' = V7_PACK now_ms 0 /\
    extract_ms o = now_ms mod 2 ^ 48 /\ extract_seq o = 0.
Proof.
  intros now_ms Hlen Hst Hms Hclock Hnow. unfold Sodium.uuid_gen.
  rewrite (sodium_loop_resume j w ms Hst Hms Hclock Hnow). fold now_ms.
  destruct (randombytes_buf _ _) as [rb e2].
  eexists _, _. split; [reflexivity|].
  split; [reflexivity|].
  rewrite store_v7_emitted by (try exact Hlen; lia).
  rewrite extract_ms_emitted, extract_seq_emitted by exact Hlen.
  rewrite V7_UNPACK_MS_PACK, V7_UNPACK_SEQ_PACK.
  rewrite mod_pow2_nested by lia. split; reflexivity.
Qed.

Lemma X19_uuid_gen_resumes_witness :
  exists o w',
    Sodium.uuid_gen scripted_rng 3 0 (Some zeros16)
      (set_state (V7_PACK 1001 4095) (ticking_world 1000))
    = Some (0, Some o, w') /\
    g_v7_state w' = V7_PACK 1002 0 /\
    extract_ms o = 1002 /\ extract_seq o = 0.
Proof.
  apply (X19_uuid_gen_resumes scripted_rng 2 zeros16
           (set_state (V7_PACK 1001 4095) (ticking_world 1000)) 1001
           ltac:(cbn; lia) eq_refl ltac:(lia)).
  - intros t Ht. cbn in Ht.
    destruct t as [|[|t]]; [vm_compute; discriminate ..| lia].
  - vm_compute. split; reflexivity.
Defined.

Lemma sodium_turn_not_again (now_ms prev : Z) :
  0 <= prev < 2 ^ 64 -> V7_UNPACK_SEQ prev <> 4095 ->
  Sodium.uuid_gen_turn now_ms prev <> Sodium.Again.
Proof.
  intros Hprev Hseq. unfold Sodium.uuid_gen_turn.
  destruct (app_prev_fields prev Hprev) as (_ & Esq & _). rewrite Esq.
  pose proof (V7_UNPACK_SEQ_range prev) as Rsq.
  set (sq := V7_UNPACK_SEQ prev) in *.
  assert (Hmask : u16 (Z.land (sq + 1) 4095) = sq + 1).
  { change 4095 with (2 ^ 12 - 1) at 1. rewrite land_low_bits by lia.
    change (2 ^ 12) with 4096. unfold u16.
    rewrite (Z.mod_small (sq + 1) 4096) by lia.
    apply Z.mod_small. lia. }
  rewrite Hmask.
  destruct (_ =? Z.shiftr prev 12); cbn [andb]; [|discriminate].
  destruct (Z.eqb_spec (sq + 1) 0); [lia | discriminate].
Qed.

Lemma sodium_loop_run (k : nat) (w : World) :
  0 <= g_v7_state w < 2 ^ 64 -> V7_UNPACK_SEQ (g_v7_state w) <> 4095 ->
  exists use_ms next seq12,
    Sodium.uuid_gen_turn (clock_ms (env w) (tick (env w) + k))
                         (g_v7_state w)
    = Sodium.TryCas use_ms next seq12 /\
    Sodium.uuid_gen_loop (S k) k w
    = Some (use_ms, seq12,
            set_state next
              (set_env (set_tick (tick (env w) + S k) (env w)) w)).
Proof.
  revert w. induction k as [|k IH]; intros w Hprev Hseq.
  - rewrite sodium_loop_unfold, Nat.add_0_r, Nat.add_1_r.
    pose proof (sodium_turn_not_again
                  (clock_ms (env w) (tick (env w))) _ Hprev Hseq) as N.
    destruct (Sodium.uuid_gen_turn _ _) as [|u n q]; [contradiction|].
    exists u, n, q. split; reflexivity.
  - rewrite sodium_loop_unfold.
    pose proof (sodium_turn_not_again
                  (clock_ms (env w) (tick (env w))) _ Hprev Hseq) as N.
    destruct (Sodium.uuid_gen_turn _ _) as [|u0 n0 q0]; [contradiction|].
    destruct (IH (set_env (set_tick (S (tick (env w))) (env w)) w)
                Hprev Hseq) as (u & n & q & T & L).
    cbn [env set_env g_v7_state] in T, L.
    rewrite tick_set_tick, ?clock_ms_set_tick, ?set_tick_set_tick in T, L.
    replace (S (tick (env w)) + k)%nat with (tick (env w) + S k)%nat
      in T by lia.
    replace (S (tick (env w)) + S k)%nat
      with (tick (env w) + S (S k))%nat in L by lia.
    exists u, n, q. split; [exact T|]. rewrite L.
    destruct w; reflexivity.
Qed.

(** X20: below the end of the sequence range [uuid_gen] returns 0 after
    as many turns as compare-exchanges fail plus one.  The register ends
    above where it was, the identifier reads back as the stored timestamp
    (modulo [2^48]) and sequence, carries version 7 and variant [10], and
    nothing beyond the sixteen bytes is written. *)
Theorem X20_uuid_gen_below_wrap (randombytes_buf : rng_body) (k : nat)
    (buf : list Z) (w : World) :
  (16 <= length buf)%nat ->
  0 <= g_v7_state w < 2 ^ 64 -> V7_UNPACK_SEQ (g_v7_state w) <> 4095 ->
  clock_ms (env w) (tick (env w) + k) < 2 ^ 52 ->
  exists o w',
    Sodium.uuid_gen randombytes_buf (S k) k (Some buf) w
    = Some (0, Some o, w') /\
    g_v7_state w < g_v7_state w' /\
    extract_ms o = V7_UNPACK_MS (g_v7_state w') mod 2 ^ 48 /\
    extract_seq o = V7_UNPACK_SEQ (g_v7_state w') /\
    Z.shiftr (nth 6 o 0) 4 = 7 /\ Z.shiftr (nth 8 o 0) 6 = 2 /\
    length o = length buf /\ drop 16 o = drop 16 buf.
Proof.
  intros Hlen Hprev Hseq Hnow. unfold Sodium.uuid_gen.
  destruct (sodium_loop_run k w Hprev Hseq) as (u & n & q & T & L).
  rewrite L.
  pose proof (clock_ms_range (env w) (tick (env w) + k)) as Rn.
  pose proof (sodium_turn_policy _ _ Hprev (conj (proj1 Rn) Hnow)) as P.
  assert (Hu : 0 <= u < 2 ^ 52 /\ g_v7_state w < n /\ n = V7_PACK u q).
  { rewrite P in T.
    destruct (app_prev_fields _ Hprev) as (_ & _ & Eprev).
    pose proof (V7_UNPACK_MS_range (g_v7_state w)) as Rms.
    pose proof (V7_UNPACK_SEQ_range (g_v7_state w)) as Rsq.
    change (2 ^ 52) with 4503599627370496 in *.
    destruct (Z.ltb_spec (V7_UNPACK_MS (g_v7_state w))
                (clock_ms (env w) (tick (env w) + k))).
    - injection T as <- <- <-. split; [lia|]. split; [|reflexivity].
      rewrite V7_PACK_arith. change (2 ^ 52) with 4503599627370496.
      rewrite (Z.mod_small (clock_ms _ _)) by lia.
      change (0 mod 4096) with 0. lia.
    - destruct (Z.eqb_spec (V7_UNPACK_SEQ (g_v7_state w)) 4095);
        [contradiction|].
      injection T as <- <- <-. split; [lia|]. split; [lia|].
      rewrite V7_PACK_arith. change (2 ^ 52) with 4503599627370496.
      rewrite (Z.mod_small (V7_UNPACK_MS _)),
              (Z.mod_small (V7_UNPACK_SEQ _ + 1)) by lia. lia. }
  destruct Hu as (Hu & Habove & Hn).
  destruct (randombytes_buf _ _) as [rb e2].
  pose proof (store_v7_tail u q rb buf) as [Ltail Dtail].
  pose proof (store_v7_fixed u q rb buf Hlen) as [F6 F8].
  eexists _, _. split; [reflexivity|].
  cbn [g_v7_state set_env set_state].
  split; [exact Habove|].
  rewrite store_v7_emitted in * by assumption. rewrite <- Hn in *.
  rewrite extract_ms_emitted, extract_seq_emitted by exact Hlen.
  repeat split; assumption.
Qed.

Lemma X20_uuid_gen_below_wrap_witness :
  exists o w',
    Sodium.uuid_gen scripted_rng 2 1 (Some zeros16)
      (stuck_world (V7_PACK 1000 7) 1000)
    = Some (0, Some o, w') /\
    V7_PACK 1000 7 < g_v7_state w'.
Proof.
  destruct (X20_uuid_gen_below_wrap scripted_rng 1 zeros16
              (stuck_world (V7_PACK 1000 7) 1000)
              ltac:(cbn; lia)
              ltac:(vm_compute; split; [discriminate | reflexivity])
              ltac:(vm_compute; discriminate)
              ltac:(vm_compute; reflexivity))
    as (o & w' & R & H & _).
  exists o, w'. split; [exact R | exact H].
Defined.

(** ** [uuid_to_hex] *)

Lemma h_at_code (k : Z) :
  0 <= k < 16 ->
  Z.of_nat (Ascii.nat_of_ascii (AppUuid.h_at k))
  = if k <? 10 then 48 + k else 87 + k.
Proof.
  intros H. rewrite <- (Z2Nat.id k) by lia.
  assert (Hn : (Z.to_nat k < 16)%nat) by lia.
  revert Hn. generalize (Z.to_nat k). intros n Hn.
  do 16 (destruct n as [|n]; [reflexivity|]). lia.
Qed.

Lemma h_at_inj (k1 k2 : Z) :
  0 <= k1 < 16 -> 0 <= k2 < 16 ->
  AppUuid.h_at k1 = AppUuid.h_at k2 -> k1 = k2.
Proof.
  intros H1 H2 E.
  apply (f_equal (fun c => Z.of_nat (Ascii.nat_of_ascii c))) in E.
  rewrite !h_at_code in E by assumption.
  destruct (Z.ltb_spec k1 10), (Z.ltb_spec k2 10); lia.
Qed.

Lemma hex_nibbles (b : Z) :
  0 <= b < 256 ->
  Z.land (Z.shiftr b 4) 15 = b / 16 /\ Z.land b 15 = b mod 16 /\
  0 <= b / 16 < 16 /\ 0 <= b mod 16 < 16.
Proof.
  intros H. change 15 with (2 ^ 4 - 1). rewrite !land_low_bits by lia.
  rewrite Z.shiftr_div_pow2 by lia. change (2 ^ 4) with 16.
  assert (0 <= b / 16 < 16).
  { split; [apply Z.div_pos; lia | apply Z.div_lt_upper_bound; lia]. }
  pose proof (Z.mod_pos_bound b 16 ltac:(lia)).
  rewrite (Z.mod_small (b / 16)) by lia. auto.
Qed.

Lemma uuid_to_hex_layout (id : list Z) (out32 : list Ascii.ascii) :
  (16 <= length id)%nat -> (33 <= length out32)%nat ->
  AppUuid.uuid_to_hex id out32
  = flat_map (fun b => [AppUuid.h_at (Z.land (Z.shiftr b 4) 15);
                        AppUuid.h_at (Z.land b 15)]) (take 16 id)
      ++ Ascii.zero :: drop 33 out32.
Proof.
  intros Hid Hout.
  do 16 (destruct id as [|? id]; [simpl in Hid; lia|]).
  do 33 (destruct out32 as [|? out32]; [simpl in Hout; lia|]).
  reflexivity.
Qed.

(** X21: [uuid_to_hex] writes, for each of the sixteen bytes, the digit of
    its high nibble and then the digit of its low nibble, each one of
    [0-9a-f] in lower case, and ends the string with NUL at position 32;
    the length of the buffer and what lies beyond position 32 stay as
    they were. *)
Theorem X21_uuid_to_hex_digits (id : list Z) (out32 : list Ascii.ascii) :
  (16 <= length id)%nat -> (33 <= length out32)%nat ->
  Forall (fun b => 0 <= b < 256) (take 16 id) ->
  let r := AppUuid.uuid_to_hex id out32 in
  length r = length out32 /\ drop 33 r = drop 33 out32 /\
  r !! 32%nat = Some Ascii.zero /\
  forall i, (i < 16)%nat ->
    let b := nth i id 0 in
    r !! (2 * i)%nat = Some (AppUuid.h_at (b / 16)) /\
    r !! (2 * i + 1)%nat = Some (AppUuid.h_at (b mod 16)) /\
    Z.of_nat (Ascii.nat_of_ascii (AppUuid.h_at (b / 16)))
    = (if b / 16 <? 10 then 48 + b / 16 else 87 + b / 16) /\
    Z.of_nat (Ascii.nat_of_ascii (AppUuid.h_at (b mod 16)))
    = (if b mod 16 <? 10 then 48 + b mod 16 else 87 + b mod 16).
Proof.
  intros Hid Hout Hb r. unfold r. clear r.
  rewrite uuid_to_hex_layout by assumption.
  do 16 (destruct id as [|? id]; [simpl in Hid; lia|]).
  do 33 (destruct out32 as [|? out32]; [simpl in Hout; lia|]).
  cbn [take flat_map app] in *.
  split; [reflexivity|].
  split; [reflexivity|]. split; [reflexivity|].
  intros i Hi. cbn zeta.
  assert (Hnib : forall b, 0 <= b < 256 ->
            AppUuid.h_at (Z.land (Z.shiftr b 4) 15) = AppUuid.h_at (b / 16) /\
            AppUuid.h_at (Z.land b 15) = AppUuid.h_at (b mod 16)).
  { intros b Hr. destruct (hex_nibbles b Hr) as (-> & -> & _). auto. }
  repeat match goal with
         | H : Forall _ (_ :: _) |- _ =>
             let Hx := fresh "Hx" in
             apply Forall_cons in H; destruct H as [Hx H]
         end.
  do 16 (destruct i as [|i];
         [cbn [nth Nat.mul Nat.add lookup list_lookup];
          match goal with
          | |- context [nth _ _ _] => idtac
          | |- context [AppUuid.h_at (?b / 16)] =>
              destruct (Hnib b ltac:(assumption)) as [-> ->];
              destruct (hex_nibbles b ltac:(assumption)) as (_ & _ & ? & ?);
              rewrite !h_at_code by assumption; repeat split; reflexivity
          end|]).
  lia.
Qed.

Lemma X21_uuid_to_hex_digits_witness :
  AppUuid.uuid_to_hex (replicate 16 171) (replicate 33 Ascii.zero)
    !! 1%nat = Some (AppUuid.h_at 11).
Proof.
  exact (proj1 (proj2
    (proj2 (proj2 (proj2
       (X21_uuid_to_hex_digits (replicate 16 171)
          (replicate 33 Ascii.zero) ltac:(cbn; lia) ltac:(cbn; lia)
          ltac:(cbn; repeat (constructor; [lia|]); constructor))))
       0%nat ltac:(lia)))).
Defined.

Lemma hex_digits_length (l : list Z) :
  length (flat_map (fun b => [AppUuid.h_at (Z.land (Z.shiftr b 4) 15);
                              AppUuid.h_at (Z.land b 15)]) l)
  = (2 * length l)%nat.
Proof. induction l as [|b l IH]; cbn [flat_map app length]; lia. Qed.

Lemma hex_digits_inj (l1 l2 : list Z) :
  Forall (fun b => 0 <= b < 256) l1 -> Forall (fun b => 0 <= b < 256) l2 ->
  flat_map (fun b => [AppUuid.h_at (Z.land (Z.shiftr b 4) 15);
                      AppUuid.h_at (Z.land b 15)]) l1
  = flat_map (fun b => [AppUuid.h_at (Z.land (Z.shiftr b 4) 15);
                        AppUuid.h_at (Z.land b 15)]) l2 ->
  l1 = l2.
Proof.
  revert l2. induction l1 as [|a l1 IH]; intros [|b l2] H1 H2 E;
    try reflexivity; try discriminate.
  apply Forall_cons in H1. destruct H1 as [Ha H1].
  apply Forall_cons in H2. destruct H2 as [Hb H2].
  cbn [flat_map app] in E. injection E as Ehi Elo E.
  destruct (hex_nibbles a Ha) as (A1 & A2 & A3 & A4).
  destruct (hex_nibbles b Hb) as (B1 & B2 & B3 & B4).
  rewrite A1, B1 in Ehi. rewrite A2, B2 in Elo.
  apply h_at_inj in Ehi; [|assumption ..].
  apply h_at_inj in Elo; [|assumption ..].
  f_equal; [|apply IH; assumption].
  pose proof (Z.div_mod a 16 ltac:(lia)).
  pose proof (Z.div_mod b 16 ltac:(lia)). lia.
Qed.

(** X22: the hex form loses nothing: two sixteen-byte identifiers whose
    [uuid_to_hex] strings agree on their 32 digits are the same
    identifier. *)
Theorem X22_uuid_to_hex_injective (id1 id2 : list Z)
    (out1 out2 : list Ascii.ascii) :
  length id1 = 16%nat -> length id2 = 16%nat ->
  (33 <= length out1)%nat -> (33 <= length out2)%nat ->
  Forall (fun b => 0 <= b < 256) id1 ->
  Forall (fun b => 0 <= b < 256) id2 ->
  take 32 (AppUuid.uuid_to_hex id1 out1)
  = take 32 (AppUuid.uuid_to_hex id2 out2) ->
  id1 = id2.
Proof.
  intros L1 L2 O1 O2 B1 B2 E.
  rewrite !uuid_to_hex_layout in E by lia.
  rewrite (take_ge id1), (take_ge id2) in E by lia.
  rewrite !take_app_length' in E by (rewrite hex_digits_length; lia).
  exact (hex_digits_inj id1 id2 B1 B2 E).
Qed.

Lemma X22_uuid_to_hex_injective_witness :
  replicate 16 171 = replicate 16 171.
Proof.
  exact (X22_uuid_to_hex_injective (replicate 16 171) (replicate 16 171)
           (replicate 33 Ascii.zero) (replicate 33 Ascii.Space)
           eq_refl eq_refl ltac:(cbn; lia) ltac:(cbn; lia)
           ltac:(cbn; repeat (constructor; [lia|]); constructor)
           ltac:(cbn; repeat (constructor; [lia|]); constructor)
           eq_refl).
Defined.

(** ** [uuid7_gen] over the scripted provider *)

Lemma fill_scripted (buf : list Z) (w : World) :
  g_uuid_rng_ptr w = Some (UserRng scripted_rng) -> buf <> [] ->
  let c := g_rng_ctx (env w) in
  (cursor c + length buf <= script_len c)%nat ->
  _fill_random buf w
  = (map (fun k => nth (cursor c + k) (script c) 0) (seq 0 (length buf)),
     set_env (set_rng_ctx
                {| script := script c; script_len := script_len c;
                   cursor := (cursor c + length buf)%nat;
                   fallback := fallback c |} (env w)) w).
Proof.
  intros Hp Hne c Hc. unfold _fill_random, load_uuid_rng. rewrite Hp.
  destruct buf as [|b buf]; [congruence|].
  cbn [length Nat.eqb call_rng].
  rewrite scripted_rng_ctx. fold c.
  rewrite (scripted_fold_in_script (b :: buf) c Hc). reflexivity.
Qed.

(** X23: what one call takes from the scripted provider.  Off the
    overflow path a call of [uuid7_gen] whose first compare-exchange
    succeeds reads ten bytes of the script: the first two make the fresh
    sequence draw, the third gives the low six bits of byte 8 and the
    last seven are bytes 9..15; the cursor ends ten bytes on. *)
Theorem X23_scripted_call_reads_ten_bytes (order : byte_order)
    (buf : list Z) (w : World) :
  let c := g_rng_ctx (env w) in
  let s := fun k => nth (cursor c + k) (script c) 0 in
  let now_ms := fst (_realtime_ms w) in
  let prev := g_v7_state w in
  let rnd := nonzero12 (load_u16 order [s 0%nat; s 1%nat]) in
  let use_ms :=
    if now_ms >=? V7_UNPACK_MS prev then now_ms else V7_UNPACK_MS prev in
  let r := uuid7_gen order 0 (Some buf) w in
  (16 <= length buf)%nat ->
  g_uuid_rng_ptr w = Some (UserRng scripted_rng) ->
  (cursor c + 10 <= script_len c)%nat ->
  (V7_PACK use_ms rnd <=? prev) && (V7_UNPACK_SEQ prev =? 4095) = false ->
  exists out,
    snd (fst r) = Some out /\
    g_v7_state (snd r) = v7_candidate now_ms prev rnd 0 /\
    nth 8 out 0 = 128 + s 2%nat mod 64 /\
    take 7 (drop 9 out)
    = [s 3%nat; s 4%nat; s 5%nat; s 6%nat; s 7%nat; s 8%nat; s 9%nat] /\
    cursor (g_rng_ctx (env (snd r))) = (cursor c + 10)%nat.
Proof.
  intros c s now_ms prev rnd use_ms r Hlen Hp Hc Hpath. unfold r.
  set (w0 := snd (_realtime_ms w)).
  assert (Hp0 : g_uuid_rng_ptr w0 = Some (UserRng scripted_rng)) by exact Hp.
  assert (Hc0 : g_rng_ctx (env w0) = c)
    by (unfold w0, c; destruct w as [st p e]; destruct e; reflexivity).
  set (w1 := set_env
               (set_rng_ctx
                  {| script := script c; script_len := script_len c;
                     cursor := (cursor c + 2)%nat;
                     fallback := fallback c |} (env w0)) w0).
  assert (RL : reserve_loop order 0 w
               = (v7_candidate now_ms prev rnd 0,
                  set_state (v7_candidate now_ms prev rnd 0) w1)).
  { unfold reserve_loop.
    rewrite (surjective_pairing (_realtime_ms w)). fold now_ms w0.
    change (g_v7_state w0) with prev.
    unfold reserve, draw_seq.
    rewrite (fill_scripted [0; 0] w0 Hp0 ltac:(discriminate))
      by (rewrite Hc0; cbn [length]; lia).
    rewrite Hc0. cbn [length seq map].
    change (nth (cursor c + 0) (script c) 0) with (s 0%nat).
    change (nth (cursor c + 1) (script c) 0) with (s 1%nat).
    fold rnd use_ms w1.
    unfold v7_candidate. fold use_ms.
    change (u16 V7_SEQ_MASK) with 4095 in *.
    destruct (V7_PACK use_ms rnd <=? prev); cbn [andb] in Hpath;
      [rewrite Hpath|]; reflexivity. }
  rewrite uuid7_gen_unfold, RL. cbn [fst snd].
  set (st := v7_candidate now_ms prev rnd 0).
  assert (Hp1 : g_uuid_rng_ptr (set_state st w1)
                = Some (UserRng scripted_rng)) by exact Hp.
  assert (Hc1 : g_rng_ctx (env (set_state st w1))
            = {| script := script c; script_len := script_len c;
                 cursor := (cursor c + 2)%nat; fallback := fallback c |}).
  { unfold w1. cbn [env set_state set_env].
    destruct (env w0); reflexivity. }
  assert (Hrb : length (rb_indeterminate (env (set_state st w1))) = 8%nat).
  { unfold rb_indeterminate. rewrite length_map, length_seq. reflexivity. }
  rewrite (fill_scripted _ (set_state st w1) Hp1)
    by (rewrite ?Hc1, ?Hrb; cbn [cursor script_len];
        first [lia | intros E; rewrite E in Hrb; discriminate]).
  rewrite Hc1, Hrb. cbn [fst snd cursor script script_len fallback seq map].
  eexists. split; [reflexivity|].
  split; [reflexivity|].
  rewrite emitted_layout by exact Hlen.
  cbn [layout app nth skipn firstn]. rewrite ?take_0. unfold s.
  rewrite <- !Nat.add_assoc. cbn [Nat.add].
  split; [reflexivity|]. split; [reflexivity|].
  cbn [env set_env set_state]. destruct (env w0). reflexivity.
Qed.

Lemma X23_scripted_call_reads_ten_bytes_witness :
  exists out,
    snd (fst (uuid7_gen LittleEndian 0 (Some zeros16) script5_world))
    = Some out /\
    nth 8 out 0 = 170 /\
    take 7 (drop 9 out) = [188; 205; 222; 239; 1; 35; 69].
Proof.
  destruct (X23_scripted_call_reads_ten_bytes LittleEndian zeros16
              script5_world ltac:(cbn; lia) eq_refl ltac:(cbn; lia)
              eq_refl)
    as (out & Ho & _ & H8 & Ht & _).
  exists out. split; [exact Ho|]. split; [exact H8 | exact Ht].
Defined.

(** * C3: when the entropy source fails *)



